(** * SurvivalNet: risk sets, dataset splits and cluster associations

    A shallow embedding of the parts of [examples/Run1.py] and
    [survivalnet/analysis/RiskCluster.py] that the specification talks
    about, and the properties proved of them.

    Conventions of the embedding.
    - numpy float arrays hold values of [NpFloat.t]: NaN, the two
      infinities, and finite values kept as exact rationals.  Rounding
      and the sign of zero are not represented; every property below is
      about counting, comparing and NaN propagation, where they play no
      part.
    - Python exceptions are values of [exn]; a computation that may raise
      returns a [result].
    - SciPy and NumPy routines whose body is numerical library code
      ([chi2.sf], [kruskalwallis], [pdist], the linkage core, [fcluster],
      [argsort], [RandomState.permutation]) are parameters of the sections
      that use them, constrained only by what their documentation
      promises. *)

From Stdlib Require Import String Ascii.
From Stdlib Require Import List ZArith QArith Qabs Qreduction Bool Arith Lia.
From Stdlib Require Import Permutation Sorted.
From Stdlib Require Floats Uint63.
Import ListNotations.
Import Corelib.Init.Datatypes.
Close Scope Q_scope.

Set Implicit Arguments.

(** ** Python exceptions *)

Inductive exn : Set :=
| ValueError
| IndexError
| UnboundLocalError.

Inductive result (A : Type) : Type :=
| Ok (a : A)
| Raise (e : exn).

Arguments Ok {A} a.
Arguments Raise {A} e.

Definition bind {A B : Type} (r : result A) (k : A -> result B) : result B :=
  match r with
  | Ok a => k a
  | Raise e => Raise e
  end.

Notation "x <- r ;; k" := (bind r (fun x => k))
  (at level 61, r at next level, right associativity).

(** Repeated case analysis on the results that a sequence of binds
    threads through. *)
Ltac step_bind :=
  match goal with
  | |- context [bind ?r _] =>
      let E := fresh "E" in destruct r eqn:E; simpl
  | H : context [bind ?r _] |- _ =>
      let E := fresh "E" in destruct r eqn:E; simpl in H
  end.

(** ** Floating point values as numpy compares them *)

Module NpFloat.

Local Open Scope Q_scope.

Inductive t : Set :=
| NaN
| PInf
| NInf
| Fin (q : Q).

Definition of_Z (z : Z) : t := Fin (inject_Z z).
Definition of_nat (n : nat) : t := of_Z (Z.of_nat n).

Definition zero : t := of_Z 0.
Definition one : t := of_Z 1.

Definition is_nan (x : t) : bool :=
  match x with NaN => true | _ => false end.

Definition neg (x : t) : t :=
  match x with
  | NaN => NaN
  | PInf => NInf
  | NInf => PInf
  | Fin q => Fin (Qred (- q))
  end.

Definition abs (x : t) : t :=
  match x with
  | NaN => NaN
  | PInf | NInf => PInf
  | Fin q => Fin (Qred (Qabs q))
  end.

Definition add (x y : t) : t :=
  match x, y with
  | NaN, _ | _, NaN => NaN
  | PInf, NInf | NInf, PInf => NaN
  | PInf, _ | _, PInf => PInf
  | NInf, _ | _, NInf => NInf
  | Fin a, Fin b => Fin (Qred (a + b))
  end.

Definition sub (x y : t) : t := add x (neg y).

(** The sign of an infinite product or quotient. *)
Definition signed_inf (positive : bool) : t :=
  if positive then PInf else NInf.

Definition inf_times (positive : bool) (q : Q) : t :=
  match q ?= 0 with
  | Eq => NaN
  | Gt => signed_inf positive
  | Lt => signed_inf (negb positive)
  end.

Definition mul (x y : t) : t :=
  match x, y with
  | NaN, _ | _, NaN => NaN
  | PInf, PInf | NInf, NInf => PInf
  | PInf, NInf | NInf, PInf => NInf
  | PInf, Fin q | Fin q, PInf => inf_times true q
  | NInf, Fin q | Fin q, NInf => inf_times false q
  | Fin a, Fin b => Fin (Qred (a * b))
  end.

(** IEEE division: [0/0] is NaN, [a/0] an infinity, [a/inf] zero. *)
Definition div (x y : t) : t :=
  match x, y with
  | NaN, _ | _, NaN => NaN
  | (PInf | NInf), (PInf | NInf) => NaN
  | Fin _, (PInf | NInf) => zero
  | PInf, Fin b => signed_inf (negb (Qle_bool b 0) || Qeq_bool b 0)
  | NInf, Fin b => signed_inf (Qle_bool b 0 && negb (Qeq_bool b 0))
  | Fin a, Fin b =>
      if Qeq_bool b 0 then
        match a ?= 0 with
        | Eq => NaN
        | Gt => PInf
        | Lt => NInf
        end
      else Fin (Qred (a / b))
  end.

(** [x == y] of numpy: false as soon as one side is NaN. *)
Definition eqb (x y : t) : bool :=
  match x, y with
  | PInf, PInf | NInf, NInf => true
  | Fin a, Fin b => Qeq_bool a b
  | _, _ => false
  end.

(** [x < y] of numpy: false as soon as one side is NaN. *)
Definition ltb (x y : t) : bool :=
  match x, y with
  | NaN, _ | _, NaN => false
  | _, NInf => false
  | NInf, _ => true
  | PInf, _ => false
  | _, PInf => true
  | Fin a, Fin b => negb (Qle_bool b a)
  end.

(** [x > y]. *)
Definition gtb (x y : t) : bool := ltb y x.

(** The order numpy sorts by: ascending, every NaN after every number. *)
Definition sort_leb (x y : t) : bool :=
  match x, y with
  | _, NaN => true
  | NaN, _ => false
  | NInf, _ => true
  | _, NInf => false
  | _, PInf => true
  | PInf, _ => false
  | Fin a, Fin b => Qle_bool a b
  end.

Definition sum (l : list t) : t := fold_left add l zero.

End NpFloat.

(** ** Python strings *)

Module PyStr.

Local Open Scope Z_scope.

(** [str.rfind(s, c)] for a one-character needle: the highest index at
    which [c] occurs, or [-1]. *)
Fixpoint rfind_from (s : string) (c : ascii) (i last : Z) : Z :=
  match s with
  | EmptyString => last
  | String a s' => rfind_from s' c (i + 1) (if Ascii.eqb a c then i else last)
  end.

Definition rfind (s : string) (c : ascii) : Z := rfind_from s c 0 (-1).

Fixpoint drop (n : nat) (s : string) : string :=
  match n, s with
  | O, _ => s
  | S _, EmptyString => EmptyString
  | S n', String _ s' => drop n' s'
  end.

(** The slice [s[k:]]; a negative [k] counts from the end. *)
Definition slice_from (s : string) (k : Z) : string :=
  let len := Z.of_nat (String.length s) in
  let start := if k <? 0 then Z.max 0 (len + k) else k in
  drop (Z.to_nat start) s.

(** [str.isspace] on the code points below 256. *)
Definition is_space (c : ascii) : bool :=
  let n := nat_of_ascii c in
  (((9 <=? n) && (n <=? 13)) || ((28 <=? n) && (n <=? 32))
   || (n =? 133) || (n =? 160))%nat.

Fixpoint lstrip (s : string) : string :=
  match s with
  | EmptyString => EmptyString
  | String c s' => if is_space c then lstrip s' else s
  end.

Definition reverse (s : string) : string :=
  string_of_list_ascii (rev (list_ascii_of_string s)).

Definition rstrip (s : string) : string := reverse (lstrip (reverse s)).

(** [s.strip()] *)
Definition strip (s : string) : string := rstrip (lstrip s).

(** [c in s] *)
Fixpoint has_char (c : ascii) (s : string) : bool :=
  match s with
  | EmptyString => false
  | String a s' => Ascii.eqb a c || has_char c s'
  end.

End PyStr.

(** ** Arrays *)

(** A two-dimensional float array: samples in rows, features in columns. *)
Record ndarray2 : Set := {
  n_rows : nat;
  n_cols : nat;
  rows : list (list NpFloat.t)
}.

Definition wf_ndarray2 (m : ndarray2) : Prop :=
  length (rows m) = n_rows m /\
  Forall (fun r => length r = n_cols m) (rows m).

Definition enumerate {A : Type} (l : list A) : list (nat * A) :=
  combine (seq 0 (length l)) l.

(** [np.arange(a, b)] *)
Definition arange (a b : Z) : list Z :=
  map (fun k => (a + Z.of_nat k)%Z) (seq 0 (Z.to_nat (b - a))).

(** [np.max] of an integer vector; numpy refuses an empty one. *)
Definition np_max (v : list Z) : result Z :=
  match v with
  | [] => Raise ValueError
  | x :: xs => Ok (fold_left Z.max xs x)
  end.

(** In-place assignment [l[i] = v]. *)
Fixpoint set_nth {A : Type} (l : list A) (i : nat) (v : A) : list A :=
  match l, i with
  | [], _ => []
  | _ :: t, O => v :: t
  | h :: t, S i' => h :: set_nth t i' v
  end.

(** [M[r, c] = v] *)
Definition set_item {A : Type} (M : list (list A)) (r c : nat) (v : A)
  : list (list A) :=
  set_nth M r (set_nth (nth r M []) c v).

Fixpoint for_each {I S : Type} (body : I -> S -> result S) (l : list I) (st : S)
  : result S :=
  match l with
  | [] => Ok st
  | i :: l' => st' <- body i st ;; for_each body l' st'
  end.

(** ** ClusterAssociations (survivalnet/analysis/RiskCluster.py) *)

Module Assoc.

(** The function's local variables that outlive a loop iteration:
    the list being built, and [p], which is unbound until a test has
    assigned it. *)
Record locals : Type := {
  Significant : list string;
  p : option NpFloat.t
}.

(** [Symbol[str.rfind(str(Symbol), '_')+1:]] *)
Definition Suffix_of (Symbol : string) : string :=
  PyStr.slice_from Symbol (PyStr.rfind Symbol "_"%char + 1).

(** [[index for index, x in enumerate(Suffix) if x == tag]] *)
Definition indices_with (tag : string) (Suffix : list string) : list nat :=
  map fst (filter (fun ix => String.eqb (snd ix) tag) (enumerate Suffix)).

(** [Raw[Labels == j, c]]: the entries of column [c] in the rows whose
    label is [j].  numpy raises IndexError when the mask and the rows
    disagree in number, and when the column does not exist. *)
Definition mask_column (Raw : ndarray2) (Labels : list Z) (j : Z) (c : nat)
  : result (list NpFloat.t) :=
  if negb (length Labels =? n_rows Raw) then Raise IndexError
  else if negb (c <? n_cols Raw) then Raise IndexError
  else Ok (map (fun lr => nth c (snd lr) NpFloat.NaN)
               (filter (fun lr => Z.eqb (fst lr) j)
                       (combine Labels (rows Raw)))).

(** [np.sum(xs == v)] *)
Definition count_eq (v : NpFloat.t) (xs : list NpFloat.t) : nat :=
  length (filter (fun x => NpFloat.eqb x v) xs).

(** [np.zeros((2, K))].  The entries are counts; float64 holds them
    exactly, so they are kept as naturals and converted where the
    arithmetic starts. *)
Definition np_zeros2 (K : Z) : result (list (list nat)) :=
  if (K <? 0)%Z then Raise ValueError
  else Ok [repeat 0 (Z.to_nat K); repeat 0 (Z.to_nat K)].

(** [np.sum(Observed, axis=0)] *)
Fixpoint sum_axis0 (M : list (list nat)) : list nat :=
  match M with
  | [] => []
  | [r] => r
  | r :: M' => map (fun ab => fst ab + snd ab) (combine r (sum_axis0 M'))
  end.

(** [np.sum(Observed, axis=1)] *)
Definition sum_axis1 (M : list (list nat)) : list nat :=
  map (fun r => list_sum r) M.

(** [np.sum(Observed.flatten())] *)
Definition sum_all (M : list (list nat)) : nat := list_sum (concat M).

(** [np.outer(u, v)] *)
Definition outer (u v : list nat) : list (list nat) :=
  map (fun a => map (fun b => a * b) v) u.

Definition to_float (M : list (list nat)) : list (list NpFloat.t) :=
  map (map NpFloat.of_nat) M.

(** [np.outer(ColSum, RowSum) / np.sum(Observed.flatten())] *)
Definition expected (Observed : list (list nat)) : list (list NpFloat.t) :=
  let RowSum := sum_axis0 Observed in
  let ColSum := sum_axis1 Observed in
  map (map (fun x => NpFloat.div (NpFloat.of_nat x)
                                 (NpFloat.of_nat (sum_all Observed))))
      (outer ColSum RowSum).

(** One term of Pearson's statistic, [(o - e)**2 / e]. *)
Definition chi_term (o e : NpFloat.t) : NpFloat.t :=
  NpFloat.div (NpFloat.mul (NpFloat.sub o e) (NpFloat.sub o e)) e.

Definition chi_terms (f_obs f_exp : list (list NpFloat.t)) : list NpFloat.t :=
  map (fun oe => chi_term (fst oe) (snd oe))
      (combine (concat f_obs) (concat f_exp)).

Section Tests.

(** [scipy.stats.distributions.chi2.sf] and
    [scipy.stats.mstats.kruskalwallis] (its p-value; it raises ValueError
    when all the numbers are identical). *)
Variable chi2_sf : NpFloat.t -> Z -> NpFloat.t.
Variable kruskalwallis : list (list NpFloat.t) -> result NpFloat.t.

(** [scipy.stats.chisquare(f_obs, f_exp, ddof, axis=None)]: both tables
    are flattened, the statistic is the sum of the terms and the p-value
    is the chi-square survival function at [num_obs - 1 - ddof] degrees of
    freedom.  Returns [(stat, p)]. *)
Definition chisquare (f_obs f_exp : list (list NpFloat.t)) (ddof : Z)
  : NpFloat.t * NpFloat.t :=
  let terms := chi_terms f_obs f_exp in
  let stat := NpFloat.sum terms in
  let num_obs := Z.of_nat (length terms) in
  (stat, chi2_sf stat (num_obs - 1 - ddof)%Z).

Variable Raw : ndarray2.
Variable Symbols : list string.
Variable Labels : list Z.
Variable Tau : NpFloat.t.

(** The loop over [j] that fills the contingency table of feature [c]. *)
Fixpoint fill_observed (c : nat) (js : list Z) (Observed : list (list nat))
  : result (list (list nat)) :=
  match js with
  | [] => Ok Observed
  | j :: js' =>
      zeros <- mask_column Raw Labels j c ;;
      let Observed :=
        set_item Observed 0 (Z.to_nat (j - 1)) (count_eq NpFloat.zero zeros) in
      ones <- mask_column Raw Labels j c ;;
      let Observed :=
        set_item Observed 1 (Z.to_nat (j - 1)) (count_eq NpFloat.one ones) in
      fill_observed c js' Observed
  end.

(** The table of feature [c] for [K] clusters. *)
Definition observed_table (c : nat) (K : Z) : result (list (list nat)) :=
  Observed <- np_zeros2 K ;;
  fill_observed c (arange 1 (K + 1)) Observed.

(** The body of the mutation loop up to the test: [(stat, p)]. *)
Definition mutation_test (c : nat) : result (NpFloat.t * NpFloat.t) :=
  K <- np_max Labels ;;
  Observed <- observed_table c K ;;
  Ok (chisquare (to_float Observed) (expected Observed) 1).

Definition report (c : nat) (pv : NpFloat.t) (st : locals) : locals :=
  {| Significant :=
       if NpFloat.ltb pv Tau
       then Significant st ++ [nth c Symbols EmptyString]
       else Significant st;
     p := Some pv |}.

Definition mutation_body (c : nat) (st : locals) : result locals :=
  sp <- mutation_test c ;;
  Ok (report c (snd sp) st).

(** The [if]/[elif] chain of the copy-number loop for [K = np.max(Labels)].
    Each of the four branches assigns [p]; when none is taken [p] keeps
    whatever it held. *)
Definition cnv_branches (K : Z) (c : nat) (st : locals) : result locals :=
  if (K =? 2)%Z then
    CNV1 <- mask_column Raw Labels 1 c ;;
    CNV2 <- mask_column Raw Labels 2 c ;;
    pv <- kruskalwallis [CNV1; CNV2] ;;
    Ok {| Significant := Significant st; p := Some pv |}
  else if (K =? 3)%Z then
    CNV1 <- mask_column Raw Labels 1 c ;;
    CNV2 <- mask_column Raw Labels 2 c ;;
    CNV3 <- mask_column Raw Labels 3 c ;;
    pv <- kruskalwallis [CNV1; CNV2; CNV3] ;;
    Ok {| Significant := Significant st; p := Some pv |}
  else if (K =? 4)%Z then
    CNV1 <- mask_column Raw Labels 1 c ;;
    CNV2 <- mask_column Raw Labels 2 c ;;
    CNV3 <- mask_column Raw Labels 3 c ;;
    CNV4 <- mask_column Raw Labels 4 c ;;
    pv <- kruskalwallis [CNV1; CNV2; CNV3; CNV4] ;;
    Ok {| Significant := Significant st; p := Some pv |}
  else if (K =? 5)%Z then
    CNV1 <- mask_column Raw Labels 1 c ;;
    CNV2 <- mask_column Raw Labels 2 c ;;
    CNV3 <- mask_column Raw Labels 3 c ;;
    CNV4 <- mask_column Raw Labels 4 c ;;
    CNV5 <- mask_column Raw Labels 5 c ;;
    pv <- kruskalwallis [CNV1; CNV2; CNV3; CNV4; CNV5] ;;
    Ok {| Significant := Significant st; p := Some pv |}
  else Ok st.

(** The body of the copy-number loop: the chain, then [if p < Tau]. *)
Definition cnv_body (c : nat) (st : locals) : result locals :=
  K <- np_max Labels ;;
  st <- cnv_branches K c st ;;
  match p st with
  | None => Raise UnboundLocalError
  | Some pv => Ok (report c pv st)
  end.

Definition Mutations : list nat := indices_with "Mut" (map Suffix_of Symbols).
Definition CNVs : list nat := indices_with "CNV" (map Suffix_of Symbols).

Definition mutation_loop (st : locals) : result locals :=
  for_each mutation_body Mutations st.

Definition cnv_loop (st : locals) : result locals :=
  for_each cnv_body CNVs st.

Definition ClusterAssociations : result (list string) :=
  st <- mutation_loop {| Significant := []; p := None |} ;;
  st <- cnv_loop st ;;
  Ok (Significant st).

End Tests.

End Assoc.

(** ** Risk sets *)

Module RiskSet.

(** Modelled from the spec: [SurvivalAnalysis.calc_at_risk] is imported
    by [examples/Run1.py] from [survivalnet.optimization], which is not
    among the sources.  Section 4.1 of the specification gives its
    contract [BuildRiskSet(X, T, O) -> (X, T, O, A)]: it fails with a
    ValueError when the leading dimensions disagree, and otherwise [A] is
    the n-by-n matrix with [A[i][j] = 1] when [T[j] > T[i]], else [0]. *)
Definition calc_at_risk (X : list (list NpFloat.t)) (T : list NpFloat.t)
  (O : list Z)
  : result (list (list NpFloat.t) * list NpFloat.t * list Z * list (list bool)) :=
  if (length X =? length T) && (length T =? length O) then
    Ok (X, T, O, map (fun ti => map (fun tj => NpFloat.gtb tj ti) T) T)
  else Raise ValueError.

(** [A[i][j]] *)
Definition entry (A : list (list bool)) (i j : nat) : bool :=
  nth j (nth i A []) false.

End RiskSet.

(** ** The shuffle loop of Run (examples/Run1.py) *)

Module Shuffle.

Definition N_SHUFFLES : nat := 20.

Record dataset : Type := {
  X : list (list NpFloat.t);
  T : list NpFloat.t;
  O : list Z
}.

(** The three triples handed to [calc_at_risk] in one iteration. *)
Record partitions : Type := {
  train_set : dataset;
  test_set : dataset;
  val_set : dataset
}.

(** [a[order]]: indexing by an integer array; an index past the end
    raises IndexError. *)
Fixpoint take {A : Type} (a : list A) (order : list nat) : result (list A) :=
  match order with
  | [] => Ok []
  | i :: order' =>
      match nth_error a i with
      | None => Raise IndexError
      | Some x => rest <- take a order' ;; Ok (x :: rest)
      end
  end.

(** [a[lo:hi]] and [a[lo:]] for indices that are not negative. *)
Definition slice {A : Type} (a : list A) (lo hi : nat) : list A :=
  firstn (hi - lo) (skipn lo a).

Definition slice_from {A : Type} (a : list A) (lo : nat) : list A :=
  skipn lo a.

(** [int(20 * n / 100)] *)
Definition fold_size (n : nat) : nat := (20 * n) / 100.

Section Loop.

(** [np.random.RandomState(seed).permutation(a)] *)
Variable permutation : nat -> list nat -> list nat.

(** One pass of the loop body down to the risk-set calls: the arrays are
    re-indexed, rebound, and sliced. *)
Definition shuffle_body (i : nat) (d : dataset) : result (dataset * partitions) :=
  let order := permutation i (seq 0 (length (X d))) in
  X1 <- take (X d) order ;;
  O1 <- take (O d) order ;;
  T1 <- take (T d) order ;;
  let fs := fold_size (length X1) in
  Ok ({| X := X1; T := T1; O := O1 |},
      {| train_set := {| X := slice_from X1 (2 * fs);
                         T := slice_from T1 (2 * fs);
                         O := slice_from O1 (2 * fs) |};
         test_set := {| X := slice X1 0 fs;
                        T := slice T1 0 fs;
                        O := slice O1 0 fs |};
         val_set := {| X := slice X1 fs (2 * fs);
                       T := slice T1 fs (2 * fs);
                       O := slice O1 fs (2 * fs) |} |}).

(** The loop over the shuffle indices; [X], [T] and [O] are rebound in
    each pass and carried into the next.  The result lists, per pass, the
    arrays as rebound and the partitions cut from them. *)
Fixpoint shuffle_loop (seeds : list nat) (d : dataset)
  : result (list (dataset * partitions)) :=
  match seeds with
  | [] => Ok []
  | i :: seeds' =>
      dp <- shuffle_body i d ;;
      rest <- shuffle_loop seeds' (fst dp) ;;
      Ok (dp :: rest)
  end.

Definition Run (d : dataset) : result (list (dataset * partitions)) :=
  shuffle_loop (seq 0 N_SHUFFLES) d.

End Loop.

(** The samples of [d] at the positions [idx], the same positions for the
    three arrays. *)
Definition rows_at (d : dataset) (idx : list nat) : dataset :=
  {| X := map (fun i => nth i (X d) []) idx;
     T := map (fun i => nth i (T d) NpFloat.NaN) idx;
     O := map (fun i => nth i (O d) 0%Z) idx |}.

End Shuffle.

(** ** RiskCluster (survivalnet/analysis/RiskCluster.py) *)

Module Cluster.

(** *** Ranking of the features *)

(** What numpy documents of [np.argsort(a)] with the default [kind]: an
    index array that sorts [a] ascending, NaN last; the default sort is
    not stable. *)
Definition sorts (a : list NpFloat.t) (order : list nat) : Prop :=
  Permutation order (seq 0 (length a)) /\
  StronglySorted
    (fun i j => NpFloat.sort_leb (nth i a NpFloat.NaN) (nth j a NpFloat.NaN) = true)
    order.

Definition argsort_contract (argsort : list NpFloat.t -> list nat) : Prop :=
  forall a, sorts a (argsort a).

(** Two sorts that meet the contract: insertion of the indices in
    ascending order, each placed before the first one already there whose
    key is larger ([strict]), or larger or equal (not [strict]). *)
Definition goes_before (a : list NpFloat.t) (strict : bool) (i j : nat) : bool :=
  let ki := nth i a NpFloat.NaN in
  let kj := nth j a NpFloat.NaN in
  if strict then negb (NpFloat.sort_leb kj ki) else NpFloat.sort_leb ki kj.

Fixpoint insert_index (a : list NpFloat.t) (strict : bool) (i : nat)
  (sorted : list nat) : list nat :=
  match sorted with
  | [] => [i]
  | j :: rest =>
      if goes_before a strict i j then i :: sorted
      else j :: insert_index a strict i rest
  end.

Definition insertion_argsort (strict : bool) (a : list NpFloat.t) : list nat :=
  fold_left (fun sorted i => insert_index a strict i sorted)
            (seq 0 (length a)) [].

Section Rank.

(** [np.mean] of the values of one column, top to bottom: the floating
    point sum that numpy accumulates, divided by their number.  How the
    sum is rounded is numpy's; the absolute value and the change of sign
    that follow are exact. *)
Variable np_mean : list NpFloat.t -> NpFloat.t.

(** [np.argsort] *)
Variable argsort : list NpFloat.t -> list nat.

(** [np.mean(G, axis=0)] *)
Definition mean_axis0 (G : ndarray2) : list NpFloat.t :=
  map (fun c => np_mean (map (fun r => nth c r NpFloat.NaN) (rows G)))
      (seq 0 (n_cols G)).

(** [-np.abs(np.mean(Gradients, axis=0))] *)
Definition sort_keys (Gradients : ndarray2) : list NpFloat.t :=
  map (fun m => NpFloat.neg (NpFloat.abs m)) (mean_axis0 Gradients).

(** [Order = np.argsort(-np.abs(np.mean(Gradients, axis=0)))] *)
Definition Order (Gradients : ndarray2) : list nat :=
  argsort (sort_keys Gradients).

(** [Order[0:N]] *)
Definition top_features (Gradients : ndarray2) (N : nat) : list nat :=
  firstn N (Order Gradients).

End Rank.

(** *** Sample labels *)

(** A numpy array of one or of two dimensions. *)
Inductive ndarray : Type :=
| Arr1 (v : list NpFloat.t)
| Arr2 (m : list (list NpFloat.t)).

(** [M.T] / [M.transpose()] of an array with [n] columns. *)
Definition transpose (n : nat) (M : list (list NpFloat.t))
  : list (list NpFloat.t) :=
  map (fun c => map (fun r => nth c r NpFloat.NaN) M) (seq 0 n).

(** Python's built-in [max] over a sequence of floats. *)
Definition py_max (l : list NpFloat.t) : result NpFloat.t :=
  match l with
  | [] => Raise ValueError
  | x :: xs =>
      Ok (fold_left (fun cur y => if NpFloat.ltb cur y then y else cur) xs x)
  end.

Section Labels.

(** [scipy.spatial.distance.pdist(M, 'correlation')]: the condensed
    vector of correlation distances between the rows of [M]. *)
Variable pdist_correlation : list (list NpFloat.t) -> list NpFloat.t.
(** [scipy.spatial.distance.squareform] on a condensed vector. *)
Variable squareform : list NpFloat.t -> list (list NpFloat.t).
(** Average-linkage agglomeration of a condensed distance vector; each
    row of the result is one merge, its third entry the merge distance. *)
Variable average_linkage : list NpFloat.t -> list (list NpFloat.t).
(** [scipy.cluster.hierarchy.fcluster(Z, t, 'distance')] *)
Variable fcluster : list (list NpFloat.t) -> NpFloat.t -> list Z.

(** [scipy.cluster.hierarchy.linkage(y, method='average',
    metric='correlation')].  As SciPy documents it, a one-dimensional [y]
    is a condensed distance vector, and a two-dimensional [y] is a
    collection of observation vectors, whose pairwise distances in the
    given metric are computed first. *)
Definition linkage (y : ndarray) : list (list NpFloat.t) :=
  match y with
  | Arr1 v => average_linkage v
  | Arr2 m => average_linkage (pdist_correlation m)
  end.

(** Lines 91-96 of RiskCluster; [Normalized] is the normalized
    sub-matrix after its transposition, features in rows and [n] samples
    in columns. *)
Definition SampleLabels (n : nat) (Normalized : list (list NpFloat.t))
  : result (list Z) :=
  let SampleDist := pdist_correlation (transpose n Normalized) in
  let SampleDist := squareform SampleDist in
  let SampleLinkage := linkage (Arr2 SampleDist) in
  top <- py_max (map (fun r => nth 2 r NpFloat.NaN) SampleLinkage) ;;
  Ok (fcluster SampleLinkage (NpFloat.mul (NpFloat.Fin (7 # 10)) top)).

End Labels.

(** *** The annotation tracks *)

(** [Symbol.strip()[-4:] == tag] *)
Definition has_tag (tag : string) (Symbol : string) : bool :=
  String.eqb (PyStr.slice_from (PyStr.strip Symbol) (-4)) tag.

Definition SigMut (Significant : list string) : list string :=
  filter (has_tag "_Mut") Significant.

Definition SigCNV (Significant : list string) : list string :=
  filter (has_tag "_CNV") Significant.

End Cluster.

(** ** The vocabulary of the properties *)

(** *** Tables of counts *)

Module Table.

Import Assoc.

(** The label and the value of feature [c], sample by sample. *)
Definition samples (Raw : ndarray2) (Labels : list Z) (c : nat)
  : list (Z * NpFloat.t) :=
  map (fun lr => (fst lr, nth c (snd lr) NpFloat.NaN))
      (combine Labels (rows Raw)).

(** How many samples of cluster [j] have a value equal to [v]. *)
Definition cell (Raw : ndarray2) (Labels : list Z) (c : nat)
  (v : NpFloat.t) (j : Z) : nat :=
  length (filter (fun lv => Z.eqb (fst lv) j && NpFloat.eqb (snd lv) v)
                 (samples Raw Labels c)).

(** The 2-by-K table of the specification: row 0 counts the zeros, row 1 the
    ones, column [k] is cluster [k + 1]. *)
Definition contingency (Raw : ndarray2) (Labels : list Z) (c K : nat)
  : list (list nat) :=
  [ map (fun k => cell Raw Labels c NpFloat.zero (1 + Z.of_nat k)) (seq 0 K);
    map (fun k => cell Raw Labels c NpFloat.one (1 + Z.of_nat k)) (seq 0 K) ].

(** The marginals and the expected counts as the specification words
    them. *)
Definition row_marginal (M : list (list nat)) (r : nat) : nat :=
  list_sum (nth r M []).

Definition col_marginal (M : list (list nat)) (j : nat) : nat :=
  list_sum (map (fun row => nth j row 0) M).

Definition total (M : list (list nat)) : nat :=
  list_sum (map (fun row => list_sum row) M).

Definition expected_count (M : list (list nat)) (r j : nat) : NpFloat.t :=
  NpFloat.div (NpFloat.of_nat (row_marginal M r * col_marginal M j))
              (NpFloat.of_nat (total M)).

Definition expected_table (M : list (list nat)) (K : nat)
  : list (list NpFloat.t) :=
  map (fun r => map (fun j => expected_count M r j) (seq 0 K)) (seq 0 2).

(** The p-value of the specification for feature [c]: the chi-square test of
    the table of counts against the table of expected counts, with
    [ddof = 1]. *)
Definition mutation_p (chi2_sf : NpFloat.t -> Z -> NpFloat.t)
  (Raw : ndarray2) (Labels : list Z) (K c : nat) : NpFloat.t :=
  snd (chisquare chi2_sf
         (to_float (contingency Raw Labels c K))
         (expected_table (contingency Raw Labels c K) K) 1).

(** [Symbols[c]] *)
Definition symbol (Symbols : list string) (c : nat) : string :=
  nth c Symbols EmptyString.

(** The values the table counts. *)
Definition binary (v : NpFloat.t) : bool :=
  NpFloat.eqb v NpFloat.zero || NpFloat.eqb v NpFloat.one.

(** The data set without the samples whose value for feature [c] is
    neither 0 nor 1. *)
Definition remaining (Raw : ndarray2) (Labels : list Z) (c : nat)
  : ndarray2 * list Z :=
  let kept := filter (fun lr => binary (nth c (snd lr) NpFloat.NaN))
                     (combine Labels (rows Raw)) in
  ({| n_rows := length kept; n_cols := n_cols Raw; rows := map snd kept |},
   map fst kept).

(** A cluster count for which the copy-number loop has no branch. *)
Definition outside_range (K : Z) : Prop :=
  K <> 2%Z /\ K <> 3%Z /\ K <> 4%Z /\ K <> 5%Z.

End Table.

(** *** The decision and the samples it rests on *)

Module Decision.

Import Assoc Table.

(** The last clause of the claim about the omitted samples, as it is
    worded: the decision for a mutation feature is the one that the
    remaining samples give when taken alone. *)
Definition decision_over_remaining : Prop :=
  forall (chi2_sf : NpFloat.t -> Z -> NpFloat.t),
    (forall df, chi2_sf NpFloat.NaN df = NpFloat.NaN) ->
    forall (Raw : ndarray2) (Symbols : list string) (Labels : list Z)
           (Tau : NpFloat.t) (c K : nat) (st : locals),
      wf_ndarray2 Raw ->
      length Labels = n_rows Raw ->
      c < n_cols Raw ->
      np_max Labels = Ok (Z.of_nat K) ->
      Forall (fun l => (1 <= l)%Z) Labels ->
      mutation_body chi2_sf Raw Symbols Labels Tau c st
      = mutation_body chi2_sf (fst (remaining Raw Labels c)) Symbols
                      (snd (remaining Raw Labels c)) Tau c st.

End Decision.

(** *** Arrangements of the samples *)

Module Split.

Import Shuffle.

(** Where the samples of the original data set stand after a pass that
    started from the arrangement [prev] and drew [order]. *)
Definition reindex (prev order : list nat) : list nat :=
  map (fun j => nth j prev 0) order.

(** The three row ranges, as positions in an arrangement of [n] samples. *)
Definition test_idx (idx : list nat) : list nat :=
  firstn (fold_size (length idx)) idx.

Definition val_idx (idx : list nat) : list nat :=
  firstn (fold_size (length idx)) (skipn (fold_size (length idx)) idx).

Definition train_idx (idx : list nat) : list nat :=
  skipn (2 * fold_size (length idx)) idx.

Definition split_at (d : dataset) (idx : list nat) : partitions :=
  {| train_set := rows_at d (train_idx idx);
     test_set := rows_at d (test_idx idx);
     val_set := rows_at d (val_idx idx) |}.

(** The arrangement after each pass, from the arrangement before the
    first one; pass [i] draws from the generator seeded with [i]. *)
Fixpoint arrangements (permutation : nat -> list nat -> list nat) (n : nat)
  (seeds : list nat) (prev : list nat) : list (list nat) :=
  match seeds with
  | [] => []
  | i :: seeds' =>
      let idx := reindex prev (permutation i (seq 0 n)) in
      idx :: arrangements permutation n seeds' idx
  end.

End Split.

(** *** The sort behind [np.argsort] *)

(** [np.argsort] with its default [kind], on doubles: the indirect
    introsort of numpy's [npysort] (quicksort with a median of three,
    insertion sort for ranges of up to 17 entries, heapsort once the
    depth limit is spent), the sort of the numpy releases that still
    have [np.float], which RiskCluster calls. *)

Module Numpy.

Definition SMALL_QUICKSORT : nat := 16.

(** [DOUBLE_LT]: NaN comes after every other value. *)
Definition less (a b : NpFloat.t) : bool :=
  NpFloat.ltb a b || (NpFloat.is_nan b && negb (NpFloat.is_nan a)).

(** A range pushed for later, with the depth left to it. *)
Record frame : Set := {
  f_pl : nat;
  f_pr : nat;
  f_depth : Z
}.

Section Sort.

(** The values; [tosort] holds indices into them, and positions in
    [tosort] stand for the pointers of the C code. *)
Variable v : list NpFloat.t.

Definition value (index : nat) : NpFloat.t := nth index v NpFloat.NaN.

Definition at_ (tosort : list nat) (pos : nat) : nat := nth pos tosort 0.

(** The value that the entry at a position points to. *)
Definition key (tosort : list nat) (pos : nat) : NpFloat.t :=
  value (at_ tosort pos).

(** [INTP_SWAP] of the entries at two positions *)
Definition swap (tosort : list nat) (p q : nat) : list nat :=
  set_nth (set_nth tosort p (at_ tosort q)) q (at_ tosort p).

(** [do ++pi; while] the key at [pi] is less than [vp] *)
Fixpoint scan_up (fuel : nat) (tosort : list nat) (vp : NpFloat.t) (pi : nat)
  : nat :=
  match fuel with
  | O => pi
  | S fuel =>
      let pi := S pi in
      if less (key tosort pi) vp then scan_up fuel tosort vp pi else pi
  end.

(** [do --pj; while] [vp] is less than the key at [pj] *)
Fixpoint scan_down (fuel : nat) (tosort : list nat) (vp : NpFloat.t) (pj : nat)
  : nat :=
  match fuel with
  | O => pj
  | S fuel =>
      let pj := pj - 1 in
      if less vp (key tosort pj) then scan_down fuel tosort vp pj else pj
  end.

(** The [for (;;)] loop of the partition; returns the array and [pi]. *)
Fixpoint partition (fuel : nat) (tosort : list nat) (vp : NpFloat.t)
  (pi pj : nat) : list nat * nat :=
  match fuel with
  | O => (tosort, pi)
  | S fuel =>
      let pi := scan_up (length tosort) tosort vp pi in
      let pj := scan_down (length tosort) tosort vp pj in
      if pj <=? pi then (tosort, pi)
      else partition fuel (swap tosort pi pj) vp pi pj
  end.

(** [while (pj > pl] and [vp] is less than the key at [pk]): the entry
    at [pk] moves up to [pj], and both step down. *)
Fixpoint shift (fuel : nat) (tosort : list nat) (vp : NpFloat.t) (pl pj : nat)
  : list nat * nat :=
  match fuel with
  | O => (tosort, pj)
  | S fuel =>
      if (pl <? pj) && less vp (key tosort (pj - 1)) then
        shift fuel (set_nth tosort pj (at_ tosort (pj - 1))) vp pl (pj - 1)
      else (tosort, pj)
  end.

(** The insertion sort of the positions [pl] to [pr]. *)
Definition insert (pl : nat) (tosort : list nat) (pi : nat) : list nat :=
  let vi := at_ tosort pi in
  let vp := value vi in
  let '(tosort, pj) := shift pi tosort vp pl pi in
  set_nth tosort pj vi.

Definition insertion_sort (tosort : list nat) (pl pr : nat) : list nat :=
  fold_left (insert pl) (seq (S pl) (pr - pl)) tosort.

(** The heap of [aheapsort]: [n] entries from position [off], counted
    from 1. *)
Definition heap_get (tosort : list nat) (off k : nat) : nat :=
  at_ tosort (off + k - 1).

Definition heap_set (tosort : list nat) (off k x : nat) : list nat :=
  set_nth tosort (off + k - 1) x.

Fixpoint sift (fuel : nat) (tosort : list nat) (off n tmp i j : nat)
  : list nat :=
  match fuel with
  | O => heap_set tosort off i tmp
  | S fuel =>
      if j <=? n then
        let j :=
          if (j <? n) && less (value (heap_get tosort off j))
                              (value (heap_get tosort off (S j)))
          then S j else j in
        if less (value tmp) (value (heap_get tosort off j)) then
          sift fuel (heap_set tosort off i (heap_get tosort off j))
               off n tmp j (j + j)
        else heap_set tosort off i tmp
      else heap_set tosort off i tmp
  end.

(** [for (l = n >> 1; l > 0; --l)] *)
Definition heapify (tosort : list nat) (off n : nat) : list nat :=
  fold_left (fun t l => sift n t off n (heap_get t off l) l (2 * l))
            (rev (seq 1 (n / 2))) tosort.

(** [for (; n > 1;)] *)
Fixpoint extract (fuel : nat) (tosort : list nat) (off n : nat) : list nat :=
  match fuel with
  | O => tosort
  | S fuel =>
      if 1 <? n then
        let tmp := heap_get tosort off n in
        let tosort := heap_set tosort off n (heap_get tosort off 1) in
        let n := n - 1 in
        extract fuel (sift n tosort off n tmp 1 2) off n
      else tosort
  end.

Definition aheapsort (tosort : list nat) (off n : nat) : list nat :=
  extract n (heapify tosort off n) off n.

(** [while ((pr - pl) > SMALL_QUICKSORT)]: partition, push the larger
    side and go on with the smaller. *)
Fixpoint split_loop (fuel : nat) (tosort : list nat) (pl pr : nat)
  (cdepth : Z) (stack : list frame) : list nat * nat * nat * list frame :=
  match fuel with
  | O => (tosort, pl, pr, stack)
  | S fuel =>
      if SMALL_QUICKSORT <? pr - pl then
        let pm := pl + (pr - pl) / 2 in
        let tosort :=
          if less (key tosort pm) (key tosort pl) then swap tosort pm pl
          else tosort in
        let tosort :=
          if less (key tosort pr) (key tosort pm) then swap tosort pr pm
          else tosort in
        let tosort :=
          if less (key tosort pm) (key tosort pl) then swap tosort pm pl
          else tosort in
        let vp := key tosort pm in
        let tosort := swap tosort pm (pr - 1) in
        let '(tosort, pi) := partition (length tosort) tosort vp pl (pr - 1) in
        let tosort := swap tosort pi (pr - 1) in
        let cdepth := (cdepth - 1)%Z in
        if pi - pl <? pr - pi then
          split_loop fuel tosort pl (pi - 1) cdepth
                     ({| f_pl := pi + 1; f_pr := pr; f_depth := cdepth |} :: stack)
        else
          split_loop fuel tosort (pi + 1) pr cdepth
                     ({| f_pl := pl; f_pr := pi - 1; f_depth := cdepth |} :: stack)
      else (tosort, pl, pr, stack)
  end.

(** [while (1)]: one range after the other, until the stack is empty. *)
Fixpoint sort_loop (fuel : nat) (tosort : list nat) (pl pr : nat)
  (cdepth : Z) (stack : list frame) : list nat :=
  match fuel with
  | O => tosort
  | S fuel =>
      let '(tosort, stack) :=
        if (cdepth <? 0)%Z then (aheapsort tosort pl (pr - pl + 1), stack)
        else
          let '(tosort, pl, pr, stack) :=
            split_loop (length tosort) tosort pl pr cdepth stack in
          (insertion_sort tosort pl pr, stack) in
      match stack with
      | [] => tosort
      | range :: stack =>
          sort_loop fuel tosort (f_pl range) (f_pr range) (f_depth range) stack
      end
  end.

End Sort.

(** [np.argsort(v)]: the indices [0 .. n-1] sorted by their values, with
    a depth limit of twice the position of the highest bit of [n]. *)
Definition argsort (v : list NpFloat.t) : list nat :=
  sort_loop v (S (length v)) (seq 0 (length v)) 0 (length v - 1)
            (2 * Z.log2 (Z.of_nat (length v)))%Z [].

End Numpy.

(** *** Rankings *)

Module Ranking.

Import Cluster.

(** [i] is not after [j] in the order numpy sorts [a] by. *)
Definition not_after (a : list NpFloat.t) (i j : nat) : Prop :=
  NpFloat.sort_leb (nth i a NpFloat.NaN) (nth j a NpFloat.NaN) = true.

Section Scores.

Variable np_mean : list NpFloat.t -> NpFloat.t.

(** The selection holds [min N p] distinct feature indices, in
    non-increasing order of |mean gradient|, none of them ranked after a
    feature left out. *)
Definition ranked (selection : list nat) (Gradients : ndarray2) (N : nat)
  : Prop :=
  length selection = Nat.min N (n_cols Gradients) /\
  NoDup selection /\
  Forall (fun i => i < n_cols Gradients) selection /\
  StronglySorted (not_after (sort_keys np_mean Gradients)) selection /\
  forall i j,
    In i selection -> j < n_cols Gradients -> ~ In j selection ->
    not_after (sort_keys np_mean Gradients) i j.

(** Features whose scores are equal stand in ascending order of their
    index. *)
Definition ties_by_index (selection : list nat) (Gradients : ndarray2) : Prop :=
  forall s t,
    s < t < length selection ->
    NpFloat.eqb (nth (nth s selection 0) (sort_keys np_mean Gradients) NpFloat.NaN)
                (nth (nth t selection 0) (sort_keys np_mean Gradients) NpFloat.NaN)
    = true ->
    nth s selection 0 < nth t selection 0.

End Scores.

(** What the refutation uses of [np.mean]: the mean of a single value is
    that value. *)
Definition mean_of_one (np_mean : list NpFloat.t -> NpFloat.t) : Prop :=
  forall x, np_mean [x] = x.

(** The ranking as the specification words it, for [np.argsort] as
    RiskCluster calls it: ranked, with equal scores kept in ascending
    order of the feature index. *)
Definition stable_ranking : Prop :=
  forall (np_mean : list NpFloat.t -> NpFloat.t),
    mean_of_one np_mean ->
    forall (Gradients : ndarray2) (N : nat),
      ranked np_mean (top_features np_mean Numpy.argsort Gradients N)
             Gradients N /\
      ties_by_index np_mean (top_features np_mean Numpy.argsort Gradients N)
                    Gradients.

End Ranking.

(** ** Reading the data set (examples/Run1.py) *)

Module Csv.

(** The line feed, the only line end that a file opened in text mode
    shows. *)
Definition newline : ascii := "010"%char.

(** [f.readlines()] on the text of the file: the lines, each with its
    line end. *)
Fixpoint readlines (text : string) : list string :=
  match text with
  | EmptyString => []
  | String c rest =>
      if Ascii.eqb c newline then String c EmptyString :: readlines rest
      else match readlines rest with
           | [] => [String c EmptyString]
           | line :: lines => String c line :: lines
           end
  end.

(** [s.split(sep)] for a separator of one character. *)
Fixpoint split (sep : ascii) (s : string) : list string :=
  match s with
  | EmptyString => [EmptyString]
  | String c rest =>
      if Ascii.eqb c sep then EmptyString :: split sep rest
      else match split sep rest with
           | [] => [String c EmptyString]
           | field :: fields => String c field :: fields
           end
  end.

(** [l.pop(0)]: what is left of the list. *)
Definition pop0 {A : Type} (l : list A) : result (list A) :=
  match l with
  | [] => Raise IndexError
  | _ :: rest => Ok rest
  end.

(** [l[-k]] for [k >= 1] *)
Definition from_end {A : Type} (l : list A) (k : nat) : result A :=
  if length l <? k then Raise IndexError
  else match nth_error l (length l - k) with
       | Some x => Ok x
       | None => Raise IndexError
       end.

(** [l[:-2]] *)
Definition but_last_two {A : Type} (l : list A) : list A :=
  firstn (length l - 2) l.

(** The three lists that the loop over the rows fills. *)
Record columns : Type := {
  X_list : list (list string);
  T_list : list string;
  O_list : list string
}.

(** The body of [for l in list]. *)
Definition row_body (l : list string) (st : columns) : result columns :=
  let X_list := X_list st ++ [but_last_two l] in
  o <- from_end l 1 ;;
  let O_list := O_list st ++ [o] in
  t <- from_end l 2 ;;
  let T_list := T_list st ++ [t] in
  Ok {| X_list := X_list; T_list := T_list; O_list := O_list |}.

(** Lines 50-63 of Run: the file is split into lines and the lines at
    the commas, the first line is dropped, and each other line gives a
    row of features, a time and a status, still as text. *)
Definition read_rows (text : string) : result columns :=
  let lines := readlines text in
  let list := map (split ","%char) lines in
  list <- pop0 list ;;
  for_each row_body list {| X_list := []; T_list := []; O_list := [] |}.

(** The rows put together again: the features of a sample, then its time
    and its status. *)
Definition rows_of (cols : columns) : list (list string) :=
  map (fun xto => fst (fst xto) ++ [snd (fst xto); snd xto])
      (combine (combine (X_list cols) (T_list cols)) (O_list cols)).

(** A line as [readlines] gives it: text without a line feed, followed by
    one, or, for the last line only, not empty and at the end of the
    file. *)
Definition line_shape (final : bool) (line : string) : Prop :=
  exists body,
    PyStr.has_char newline body = false /\
    (line = (body ++ String newline EmptyString)%string \/
     (final = true /\ line = body /\ body <> EmptyString)).

End Csv.

(** ** The annotation tracks of RiskCluster *)

Module Tracks.

(** [[i for i, Symbol in enumerate(Symbols) if Symbol in set(Sig)]] *)
Definition Indices (Symbols Sig : list string) : list nat :=
  map fst (filter (fun ix => existsb (String.eqb (snd ix)) Sig)
                  (enumerate Symbols)).

(** [Raw[:, Indices]]; an index that is not a column raises
    IndexError. *)
Definition columns (Raw : ndarray2) (Indices : list nat) : result ndarray2 :=
  if forallb (fun c => c <? n_cols Raw) Indices then
    Ok {| n_rows := n_rows Raw;
          n_cols := length Indices;
          rows := map (fun r => map (fun c => nth c r NpFloat.NaN) Indices)
                      (rows Raw) |}
  else Raise IndexError.

(** [M[SampleOrder, :].T] *)
Definition reordered (M : ndarray2) (SampleOrder : list nat)
  : result (list (list NpFloat.t)) :=
  picked <- Shuffle.take (rows M) SampleOrder ;;
  Ok (Cluster.transpose (n_cols M) picked).

(** Lines 147-149 and 154-156: the values drawn in a track, one row for
    each selected feature, the samples in the order of the dendrogram. *)
Definition track (Raw : ndarray2) (Symbols Sig : list string)
  (SampleOrder : list nat) : result (list (list NpFloat.t)) :=
  M <- columns Raw (Indices Symbols Sig) ;;
  reordered M SampleOrder.

End Tracks.

(** ** The layout of the figure (survivalnet/analysis/RiskCluster.py) *)

(** The layout numbers are Python floats: binary64 values, and every
    operation on them rounds to the nearest one.  They are kept as such,
    with the decimal constants read as Python reads them. *)

Module Layout.

Import Floats.

#[local] Set Warnings "-inexact-float".

Local Open Scope float_scope.

Definition SPACING : float := 0.01.
Definition TRACK : float := 0.01.
Definition FEATURE_W : float := 0.1.
Definition FEATURE_X : float := SPACING.
Definition FEATURE_Y : float := SPACING.
Definition HEATMAP_X : float := FEATURE_X + FEATURE_W + SPACING.
Definition HEATMAP_Y : float := FEATURE_Y.
Definition HEATMAP_W : float := 1 - FEATURE_W - 3 * SPACING.
Definition SAMPLE_H : float := 0.1.
Definition SAMPLE_W : float := HEATMAP_W.
Definition SAMPLE_X : float := HEATMAP_X.
Definition TRACK_W : float := HEATMAP_W.
Definition TRACK_X : float := HEATMAP_X.

(** A length, where it meets a float: the conversion is exact. *)
Definition count (n : nat) : float :=
  PrimFloat.of_uint63 (Uint63.of_Z (Z.of_nat n)).

(** The rectangle [[x, y, w, h]] handed to [Figure.add_axes]. *)
Record axes : Set := {
  ax_x : float;
  ax_y : float;
  ax_w : float;
  ax_h : float
}.

Section Figure.

(** [len(Significant)], [len(SigMut)] and [len(SigCNV)] *)
Variable n_sig n_mut n_cnv : nat.

Definition TRACK_H : float := TRACK * count n_sig.
Definition HEATMAP_H : float := 1 - SAMPLE_H - TRACK_H - 4 * SPACING.
Definition TRACK_Y : float := HEATMAP_H + 2 * SPACING.
Definition FEATURE_H : float := HEATMAP_H.
Definition SAMPLE_Y : float := HEATMAP_H + TRACK_H + 3 * SPACING.

Definition SampleHandle : axes :=
  {| ax_x := SAMPLE_X; ax_y := SAMPLE_Y; ax_w := SAMPLE_W; ax_h := SAMPLE_H |}.

Definition FeatureHandle : axes :=
  {| ax_x := FEATURE_X; ax_y := FEATURE_Y; ax_w := FEATURE_W; ax_h := FEATURE_H |}.

Definition Heatmap : axes :=
  {| ax_x := HEATMAP_X; ax_y := HEATMAP_Y; ax_w := HEATMAP_W; ax_h := HEATMAP_H |}.

(** The axes of the mutation tracks and of the copy-number tracks. *)
Definition gm : axes :=
  {| ax_x := TRACK_X;
     ax_y := TRACK_Y + count n_cnv * TRACK;
     ax_w := TRACK_W;
     ax_h := TRACK_H - count n_cnv * TRACK |}.

Definition cnv : axes :=
  {| ax_x := TRACK_X;
     ax_y := TRACK_Y;
     ax_w := TRACK_W;
     ax_h := TRACK_H - count n_mut * TRACK |}.

End Figure.

(** The height at which label [i] of [m] is written, in the coordinates
    of its axes: [i / np.float(m) + 1 / np.float(2 * m)]. *)
Definition label_y (m i : nat) : float :=
  count i / count m + 1 / count (2 * m)%nat.

(** The top edge and the right edge of a rectangle. *)
Definition top_edge (a : axes) : float := ax_y a + ax_h a.
Definition right_edge (a : axes) : float := ax_x a + ax_w a.

(** Two numbers that differ by less than [1e-12]. *)
Definition near (a b : float) : bool :=
  PrimFloat.ltb (PrimFloat.abs (a - b)) 1e-12.

(** The properties of the layout as tests on the computed numbers. *)

(** With [n] significant features the rectangles stand apart, in their
    order, inside the figure. *)
Definition stacked (n : nat) : bool :=
  PrimFloat.ltb 0 (ax_x (FeatureHandle n))
  && PrimFloat.ltb (right_edge (FeatureHandle n)) (ax_x (Heatmap n))
  && PrimFloat.ltb (right_edge (Heatmap n)) 1
  && PrimFloat.ltb 0 (ax_y (Heatmap n))
  && PrimFloat.ltb 0 (ax_h (Heatmap n))
  && PrimFloat.ltb (top_edge (Heatmap n)) (TRACK_Y n)
  && PrimFloat.leb (TRACK_Y n) (TRACK_Y n + TRACK_H n)
  && PrimFloat.ltb (TRACK_Y n + TRACK_H n) (ax_y (SampleHandle n))
  && PrimFloat.ltb (top_edge (SampleHandle n)) 1.

(** The height of the heatmap is positive up to 86 significant features
    and negative from 87 on. *)
Definition height_sign (n : nat) : bool :=
  Bool.eqb (PrimFloat.ltb 0 (ax_h (Heatmap n))) (n <=? 86)%nat
  && Bool.eqb (PrimFloat.ltb (ax_h (Heatmap n)) 0) (87 <=? n)%nat.

(** The two track rectangles fill the strip of the tracks, and overlap
    by one [TRACK] for each significant feature that has no label. *)
Definition tracks_fit (n m c : nat) : bool :=
  near (top_edge (cnv n m) - ax_y (gm n c)) (TRACK * count (n - m - c)%nat)
  && near (top_edge (gm n c)) (TRACK_Y n + TRACK_H n)
  && near (ax_h (gm n c)) (TRACK * count (n - c)%nat)
  && near (ax_h (cnv n m)) (TRACK * count (n - m)%nat)
  && (if (n - m - c =? 0)%nat then near (top_edge (cnv n m)) (ax_y (gm n c))
      else PrimFloat.ltb (ax_y (gm n c)) (top_edge (cnv n m))).

(** Label [i] of [m] is inside the axes, below the next one, as far from
    the bottom as its mirror image is from the top, and at the middle of
    its band. *)
Definition label_fits (m i : nat) : bool :=
  PrimFloat.ltb 0 (label_y m i)
  && PrimFloat.ltb (label_y m i) 1
  && (if (S i <? m)%nat then PrimFloat.ltb (label_y m i) (label_y m (S i)) else true)
  && near (label_y m i + label_y m (m - 1 - i)%nat) 1
  && near (label_y m i) ((2 * count i + 1) / (2 * count m)).

End Layout.

(** *** Reports of the two loops *)

Module Reporting.

Import Assoc.

(** The values of feature [c] cluster by cluster, clusters 1 to [K]. *)
Definition groups (Raw : ndarray2) (Labels : list Z) (c K : nat)
  : list (list NpFloat.t) :=
  map (fun k =>
         map snd (filter (fun lv => Z.eqb (fst lv) (1 + Z.of_nat k))
                         (Table.samples Raw Labels c)))
      (seq 0 K).

(** The rank test of feature [c] over the [K] clusters. *)
Definition cnv_p (kruskalwallis : list (list NpFloat.t) -> result NpFloat.t)
  (Raw : ndarray2) (Labels : list Z) (K c : nat) : result NpFloat.t :=
  kruskalwallis (groups Raw Labels c K).

(** A test that gave a p-value below [Tau]. *)
Definition below (Tau : NpFloat.t) (r : result NpFloat.t) : bool :=
  match r with
  | Ok pv => NpFloat.ltb pv Tau
  | Raise _ => false
  end.

(** The data set without the samples whose label is zero or negative. *)
Definition labelled (Raw : ndarray2) (Labels : list Z) : ndarray2 * list Z :=
  let kept := filter (fun lr => (1 <=? fst lr)%Z) (combine Labels (rows Raw)) in
  ({| n_rows := length kept; n_cols := n_cols Raw; rows := map snd kept |},
   map fst kept).

(** A cluster count for which the copy-number loop has a branch. *)
Definition in_range (K : nat) : Prop :=
  K = 2 \/ K = 3 \/ K = 4 \/ K = 5.

(** [l1] is [l2] with some entries left out. *)
Inductive subseq {A : Type} : list A -> list A -> Prop :=
| subseq_nil : subseq [] []
| subseq_skip (x : A) (l1 l2 : list A) : subseq l1 l2 -> subseq l1 (x :: l2)
| subseq_keep (x : A) (l1 l2 : list A) :
    subseq l1 l2 -> subseq (x :: l1) (x :: l2).

End Reporting.

(** ** Sample data *)

Module Demo.

(** Stand-ins for the two SciPy routines in the worked examples: a
    function of the statistic that decreases from 1 and keeps NaN, and a
    rank test that reports one half. *)
Definition sf (stat : NpFloat.t) (df : Z) : NpFloat.t :=
  if NpFloat.is_nan stat then NpFloat.NaN
  else NpFloat.div NpFloat.one
                   (NpFloat.add NpFloat.one (NpFloat.mul stat stat)).

Definition rank_test (groups : list (list NpFloat.t)) : result NpFloat.t :=
  Ok (NpFloat.Fin (1 # 2)).

Definition array (values : list (list Z)) (cols : nat) : ndarray2 :=
  {| n_rows := length values;
     n_cols := cols;
     rows := map (map NpFloat.of_Z) values |}.

(** Eight samples in two clusters; feature 0 is a mutation carried by
    cluster 2 only, feature 1 a copy number, feature 2 a mutation nobody
    carries. *)
Definition Raw8 : ndarray2 :=
  array [[0; 3; 0]; [0; 1; 0]; [0; 2; 0]; [0; 2; 0];
         [1; 5; 0]; [1; 4; 0]; [1; 6; 0]; [1; 4; 0]]%Z 3.

Definition Labels8 : list Z := [1; 1; 1; 1; 2; 2; 2; 2]%Z.

Definition Symbols8 : list string :=
  ["TP53_Mut"; "EGFR_CNV"; "IDH1_Mut"]%string.

(** [Tau = 0.05] *)
Definition Tau : NpFloat.t := NpFloat.Fin (1 # 20).

(** Five samples of one mutation feature, with a 2 and a NaN among the
    values. *)
Definition RawOdd : ndarray2 :=
  {| n_rows := 5;
     n_cols := 1;
     rows := [[NpFloat.zero]; [NpFloat.one]; [NpFloat.of_Z 2];
              [NpFloat.NaN]; [NpFloat.one]] |}.

Definition LabelsOdd : list Z := [1; 1; 2; 2; 2]%Z.

(** Nine samples of one mutation feature in three clusters: cluster 1
    without the mutation, cluster 2 with it, and the only sample of
    cluster 3 with a value of 2. *)
Definition RawDrop : ndarray2 :=
  array [[0]; [0]; [0]; [0]; [1]; [1]; [1]; [1]; [2]]%Z 1.
Definition LabelsDrop : list Z := [1; 1; 1; 1; 2; 2; 2; 2; 3]%Z.
Definition SymbolsDrop : list string := ["TP53_Mut"%string].

(** Five samples for the shuffle loop, and a generator that reverses on
    even seeds. *)
Definition Data5 : Shuffle.dataset :=
  {| Shuffle.X := map (fun z => [NpFloat.of_Z z]) [1; 2; 3; 4; 5]%Z;
     Shuffle.T := map NpFloat.of_Z [5; 3; 8; 1; 9]%Z;
     Shuffle.O := [1; 0; 1; 1; 0]%Z |}.

Definition draw (seed : nat) (l : list nat) : list nat :=
  if Nat.even seed then rev l else l.

(** One sample with the same gradient for eighteen features. *)
Definition Gradients18 : ndarray2 := array [repeat 1%Z 18] 18.

(** Stand-ins for [np.mean] in the worked examples: the exact mean, and
    the exact mean that hands a single value back as it is. *)
Definition mean (column : list NpFloat.t) : NpFloat.t :=
  NpFloat.div (NpFloat.sum column) (NpFloat.of_nat (length column)).

Definition mean_kept (column : list NpFloat.t) : NpFloat.t :=
  match column with
  | [x] => x
  | _ => mean column
  end.

(** Two samples in a single cluster, one copy-number feature. *)
Definition RawOne : ndarray2 := array [[0]; [0]]%Z 1.
Definition LabelsOne : list Z := [1; 1]%Z.
Definition SymbolsOne : list string := ["EGFR_CNV"%string].

(** Eight samples in two clusters and one feature, carried by cluster 2
    only, whose symbol is the bare tag. *)
Definition RawBare : ndarray2 :=
  array [[0]; [0]; [0]; [0]; [1]; [1]; [1]; [1]]%Z 1.
Definition SymbolsBare : list string := ["Mut"%string].

(** Twenty-four samples, four in each of six clusters; feature 0 is a
    copy number that is the same in every sample, feature 1 a mutation
    carried by clusters 4 to 6. *)
Definition Labels24 : list Z :=
  flat_map (fun l => repeat l 4) [1; 2; 3; 4; 5; 6]%Z.
Definition Raw24 : ndarray2 :=
  array (map (fun l => [0; if 4 <=? l then 1 else 0])%Z Labels24) 2.
Definition Symbols24 : list string := ["EGFR_CNV"; "TP53_Mut"]%string.

(** A rank test that refuses values that are all the same, as SciPy's
    does, and reports one half otherwise. *)
Definition rank_test_strict (groups : list (list NpFloat.t))
  : result NpFloat.t :=
  match concat groups with
  | [] => Raise ValueError
  | x :: xs =>
      if forallb (NpFloat.eqb x) xs then Raise ValueError
      else Ok (NpFloat.Fin (1 # 2))
  end.

(** Eight samples in two clusters; feature 0 is a copy number that is the
    same in every sample, feature 1 a mutation carried by cluster 2. *)
Definition RawFlat : ndarray2 :=
  array (map (fun l => [0; if 2 <=? l then 1 else 0])%Z Labels8) 2.

(** A threshold above one half. *)
Definition TauWide : NpFloat.t := NpFloat.Fin (3 # 5).

(** A file of two samples under a header, and the same file with an
    empty line at its end. *)
Definition nl : string := String Csv.newline EmptyString.
Definition Whas : string :=
  ("age,bmi,time,censor" ++ nl ++ "63,28.1,5,1" ++ nl ++ "71,30.2,12,0" ++ nl)%string.
Definition WhasBlank : string := (Whas ++ nl)%string.

End Demo.

(** * Properties *)

(** ** Lists *)

Module ListFacts.

Lemma nth_map_in {A B : Type} (f : A -> B) (l : list A) (d : A) (d' : B)
  (i : nat) :
  i < length l -> nth i (map f l) d' = f (nth i l d).
Proof.
  intros Hi. rewrite (nth_indep _ d' (f d)) by now rewrite length_map.
  apply map_nth.
Qed.

Lemma map_as_seq {A B : Type} (f : A -> B) (l : list A) (d : A) :
  map f l = map (fun j => f (nth j l d)) (seq 0 (length l)).
Proof.
  induction l as [|a l IH]; simpl; trivial.
  f_equal. rewrite IH, <- seq_shift, map_map. reflexivity.
Qed.

Lemma list_sum_zero (l : list nat) :
  list_sum l = 0 -> forall j, nth j l 0 = 0.
Proof.
  induction l as [|a l IH]; simpl; intros H j.
  - now destruct j.
  - destruct j; [lia|]. apply IH. lia.
Qed.

Lemma nth_combine_sum (a b : list nat) (j : nat) :
  length a = length b ->
  nth j (map (fun ab => fst ab + snd ab) (combine a b)) 0
  = nth j a 0 + nth j b 0.
Proof.
  revert b j. induction a as [|x a IH]; intros [|y b] j H; try discriminate.
  - now destruct j.
  - simpl in H. destruct j; simpl; trivial. apply IH. lia.
Qed.

Lemma combine_app {A B : Type} (a a' : list A) (b b' : list B) :
  length a = length b ->
  combine (a ++ a') (b ++ b') = combine a b ++ combine a' b'.
Proof.
  revert b. induction a as [|x a IH]; intros [|y b] H; try discriminate;
    simpl; trivial.
  f_equal. apply IH. simpl in H. lia.
Qed.

End ListFacts.

(** ** Comparisons and NaN *)

Module NpFloatFacts.

Import NpFloat.

Lemma ltb_irrefl (x : t) : ltb x x = false.
Proof.
  destruct x as [| | |q]; simpl; trivial.
  apply negb_false_iff, Qle_bool_iff, Qle_refl.
Qed.

Lemma eqb_not_ltb (x y : t) : eqb x y = true -> ltb x y = false.
Proof.
  destruct x as [| | |a], y as [| | |b]; simpl; trivial; try discriminate.
  intros H. apply Qeq_bool_iff in H.
  apply negb_false_iff, Qle_bool_iff. rewrite H. apply Qle_refl.
Qed.

Lemma eqb_sym (x y : t) : eqb x y = eqb y x.
Proof.
  destruct x as [| | |a], y as [| | |b]; simpl; trivial.
  destruct (Qeq_bool a b) eqn:E, (Qeq_bool b a) eqn:E'; trivial.
  - apply Qeq_bool_iff in E. symmetry in E. apply Qeq_bool_iff in E. congruence.
  - apply Qeq_bool_iff in E'. symmetry in E'. apply Qeq_bool_iff in E'. congruence.
Qed.

Lemma ltb_nan_l (y : t) : ltb NaN y = false.
Proof. reflexivity. Qed.

Lemma add_nan_l (y : t) : add NaN y = NaN.
Proof. reflexivity. Qed.

Lemma add_nan_r (x : t) : add x NaN = NaN.
Proof. destruct x; reflexivity. Qed.

Lemma fold_add_nan (l : list t) : fold_left add l NaN = NaN.
Proof. induction l as [|x l IH]; simpl; trivial. Qed.

Lemma fold_add_In_nan (l : list t) :
  In NaN l -> forall acc, fold_left add l acc = NaN.
Proof.
  induction l as [|x l IH]; simpl; [tauto|].
  intros [->|Hin] acc.
  - rewrite add_nan_r. apply fold_add_nan.
  - now apply IH.
Qed.

(** A sum with a NaN among its terms is NaN. *)
Lemma sum_In_nan (l : list t) : In NaN l -> sum l = NaN.
Proof. intros H. unfold sum. now apply fold_add_In_nan. Qed.

Lemma sort_leb_refl (x : t) : sort_leb x x = true.
Proof.
  destruct x as [| | |q]; simpl; trivial.
  apply Qle_bool_iff, Qle_refl.
Qed.

Lemma sort_leb_total (x y : t) : sort_leb x y = false -> sort_leb y x = true.
Proof.
  destruct x as [| | |a], y as [| | |b]; simpl; trivial; try discriminate.
  intros H. apply Qle_bool_iff.
  destruct (Qlt_le_dec b a) as [Hlt|Hle].
  - now apply Qlt_le_weak.
  - apply Qle_bool_iff in Hle. congruence.
Qed.

Lemma sort_leb_trans (x y z : t) :
  sort_leb x y = true -> sort_leb y z = true -> sort_leb x z = true.
Proof.
  destruct x as [| | |a], y as [| | |b], z as [| | |c]; simpl; trivial;
    try discriminate.
  intros H1 H2. apply Qle_bool_iff in H1, H2. apply Qle_bool_iff.
  eapply Qle_trans; eassumption.
Qed.

(** No value compares equal to both zero and one. *)
Lemma eqb_zero_one (x : t) : eqb x zero = true -> eqb x one = false.
Proof.
  destruct x as [| | |q]; simpl; trivial.
  intros H0. apply Qeq_bool_iff in H0.
  destruct (Qeq_bool q (inject_Z 1)) eqn:E; trivial.
  apply Qeq_bool_iff in E. rewrite H0 in E. discriminate.
Qed.

End NpFloatFacts.

(** ** The risk-set matrix *)

Module RiskSetFacts.

Import RiskSet.

Lemma entry_map (T : list NpFloat.t) (i j : nat) :
  i < length T -> j < length T ->
  entry (map (fun ti => map (fun tj => NpFloat.gtb tj ti) T) T) i j
  = NpFloat.gtb (nth j T NpFloat.NaN) (nth i T NpFloat.NaN).
Proof.
  intros Hi Hj. unfold entry.
  rewrite (ListFacts.nth_map_in _ T NpFloat.NaN [] Hi).
  apply (ListFacts.nth_map_in
           (fun tj => NpFloat.gtb tj (nth i T NpFloat.NaN)) T NpFloat.NaN false Hj).
Qed.

(** C1. For arrays of one length [n], [calc_at_risk] returns its
    arguments and an n-by-n matrix [A] with [A[i][j] = 1] exactly when
    [T[j] > T[i]]; the diagonal is 0, and both [A[i][j]] and [A[j][i]]
    are 0 when [T[i] == T[j]]. *)
Theorem calc_at_risk_matrix :
  forall (X : list (list NpFloat.t)) (T : list NpFloat.t) (O : list Z),
    length X = length T -> length O = length T ->
    exists A,
      calc_at_risk X T O = Ok (X, T, O, A) /\
      length A = length T /\
      Forall (fun row => length row = length T) A /\
      forall i j, i < length T -> j < length T ->
        (entry A i j = true <->
         NpFloat.gtb (nth j T NpFloat.NaN) (nth i T NpFloat.NaN) = true) /\
        entry A i i = false /\
        (NpFloat.eqb (nth i T NpFloat.NaN) (nth j T NpFloat.NaN) = true ->
         entry A i j = false /\ entry A j i = false).
Proof.
  intros X T O HX HO.
  exists (map (fun ti => map (fun tj => NpFloat.gtb tj ti) T) T).
  split; [|split; [|split]].
  - unfold calc_at_risk. rewrite HX, HO, Nat.eqb_refl. reflexivity.
  - apply length_map.
  - apply Forall_forall. intros row Hrow.
    apply in_map_iff in Hrow as [ti [<- _]]. apply length_map.
  - intros i j Hi Hj. rewrite !entry_map by assumption.
    split; [tauto|]. split.
    + apply NpFloatFacts.ltb_irrefl.
    + intros Heq. unfold NpFloat.gtb. split.
      * apply NpFloatFacts.eqb_not_ltb. assumption.
      * apply NpFloatFacts.eqb_not_ltb. now rewrite NpFloatFacts.eqb_sym.
Qed.

Lemma calc_at_risk_matrix_witness :
  exists A,
    calc_at_risk [[NpFloat.one]; [NpFloat.zero]; [NpFloat.one]]
                 [NpFloat.of_Z 5; NpFloat.of_Z 3; NpFloat.of_Z 5]
                 [1; 0; 1]%Z
    = Ok ([[NpFloat.one]; [NpFloat.zero]; [NpFloat.one]],
          [NpFloat.of_Z 5; NpFloat.of_Z 3; NpFloat.of_Z 5], [1; 0; 1]%Z, A) /\
    length A = 3 /\
    Forall (fun row => length row = 3) A /\
    forall i j, i < 3 -> j < 3 ->
      (entry A i j = true <->
       NpFloat.gtb (nth j [NpFloat.of_Z 5; NpFloat.of_Z 3; NpFloat.of_Z 5] NpFloat.NaN)
                   (nth i [NpFloat.of_Z 5; NpFloat.of_Z 3; NpFloat.of_Z 5] NpFloat.NaN)
       = true) /\
      entry A i i = false /\
      (NpFloat.eqb (nth i [NpFloat.of_Z 5; NpFloat.of_Z 3; NpFloat.of_Z 5] NpFloat.NaN)
                   (nth j [NpFloat.of_Z 5; NpFloat.of_Z 3; NpFloat.of_Z 5] NpFloat.NaN)
       = true ->
       entry A i j = false /\ entry A j i = false).
Proof.
  apply (calc_at_risk_matrix
           [[NpFloat.one]; [NpFloat.zero]; [NpFloat.one]]
           [NpFloat.of_Z 5; NpFloat.of_Z 3; NpFloat.of_Z 5] [1; 0; 1]%Z);
    reflexivity.
Defined.

End RiskSetFacts.

(** ** The contingency table of a mutation feature *)

Module TableFacts.

Import Assoc Table.

Section Table.

Variable Raw : ndarray2.
Variable Labels : list Z.
Variable c : nat.

Local Abbreviation samples := (Table.samples Raw Labels c).
Local Abbreviation cell := (Table.cell Raw Labels c).
Local Abbreviation contingency := (Table.contingency Raw Labels c).

Hypothesis labels_rows : length Labels = n_rows Raw.
Hypothesis column_exists : c < n_cols Raw.

Lemma mask_column_ok (j : Z) :
  mask_column Raw Labels j c
  = Ok (map snd (filter (fun lv => Z.eqb (fst lv) j) samples)).
Proof.
  unfold mask_column. rewrite labels_rows, Nat.eqb_refl. simpl.
  apply Nat.ltb_lt in column_exists. rewrite column_exists. simpl.
  f_equal. unfold samples.
  induction (combine Labels (rows Raw)) as [|[l r] rest IH]; simpl; trivial.
  destruct (Z.eqb l j); simpl; now rewrite IH.
Qed.

Lemma count_eq_cell (v : NpFloat.t) (j : Z) :
  count_eq v (map snd (filter (fun lv => Z.eqb (fst lv) j) samples)) = cell v j.
Proof.
  unfold count_eq, cell.
  induction samples as [|[l x] rest IH]; simpl; trivial.
  destruct (Z.eqb l j); simpl; trivial.
  destruct (NpFloat.eqb x v); simpl; now rewrite IH.
Qed.

Lemma set_nth_app {A : Type} (pre : list A) (x v : A) (post : list A) :
  set_nth (pre ++ x :: post) (length pre) v = pre ++ v :: post.
Proof. induction pre as [|a pre IH]; simpl; trivial. now rewrite IH. Qed.

(** The loop invariant: the columns already visited hold their counts,
    the others are still zero. *)
Lemma fill_observed_from (r : nat) :
  forall (m : nat) (pre0 pre1 : list nat),
    length pre0 = m -> length pre1 = m ->
    fill_observed Raw Labels c
      (map (fun k => (1 + Z.of_nat k)%Z) (seq m r))
      [pre0 ++ repeat 0 r; pre1 ++ repeat 0 r]
    = Ok [pre0 ++ map (fun k => cell NpFloat.zero (1 + Z.of_nat k)) (seq m r);
          pre1 ++ map (fun k => cell NpFloat.one (1 + Z.of_nat k)) (seq m r)].
Proof.
  induction r as [|r IH]; intros m pre0 pre1 H0 H1;
    cbn [seq map repeat fill_observed]; trivial.
  rewrite !mask_column_ok. cbn [bind]. rewrite !count_eq_cell.
  replace (Z.to_nat (1 + Z.of_nat m - 1)) with m by lia.
  unfold set_item. cbn [nth set_nth]. subst m.
  rewrite set_nth_app. rewrite <- H1. rewrite set_nth_app. rewrite H1.
  specialize (IH (S (length pre0))
                 (pre0 ++ [cell NpFloat.zero (1 + Z.of_nat (length pre0))])
                 (pre1 ++ [cell NpFloat.one (1 + Z.of_nat (length pre0))])).
  rewrite <- !app_assoc in IH. cbn [app] in IH.
  apply IH; rewrite length_app; cbn [length]; lia.
Qed.

(** The loop builds the table of counts. *)
Lemma observed_table_spec (K : nat) :
  observed_table Raw Labels c (Z.of_nat K) = Ok (contingency K).
Proof.
  unfold observed_table, np_zeros2.
  destruct (Z.ltb_spec (Z.of_nat K) 0) as [Hneg|_]; [lia|]. simpl.
  unfold arange.
  replace (Z.to_nat (Z.of_nat K + 1 - 1)) with K by lia.
  rewrite Nat2Z.id.
  apply (@fill_observed_from K 0 [] []); reflexivity.
Qed.

End Table.

(** *** Marginals and expected counts *)

Section TwoRows.

Variables r0 r1 : list nat.
Hypothesis same_length : length r0 = length r1.

Lemma sum_all_two : sum_all [r0; r1] = total [r0; r1].
Proof.
  unfold sum_all, total. simpl. rewrite app_nil_r, list_sum_app. lia.
Qed.

Lemma RowSum_length : length (sum_axis0 [r0; r1]) = length r0.
Proof.
  simpl. rewrite length_map, length_combine. lia.
Qed.

Lemma RowSum_nth (j : nat) :
  nth j (sum_axis0 [r0; r1]) 0 = col_marginal [r0; r1] j.
Proof.
  unfold col_marginal. simpl.
  rewrite ListFacts.nth_combine_sum by assumption. lia.
Qed.

(** numpy's expression is the table of expected counts. *)
Lemma expected_two :
  expected [r0; r1] = expected_table [r0; r1] (length r0).
Proof.
  unfold expected, expected_table, outer. cbn [seq map sum_axis1].
  rewrite sum_all_two.
  rewrite !map_map.
  rewrite !(ListFacts.map_as_seq _ (sum_axis0 [r0; r1]) 0).
  rewrite RowSum_length.
  f_equal; [|f_equal]; apply map_ext; intros j; rewrite RowSum_nth;
    reflexivity.
Qed.

End TwoRows.

Lemma contingency_rows (Raw : ndarray2) (Labels : list Z) (c K : nat) :
  exists r0 r1,
    contingency Raw Labels c K = [r0; r1] /\ length r0 = K /\ length r1 = K.
Proof.
  eexists _, _. split; [reflexivity|].
  split; now rewrite length_map, length_seq.
Qed.

Lemma expected_contingency (Raw : ndarray2) (Labels : list Z) (c K : nat) :
  expected (contingency Raw Labels c K)
  = expected_table (contingency Raw Labels c K) K.
Proof.
  destruct (contingency_rows Raw Labels c K) as (r0 & r1 & -> & H0 & H1).
  rewrite <- H0. apply expected_two. congruence.
Qed.

End TableFacts.

(** ** ClusterAssociations *)

Module AssocFacts.

Import Assoc Table TableFacts.

Lemma indices_with_filter_from (tag : string) (l : list string) :
  forall s,
    map fst (filter (fun ix => String.eqb (snd ix) tag)
                    (combine (seq s (length l)) l))
    = filter (fun c => String.eqb (nth (c - s) l EmptyString) tag)
             (seq s (length l)).
Proof.
  induction l as [|a l IH]; intros s; [reflexivity|].
  cbn [length seq combine filter snd].
  rewrite Nat.sub_diag. cbn [nth].
  assert (Htail :
    filter (fun c => String.eqb (nth (c - S s) l EmptyString) tag)
           (seq (S s) (length l))
    = filter (fun c => String.eqb (nth (c - s) (a :: l) EmptyString) tag)
             (seq (S s) (length l))).
  { apply filter_ext_in. intros c Hc. apply in_seq in Hc.
    replace (c - s) with (S (c - S s)) by lia. reflexivity. }
  destruct (String.eqb a tag); cbn [map fst]; rewrite IH, Htail; reflexivity.
Qed.

(** The features of one type: the indices whose suffix is the tag, in
    ascending order. *)
Lemma indices_with_filter (tag : string) (l : list string) :
  indices_with tag l
  = filter (fun c => String.eqb (nth c l EmptyString) tag) (seq 0 (length l)).
Proof.
  unfold indices_with, enumerate. rewrite indices_with_filter_from.
  apply filter_ext. intros c. now rewrite Nat.sub_0_r.
Qed.

Lemma In_indices_with (tag : string) (Symbols : list string) (c : nat) :
  In c (indices_with tag (map Suffix_of Symbols)) <->
  c < length Symbols /\ Suffix_of (nth c Symbols EmptyString) = tag.
Proof.
  rewrite indices_with_filter, filter_In, in_seq, length_map.
  split.
  - intros [Hc He]. split; [lia|].
    apply String.eqb_eq in He. rewrite <- He.
    symmetry. apply ListFacts.nth_map_in. lia.
  - intros [Hc He]. split; [lia|].
    apply String.eqb_eq. rewrite <- He.
    apply ListFacts.nth_map_in. lia.
Qed.

Section Loops.

Variable chi2_sf : NpFloat.t -> Z -> NpFloat.t.
Variable kruskalwallis : list (list NpFloat.t) -> result NpFloat.t.
Variable Raw : ndarray2.
Variable Symbols : list string.
Variable Labels : list Z.
Variable Tau : NpFloat.t.
Variable K : nat.

Local Abbreviation mutation_p := (Table.mutation_p chi2_sf Raw Labels K).
Local Abbreviation symbol := (Table.symbol Symbols).

Hypothesis labels_rows : length Labels = n_rows Raw.
Hypothesis max_label : np_max Labels = Ok (Z.of_nat K).

Lemma mutation_test_ok (c : nat) :
  c < n_cols Raw ->
  mutation_test chi2_sf Raw Labels c
  = Ok (chisquare chi2_sf
          (to_float (contingency Raw Labels c K))
          (expected_table (contingency Raw Labels c K) K) 1).
Proof.
  intros Hc. unfold mutation_test. rewrite max_label. cbn [bind].
  rewrite (@observed_table_spec Raw Labels c labels_rows Hc). cbn [bind].
  now rewrite expected_contingency.
Qed.

Lemma mutation_body_ok (c : nat) (st : locals) :
  c < n_cols Raw ->
  mutation_body chi2_sf Raw Symbols Labels Tau c st
  = Ok (report Symbols Tau c (mutation_p c) st).
Proof.
  intros Hc. unfold mutation_body. rewrite (mutation_test_ok Hc). reflexivity.
Qed.

(** The mutation loop appends, in order, the symbols of the features it
    finds significant. *)
Lemma mutation_for_each (cs : list nat) :
  (forall c, In c cs -> c < n_cols Raw) ->
  forall st, exists pv,
    for_each (mutation_body chi2_sf Raw Symbols Labels Tau) cs st
    = Ok {| Significant :=
              Significant st
              ++ map symbol (filter (fun c => NpFloat.ltb (mutation_p c) Tau) cs);
            p := pv |}.
Proof.
  induction cs as [|c cs IH]; intros Hcs st.
  - exists (p st). simpl. rewrite app_nil_r. now destruct st.
  - cbn [for_each]. rewrite mutation_body_ok by (apply Hcs; now left).
    cbn [bind].
    destruct (IH (fun c' H => Hcs c' (or_intror H))
                 (report Symbols Tau c (mutation_p c) st)) as [pv Hpv].
    exists pv. rewrite Hpv. f_equal. f_equal.
    unfold report. cbn [Significant filter].
    destruct (NpFloat.ltb (mutation_p c) Tau); cbn [map]; trivial.
    now rewrite <- app_assoc.
Qed.

Lemma cnv_branches_sig (k : Z) (c : nat) (st st' : locals) :
  cnv_branches kruskalwallis Raw Labels k c st = Ok st' ->
  Significant st' = Significant st.
Proof.
  unfold cnv_branches. intros H.
  repeat match type of H with
         | (if ?b then _ else _) = _ => destruct b
         end;
    repeat step_bind; try discriminate; inversion H; reflexivity.
Qed.

Lemma cnv_body_sig (c : nat) (st st' : locals) :
  cnv_body kruskalwallis Raw Symbols Labels Tau c st = Ok st' ->
  Significant st' = Significant st \/
  Significant st' = Significant st ++ [symbol c].
Proof.
  unfold cnv_body. intros H. rewrite max_label in H. cbn [bind] in H.
  step_bind; [|discriminate].
  apply cnv_branches_sig in E.
  destruct (p a); [|discriminate]. inversion H. unfold report.
  cbn [Significant]. rewrite E.
  destruct (NpFloat.ltb t Tau); [right|left]; reflexivity.
Qed.

(** The copy-number loop only appends symbols of the features it visits. *)
Lemma cnv_for_each (cs : list nat) :
  forall st st',
    for_each (cnv_body kruskalwallis Raw Symbols Labels Tau) cs st = Ok st' ->
    exists extra,
      Significant st' = Significant st ++ extra /\
      Forall (fun s => exists c, In c cs /\ s = symbol c) extra.
Proof.
  induction cs as [|c cs IH]; intros st st' H.
  - inversion H. exists []. rewrite app_nil_r. auto.
  - cbn [for_each] in H. step_bind; [|discriminate].
    apply IH in H as (extra & Hsig & Hall).
    assert (Hweak : Forall (fun s => exists c', In c' (c :: cs) /\ s = symbol c') extra).
    { eapply Forall_impl; [|exact Hall].
      intros s (c' & Hin & ->). exists c'. split; [now right|reflexivity]. }
    apply cnv_body_sig in E as [E|E]; rewrite Hsig, E.
    + exists extra. auto.
    + exists (symbol c :: extra). rewrite <- app_assoc. split; [reflexivity|].
      constructor; [|assumption]. exists c. split; [now left|reflexivity].
Qed.

End Loops.

(** C3. For each mutation feature, in ascending index order, the loop
    builds the 2-by-K table of the counts of zeros and of ones per
    cluster ([K] the largest label), takes the expected counts to be the
    products of the row and column marginals over the table total, runs
    the chi-square test with [ddof = 1], and appends the feature's symbol
    exactly when the p-value is below [Tau].  What the copy-number loop
    adds afterwards are symbols of copy-number features. *)
Theorem mutation_reporting :
  forall (chi2_sf : NpFloat.t -> Z -> NpFloat.t)
         (kruskalwallis : list (list NpFloat.t) -> result NpFloat.t)
         (Raw : ndarray2) (Symbols : list string) (Labels : list Z)
         (Tau : NpFloat.t) (K : nat),
    length Labels = n_rows Raw ->
    length Symbols <= n_cols Raw ->
    np_max Labels = Ok (Z.of_nat K) ->
    exists st,
      mutation_loop chi2_sf Raw Symbols Labels Tau
                    {| Significant := []; p := None |} = Ok st /\
      Significant st
      = map (symbol Symbols)
            (filter (fun c => NpFloat.ltb (mutation_p chi2_sf Raw Labels K c) Tau)
                    (Mutations Symbols)) /\
      (forall c, In c (Mutations Symbols) <->
                 c < length Symbols /\ Suffix_of (symbol Symbols c) = "Mut"%string) /\
      forall sig,
        ClusterAssociations chi2_sf kruskalwallis Raw Symbols Labels Tau = Ok sig ->
        exists cnv,
          sig = Significant st ++ cnv /\
          Forall (fun s => exists c, In c (CNVs Symbols) /\ s = symbol Symbols c) cnv.
Proof.
  intros chi2_sf kruskalwallis Raw Symbols Labels Tau K Hrows Hcols Hmax.
  assert (Hvalid : forall c, In c (Mutations Symbols) -> c < n_cols Raw).
  { intros c Hc. apply In_indices_with in Hc. lia. }
  destruct (@mutation_for_each chi2_sf Raw Symbols Labels Tau K Hrows Hmax
              (Mutations Symbols) Hvalid {| Significant := []; p := None |})
    as [pv Hloop].
  eexists. split; [exact Hloop|]. split; [reflexivity|]. split.
  - intros c. apply In_indices_with.
  - intros sig Hsig. unfold ClusterAssociations in Hsig.
    unfold mutation_loop in Hsig. rewrite Hloop in Hsig. cbn [bind] in Hsig.
    unfold cnv_loop in Hsig. step_bind; [|discriminate].
    apply (@cnv_for_each kruskalwallis Raw Symbols Labels Tau K Hmax)
      in E as (cnv & Hcnv & Hall).
    exists cnv. inversion Hsig. split; assumption.
Qed.

Lemma mutation_reporting_witness :
  exists st,
    mutation_loop Demo.sf Demo.Raw8 Demo.Symbols8 Demo.Labels8 Demo.Tau
                  {| Significant := []; p := None |} = Ok st /\
    Significant st = ["TP53_Mut"%string] /\
    ClusterAssociations Demo.sf Demo.rank_test Demo.Raw8 Demo.Symbols8
                        Demo.Labels8 Demo.Tau
    = Ok (Significant st ++ []).
Proof.
  destruct (mutation_reporting Demo.sf Demo.rank_test Demo.Raw8 Demo.Symbols8
              Demo.Labels8 Demo.Tau 2 eq_refl (le_n 3) eq_refl)
    as (st & Hloop & Hsig & _ & _).
  exists st. split; [exact Hloop|]. split.
  - rewrite Hsig. vm_compute. reflexivity.
  - rewrite Hsig. vm_compute. reflexivity.
Defined.

End AssocFacts.

(** ** Degenerate tables *)

Module DegenerateFacts.

Import Assoc Table TableFacts AssocFacts.

(** [0/0] inside Pearson's term: an empty cell whose expected count has
    a zero numerator contributes NaN, whatever the table total. *)
Lemma chi_term_empty_cell (t : nat) :
  chi_term (NpFloat.of_nat 0)
           (NpFloat.div (NpFloat.of_nat 0) (NpFloat.of_nat t))
  = NpFloat.NaN.
Proof. destruct t; reflexivity. Qed.

Lemma expected_empty_cell (t : nat) :
  NpFloat.div (NpFloat.of_nat 0) (NpFloat.of_nat t) = NpFloat.NaN \/
  NpFloat.eqb (NpFloat.div (NpFloat.of_nat 0) (NpFloat.of_nat t)) NpFloat.zero
  = true.
Proof. destruct t; [left|right]; reflexivity. Qed.

Section Cells.

Variables r0 r1 : list nat.
Variable K : nat.
Hypothesis length_r0 : length r0 = K.
Hypothesis length_r1 : length r1 = K.

(** Every cell of the table has its term in the statistic. *)
Lemma chi_terms_cell (r j : nat) :
  r < 2 -> j < K ->
  In (chi_term (NpFloat.of_nat (nth j (nth r [r0; r1] []) 0))
               (expected_count [r0; r1] r j))
     (chi_terms (to_float [r0; r1]) (expected_table [r0; r1] K)).
Proof.
  intros Hr Hj. unfold chi_terms, to_float, expected_table.
  cbn [map seq concat]. rewrite !app_nil_r.
  rewrite ListFacts.combine_app
    by (now rewrite !length_map, length_seq).
  rewrite map_app, in_app_iff.
  assert (Hrow : forall row i,
    length row = K ->
    In (chi_term (NpFloat.of_nat (nth j row 0)) (expected_count [r0; r1] i j))
       (map (fun oe => chi_term (fst oe) (snd oe))
            (combine (map NpFloat.of_nat row)
                     (map (fun j' => expected_count [r0; r1] i j') (seq 0 K))))).
  { intros row i Hlen.
    apply in_map_iff.
    exists (NpFloat.of_nat (nth j row 0), expected_count [r0; r1] i j).
    split; [reflexivity|].
    replace (NpFloat.of_nat (nth j row 0), expected_count [r0; r1] i j)
      with (nth j (combine (map NpFloat.of_nat row)
                           (map (fun j' => expected_count [r0; r1] i j') (seq 0 K)))
                (NpFloat.of_nat 0, expected_count [r0; r1] i 0)).
    - apply nth_In. rewrite length_combine, !length_map, length_seq. lia.
    - rewrite combine_nth by now rewrite !length_map, length_seq.
      rewrite (map_nth NpFloat.of_nat).
      rewrite (map_nth (fun j' => expected_count [r0; r1] i j')).
      now rewrite seq_nth. }
  destruct r as [|[|r]]; [left|right|lia]; cbn [nth]; now apply Hrow.
Qed.

(** A zero marginal leaves a NaN among the terms. *)
Lemma zero_marginal_nan_term :
  1 <= K ->
  (exists r, r < 2 /\ row_marginal [r0; r1] r = 0) \/
  (exists j, j < K /\ col_marginal [r0; r1] j = 0) ->
  In NpFloat.NaN (chi_terms (to_float [r0; r1]) (expected_table [r0; r1] K)).
Proof.
  intros HK [(r & Hr & Hzero)|(j & Hj & Hzero)].
  - assert (Hcell := @chi_terms_cell r 0 Hr HK).
    unfold row_marginal in Hzero.
    rewrite (ListFacts.list_sum_zero _ Hzero) in Hcell.
    unfold expected_count, row_marginal in Hcell.
    rewrite Hzero, Nat.mul_0_l, chi_term_empty_cell in Hcell. exact Hcell.
  - assert (Hcell := @chi_terms_cell 0 j (Nat.lt_0_2) Hj).
    assert (Hobs : nth j r0 0 = 0).
    { unfold col_marginal in Hzero. simpl in Hzero. lia. }
    cbn [nth] in Hcell. rewrite Hobs in Hcell.
    unfold expected_count in Hcell.
    rewrite Hzero, Nat.mul_0_r, chi_term_empty_cell in Hcell. exact Hcell.
Qed.

(** ... and a degenerate expected count in the table. *)
Lemma zero_marginal_expected :
  1 <= K ->
  (exists r, r < 2 /\ row_marginal [r0; r1] r = 0) \/
  (exists j, j < K /\ col_marginal [r0; r1] j = 0) ->
  exists r j, r < 2 /\ j < K /\
    (expected_count [r0; r1] r j = NpFloat.NaN \/
     NpFloat.eqb (expected_count [r0; r1] r j) NpFloat.zero = true).
Proof.
  intros HK [(r & Hr & Hzero)|(j & Hj & Hzero)].
  - exists r, 0. split; [assumption|]. split; [lia|].
    unfold expected_count. rewrite Hzero, Nat.mul_0_l.
    apply expected_empty_cell.
  - exists 0, j. split; [lia|]. split; [assumption|].
    unfold expected_count. rewrite Hzero, Nat.mul_0_r.
    apply expected_empty_cell.
Qed.

End Cells.

(** C6. When a row or a column marginal of a mutation feature's table is
    zero, an expected count is zero or NaN, the division inside the
    statistic yields NaN, the p-value is NaN, the test raises nothing,
    and the feature is not reported: [Significant] is left as it was. *)
Theorem zero_marginal_not_significant :
  forall (chi2_sf : NpFloat.t -> Z -> NpFloat.t)
         (Raw : ndarray2) (Symbols : list string) (Labels : list Z)
         (Tau : NpFloat.t) (K c : nat) (st : locals),
    (forall df, chi2_sf NpFloat.NaN df = NpFloat.NaN) ->
    length Labels = n_rows Raw ->
    c < n_cols Raw ->
    np_max Labels = Ok (Z.of_nat K) ->
    1 <= K ->
    (exists r, r < 2 /\ row_marginal (contingency Raw Labels c K) r = 0) \/
    (exists j, j < K /\ col_marginal (contingency Raw Labels c K) j = 0) ->
    (exists r j, r < 2 /\ j < K /\
       (expected_count (contingency Raw Labels c K) r j = NpFloat.NaN \/
        NpFloat.eqb (expected_count (contingency Raw Labels c K) r j)
                    NpFloat.zero = true)) /\
    mutation_test chi2_sf Raw Labels c = Ok (NpFloat.NaN, NpFloat.NaN) /\
    mutation_body chi2_sf Raw Symbols Labels Tau c st
    = Ok {| Significant := Significant st; p := Some NpFloat.NaN |}.
Proof.
  intros chi2_sf Raw Symbols Labels Tau K c st Hsf Hrows Hc Hmax HK Hzero.
  destruct (contingency_rows Raw Labels c K) as (r0 & r1 & Htab & H0 & H1).
  rewrite Htab in Hzero |- *.
  assert (Hstat :
    chisquare chi2_sf (to_float [r0; r1]) (expected_table [r0; r1] K) 1
    = (NpFloat.NaN, NpFloat.NaN)).
  { unfold chisquare.
    rewrite (NpFloatFacts.sum_In_nan _
               (@zero_marginal_nan_term r0 r1 K H0 H1 HK Hzero)).
    now rewrite Hsf. }
  split; [now apply (@zero_marginal_expected r0 r1 K)|].
  assert (Htest : mutation_test chi2_sf Raw Labels c
                  = Ok (NpFloat.NaN, NpFloat.NaN)).
  { rewrite (@mutation_test_ok chi2_sf Raw Labels K Hrows Hmax c Hc).
    now rewrite Htab, Hstat. }
  split; [exact Htest|].
  unfold mutation_body. rewrite Htest. reflexivity.
Qed.

Lemma zero_marginal_not_significant_witness :
  mutation_test Demo.sf Demo.Raw8 Demo.Labels8 2
  = Ok (NpFloat.NaN, NpFloat.NaN) /\
  mutation_body Demo.sf Demo.Raw8 Demo.Symbols8 Demo.Labels8 Demo.Tau 2
                {| Significant := ["TP53_Mut"%string]; p := None |}
  = Ok {| Significant := ["TP53_Mut"%string]; p := Some NpFloat.NaN |}.
Proof.
  apply (@zero_marginal_not_significant Demo.sf Demo.Raw8 Demo.Symbols8
           Demo.Labels8 Demo.Tau 2 2
           {| Significant := ["TP53_Mut"%string]; p := None |}).
  - intros df. reflexivity.
  - reflexivity.
  - apply le_n.
  - reflexivity.
  - apply le_S, le_n.
  - left. exists 1. split; [apply le_n|reflexivity].
Defined.

End DegenerateFacts.

(** ** Values other than 0 and 1 *)

Module OmittedFacts.

Import Assoc Table TableFacts.

Lemma fold_max_ge (xs : list Z) :
  forall a,
    (a <= fold_left Z.max xs a)%Z /\
    Forall (fun l => (l <= fold_left Z.max xs a)%Z) xs.
Proof.
  induction xs as [|x xs IH]; intros a; cbn [fold_left].
  - split; [lia|constructor].
  - destruct (IH (Z.max a x)) as [Ha Hxs]. split; [lia|].
    constructor; [lia|assumption].
Qed.

Lemma np_max_bound (v : list Z) (m : Z) :
  np_max v = Ok m -> Forall (fun l => (l <= m)%Z) v.
Proof.
  destruct v as [|x xs]; [discriminate|]. intros H. inversion H.
  destruct (fold_max_ge xs x). constructor; assumption.
Qed.

Lemma list_sum_map_add {A : Type} (f g : A -> nat) (l : list A) :
  list_sum (map (fun x => f x + g x) l)
  = list_sum (map f l) + list_sum (map g l).
Proof. induction l as [|a l IH]; simpl; lia. Qed.

Lemma list_sum_zeros {A : Type} (l : list A) :
  list_sum (map (fun _ => 0) l) = 0.
Proof. induction l; simpl; trivial. Qed.

(** Exactly one column index stands for a label in range. *)
Lemma one_column (z : Z) (n : nat) :
  forall s,
    list_sum (map (fun k => if (z =? 1 + Z.of_nat k)%Z then 1 else 0) (seq s n))
    = if ((1 + Z.of_nat s <=? z) && (z <=? Z.of_nat s + Z.of_nat n))%Z
      then 1 else 0.
Proof.
  induction n as [|n IH]; intros s; cbn [seq map list_sum fold_right].
  - destruct (Z.leb_spec (1 + Z.of_nat s) z), (Z.leb_spec z (Z.of_nat s + Z.of_nat 0));
      simpl; trivial; lia.
  - change (fold_right Nat.add 0 ?l) with (list_sum l). rewrite IH.
    destruct (Z.eqb_spec z (1 + Z.of_nat s)),
             (Z.leb_spec (1 + Z.of_nat (S s)) z),
             (Z.leb_spec z (Z.of_nat (S s) + Z.of_nat n)),
             (Z.leb_spec (1 + Z.of_nat s) z),
             (Z.leb_spec z (Z.of_nat s + Z.of_nat (S n)));
      simpl; trivial; lia.
Qed.

(** Summed over the columns, the counts of a row are the count of the
    value among all samples with a label in range. *)
Lemma sum_over_columns (g : Z * NpFloat.t -> bool) (K : nat)
  (l : list (Z * NpFloat.t)) :
  Forall (fun lv => (1 <= fst lv <= Z.of_nat K)%Z) l ->
  list_sum (map (fun k => length (filter (fun lv => Z.eqb (fst lv) (1 + Z.of_nat k) && g lv) l))
                (seq 0 K))
  = length (filter g l).
Proof.
  induction l as [|a l IH]; intros Hrange.
  - cbn [filter length]. apply list_sum_zeros.
  - inversion Hrange as [|? ? Ha Hl]; subst.
    rewrite (map_ext _
      (fun k => (if Z.eqb (fst a) (1 + Z.of_nat k) && g a then 1 else 0)
                + length (filter (fun lv => Z.eqb (fst lv) (1 + Z.of_nat k) && g lv) l))).
    2: { intros k. cbn [filter].
         destruct (Z.eqb (fst a) (1 + Z.of_nat k) && g a); reflexivity. }
    rewrite list_sum_map_add, (IH Hl). cbn [filter].
    destruct (g a).
    + rewrite (map_ext _ (fun k => if Z.eqb (fst a) (1 + Z.of_nat k) then 1 else 0))
        by (intros k; now rewrite andb_true_r).
      rewrite one_column.
      destruct (Z.leb_spec (1 + Z.of_nat 0) (fst a)),
               (Z.leb_spec (fst a) (Z.of_nat 0 + Z.of_nat K));
        simpl; trivial; lia.
    + rewrite (map_ext _ (fun _ => 0))
        by (intros k; now rewrite andb_false_r).
      now rewrite list_sum_zeros.
Qed.

Lemma zeros_and_ones (l : list (Z * NpFloat.t)) :
  length (filter (fun lv => NpFloat.eqb (snd lv) NpFloat.zero) l)
  + length (filter (fun lv => NpFloat.eqb (snd lv) NpFloat.one) l)
  = length (filter (fun lv => binary (snd lv)) l).
Proof.
  induction l as [|[z v] l IH]; trivial. cbn [filter snd].
  change (binary v) with (NpFloat.eqb v NpFloat.zero || NpFloat.eqb v NpFloat.one).
  destruct (NpFloat.eqb v NpFloat.zero) eqn:E0.
  - rewrite (NpFloatFacts.eqb_zero_one _ E0). cbn [orb length]. lia.
  - destruct (NpFloat.eqb v NpFloat.one); cbn [orb length]; lia.
Qed.

Lemma combine_fst_snd {A B : Type} (l : list (A * B)) :
  combine (map fst l) (map snd l) = l.
Proof. induction l as [|[a b] l IH]; simpl; congruence. Qed.

Lemma filter_filter_impl {A : Type} (f g : A -> bool) (l : list A) :
  (forall x, f x = true -> g x = true) ->
  filter f (filter g l) = filter f l.
Proof.
  intros Himp. induction l as [|a l IH]; trivial. cbn [filter].
  destruct (g a) eqn:Eg; cbn [filter]; rewrite IH; trivial.
  destruct (f a) eqn:Ef; trivial. rewrite (Himp a Ef) in Eg. discriminate.
Qed.

Section Omitted.

Variable Raw : ndarray2.
Variable Labels : list Z.
Variable c K : nat.

Hypothesis rows_length : length (rows Raw) = n_rows Raw.
Hypothesis labels_rows : length Labels = n_rows Raw.
Hypothesis max_label : np_max Labels = Ok (Z.of_nat K).
Hypothesis labels_positive : Forall (fun l => (1 <= l)%Z) Labels.

Lemma samples_length : length (samples Raw Labels c) = n_rows Raw.
Proof.
  unfold samples. rewrite length_map, length_combine. lia.
Qed.

Lemma samples_in_range :
  Forall (fun lv => (1 <= fst lv <= Z.of_nat K)%Z) (samples Raw Labels c).
Proof.
  apply Forall_forall. intros lv Hin. unfold samples in Hin.
  apply in_map_iff in Hin as ([l r] & <- & Hin). cbn [fst].
  apply in_combine_l in Hin.
  pose proof (np_max_bound _ max_label) as Hmax.
  rewrite Forall_forall in Hmax, labels_positive.
  split; [now apply labels_positive|now apply Hmax].
Qed.

(** The table total is the number of samples whose value is 0 or 1. *)
Lemma total_binary :
  total (contingency Raw Labels c K)
  = length (filter (fun lv => binary (snd lv)) (samples Raw Labels c)).
Proof.
  unfold total, contingency, cell. cbn [map list_sum fold_right].
  change (fold_right Nat.add 0 ?l) with (list_sum l).
  rewrite (@sum_over_columns (fun lv => NpFloat.eqb (snd lv) NpFloat.zero)
             K _ samples_in_range).
  rewrite (@sum_over_columns (fun lv => NpFloat.eqb (snd lv) NpFloat.one)
             K _ samples_in_range).
  rewrite Nat.add_0_r. apply zeros_and_ones.
Qed.

Lemma samples_remaining :
  samples (fst (remaining Raw Labels c)) (snd (remaining Raw Labels c)) c
  = filter (fun lv => binary (snd lv)) (samples Raw Labels c).
Proof.
  unfold remaining, samples. cbn [fst snd rows].
  rewrite combine_fst_snd.
  induction (combine Labels (rows Raw)) as [|[l r] rest IH]; trivial.
  cbn [filter map fst snd].
  destruct (binary (nth c r NpFloat.NaN)); cbn [map fst snd]; now rewrite IH.
Qed.

(** The table of the remaining samples is the table of all of them. *)
Lemma contingency_remaining :
  contingency (fst (remaining Raw Labels c)) (snd (remaining Raw Labels c)) c K
  = contingency Raw Labels c K.
Proof.
  unfold contingency, cell. rewrite samples_remaining.
  f_equal; [|f_equal]; apply map_ext; intros k; f_equal;
    apply filter_filter_impl; intros [l v]; cbn [fst snd]; unfold binary;
    intros H; apply andb_true_iff in H as [_ ->]; trivial.
  apply orb_true_r.
Qed.

End Omitted.

(** C10. A sample enters the table of a mutation feature only when its
    value equals 0 or equals 1.  With labels from 1 to [K], the table
    total is the number of such samples; the samples with any other
    value (a 2, a NaN) are in neither row, so the total falls short of
    the number of samples as soon as there is one.  The statistic, the
    p-value and the decision are those of the counts of the remaining
    samples, in a table that keeps one column for each label up to the
    largest label of all the samples; they are what the remaining
    samples give when taken alone as long as the largest label is still
    found among them. *)
Theorem table_omits_other_values :
  forall (chi2_sf : NpFloat.t -> Z -> NpFloat.t)
         (kruskalwallis : list (list NpFloat.t) -> result NpFloat.t)
         (Raw : ndarray2) (Symbols : list string) (Labels : list Z)
         (Tau : NpFloat.t) (c K : nat) (st : locals),
    wf_ndarray2 Raw ->
    length Labels = n_rows Raw ->
    c < n_cols Raw ->
    np_max Labels = Ok (Z.of_nat K) ->
    Forall (fun l => (1 <= l)%Z) Labels ->
    let Raw' := fst (remaining Raw Labels c) in
    let Labels' := snd (remaining Raw Labels c) in
    observed_table Raw Labels c (Z.of_nat K) = Ok (contingency Raw Labels c K) /\
    total (contingency Raw Labels c K)
    = length (filter (fun lv => binary (snd lv)) (samples Raw Labels c)) /\
    total (contingency Raw Labels c K)
    + length (filter (fun lv => negb (binary (snd lv))) (samples Raw Labels c))
    = n_rows Raw /\
    ((exists lv, In lv (samples Raw Labels c) /\ binary (snd lv) = false) ->
     total (contingency Raw Labels c K) < n_rows Raw) /\
    observed_table Raw' Labels' c (Z.of_nat K) = Ok (contingency Raw Labels c K) /\
    contingency Raw' Labels' c K = contingency Raw Labels c K /\
    mutation_test chi2_sf Raw Labels c
    = Ok (chisquare chi2_sf
            (to_float (contingency Raw' Labels' c K))
            (expected_table (contingency Raw' Labels' c K) K) 1) /\
    mutation_body chi2_sf Raw Symbols Labels Tau c st
    = Ok (report Symbols Tau c (mutation_p chi2_sf Raw' Labels' K c) st) /\
    (Mutations Symbols = [c] -> CNVs Symbols = [] ->
     ClusterAssociations chi2_sf kruskalwallis Raw Symbols Labels Tau
     = Ok (if NpFloat.ltb (mutation_p chi2_sf Raw' Labels' K c) Tau
           then [symbol Symbols c] else [])) /\
    (np_max Labels' = Ok (Z.of_nat K) ->
     mutation_test chi2_sf Raw' Labels' c = mutation_test chi2_sf Raw Labels c /\
     mutation_body chi2_sf Raw' Symbols Labels' Tau c st
     = mutation_body chi2_sf Raw Symbols Labels Tau c st).
Proof.
  intros chi2_sf kruskalwallis Raw Symbols Labels Tau c K st
         [Hrows _] Hlabels Hc Hmax Hpos Raw' Labels'.
  assert (Htotal := @total_binary Raw Labels c K Hmax Hpos).
  assert (Hsplit :
    total (contingency Raw Labels c K)
    + length (filter (fun lv => negb (binary (snd lv))) (samples Raw Labels c))
    = n_rows Raw).
  { rewrite Htotal, filter_length. now apply samples_length. }
  assert (Hsame : contingency Raw' Labels' c K = contingency Raw Labels c K)
    by apply contingency_remaining.
  assert (Hlabels' : length Labels' = n_rows Raw').
  { unfold Labels', Raw', remaining. cbn [fst snd n_rows]. apply length_map. }
  assert (Hc' : c < n_cols Raw') by exact Hc.
  assert (Htest := @AssocFacts.mutation_test_ok chi2_sf Raw Labels K
                     Hlabels Hmax c Hc).
  assert (Hbody := @AssocFacts.mutation_body_ok chi2_sf Raw Symbols Labels Tau K
                     Hlabels Hmax c st Hc).
  split; [now apply observed_table_spec|].
  split; [exact Htotal|]. split; [exact Hsplit|]. split.
  { intros (lv & Hin & Hother).
    assert (Hin' : In lv (filter (fun lv => negb (binary (snd lv)))
                                 (samples Raw Labels c))).
    { apply filter_In. split; [assumption|]. now rewrite Hother. }
    destruct (filter (fun lv => negb (binary (snd lv))) (samples Raw Labels c));
      [contradiction|]. cbn [length] in Hsplit. lia. }
  split.
  { rewrite <- Hsame. now apply observed_table_spec. }
  split; [exact Hsame|].
  split; [now rewrite Hsame|].
  split; [unfold mutation_p; now rewrite Hsame|].
  split.
  { intros Hm Hcnv. unfold ClusterAssociations, mutation_loop, cnv_loop.
    rewrite Hm, Hcnv. cbn [for_each].
    rewrite (@AssocFacts.mutation_body_ok chi2_sf Raw Symbols Labels Tau K
               Hlabels Hmax c {| Significant := []; p := None |} Hc).
    cbn [bind]. unfold report, mutation_p. rewrite Hsame.
    cbn [Significant app]. now destruct (NpFloat.ltb _ Tau). }
  intros Hmax'.
  assert (Htest' := @AssocFacts.mutation_test_ok chi2_sf Raw' Labels' K
                      Hlabels' Hmax' c Hc').
  assert (Hbody' := @AssocFacts.mutation_body_ok chi2_sf Raw' Symbols Labels' Tau K
                      Hlabels' Hmax' c st Hc').
  split.
  - now rewrite Htest, Htest', Hsame.
  - rewrite Hbody, Hbody'. unfold mutation_p. now rewrite Hsame.
Qed.

Lemma table_omits_other_values_witness :
  observed_table Demo.RawOdd Demo.LabelsOdd 0 2 = Ok [[1; 0]; [1; 1]] /\
  total [[1; 0]; [1; 1]] < 5 /\
  mutation_test Demo.sf (fst (remaining Demo.RawOdd Demo.LabelsOdd 0))
                (snd (remaining Demo.RawOdd Demo.LabelsOdd 0)) 0
  = mutation_test Demo.sf Demo.RawOdd Demo.LabelsOdd 0.
Proof.
  destruct (@table_omits_other_values Demo.sf Demo.rank_test Demo.RawOdd
              ["TP53_Mut"%string] Demo.LabelsOdd Demo.Tau 0 2
              {| Significant := []; p := None |})
    as (Htable & _ & _ & Hless & _ & _ & _ & _ & _ & Hsame).
  - split; [reflexivity|]. repeat constructor.
  - reflexivity.
  - apply le_n.
  - reflexivity.
  - repeat constructor; discriminate.
  - split; [exact Htable|]. split.
    + apply Hless. exists (2%Z, NpFloat.NaN). split; [|reflexivity].
      right. right. right. left. reflexivity.
    + now apply Hsame.
Defined.

(** When the omitted samples are all there is of the last cluster, the
    table keeps an empty column for it: the p-value is NaN and the
    feature is not reported, while the remaining samples taken alone
    have a cluster less and a table without that column. *)
Lemma decision_differs
  (chi2_sf : NpFloat.t -> Z -> NpFloat.t) (Tau : NpFloat.t) (st : locals) :
  (forall df, chi2_sf NpFloat.NaN df = NpFloat.NaN) ->
  NpFloat.ltb (chi2_sf (NpFloat.of_Z 8) 2%Z) Tau = true ->
  mutation_body chi2_sf Demo.RawDrop Demo.SymbolsDrop Demo.LabelsDrop Tau 0 st
  = Ok {| Significant := Significant st; p := Some NpFloat.NaN |} /\
  mutation_body chi2_sf (fst (remaining Demo.RawDrop Demo.LabelsDrop 0))
                Demo.SymbolsDrop (snd (remaining Demo.RawDrop Demo.LabelsDrop 0))
                Tau 0 st
  = Ok {| Significant := Significant st ++ ["TP53_Mut"%string];
          p := Some (chi2_sf (NpFloat.of_Z 8) 2%Z) |}.
Proof.
  intros Hnan Hp. split.
  - unfold mutation_body, mutation_test.
    change (np_max Demo.LabelsDrop) with (Ok 3%Z). cbn [bind].
    change (observed_table Demo.RawDrop Demo.LabelsDrop 0 3)
      with (Ok [[4; 0; 0]; [0; 4; 0]]).
    cbn [bind]. unfold chisquare.
    change (NpFloat.sum (chi_terms (to_float [[4; 0; 0]; [0; 4; 0]])
                                   (expected [[4; 0; 0]; [0; 4; 0]])))
      with NpFloat.NaN.
    cbn [snd]. unfold report. rewrite Hnan. reflexivity.
  - unfold mutation_body, mutation_test.
    change (np_max (snd (remaining Demo.RawDrop Demo.LabelsDrop 0)))
      with (Ok 2%Z). cbn [bind].
    change (observed_table (fst (remaining Demo.RawDrop Demo.LabelsDrop 0))
                           (snd (remaining Demo.RawDrop Demo.LabelsDrop 0)) 0 2)
      with (Ok [[4; 0]; [0; 4]]).
    cbn [bind]. unfold chisquare.
    change (NpFloat.sum (chi_terms (to_float [[4; 0]; [0; 4]])
                                   (expected [[4; 0]; [0; 4]])))
      with (NpFloat.of_Z 8).
    change (Z.of_nat (length (chi_terms (to_float [[4; 0]; [0; 4]])
                                        (expected [[4; 0]; [0; 4]])))) with 4%Z.
    change (4 - 1 - 1)%Z with 2%Z.
    cbn [snd]. unfold report. rewrite Hp. reflexivity.
Qed.

(** The decision on all the samples is not always the decision on the
    remaining ones. *)
Lemma decision_over_remaining_fails : ~ Decision.decision_over_remaining.
Proof.
  intros Hclaim.
  assert (Hnan : forall df, Demo.sf NpFloat.NaN df = NpFloat.NaN)
    by reflexivity.
  pose proof (Hclaim Demo.sf Hnan Demo.RawDrop Demo.SymbolsDrop Demo.LabelsDrop
                     Demo.Tau 0 3 {| Significant := []; p := None |}) as H.
  destruct (@decision_differs Demo.sf Demo.Tau {| Significant := []; p := None |}
              Hnan eq_refl) as [Hfull Hrest].
  rewrite Hfull, Hrest in H.
  assert (Heq : Ok {| Significant := []; p := Some NpFloat.NaN |}
                = Ok {| Significant := [] ++ ["TP53_Mut"%string];
                        p := Some (Demo.sf (NpFloat.of_Z 8) 2%Z) |}).
  { apply H.
    - split; [reflexivity|]. repeat constructor.
    - reflexivity.
    - apply le_n.
    - reflexivity.
    - repeat constructor; discriminate. }
  discriminate Heq.
Qed.

End OmittedFacts.

(** ** Cluster counts outside 2..5 *)

Module UnboundFacts.

Import Assoc Table AssocFacts.

Lemma cnv_branches_outside
  (kruskalwallis : list (list NpFloat.t) -> result NpFloat.t)
  (Raw : ndarray2) (Labels : list Z) (K : Z) (c : nat) (st : locals) :
  outside_range K ->
  cnv_branches kruskalwallis Raw Labels K c st = Ok st.
Proof.
  intros (H2 & H3 & H4 & H5). unfold cnv_branches.
  apply Z.eqb_neq in H2, H3, H4, H5. now rewrite H2, H3, H4, H5.
Qed.

(** C2. With no mutation feature to have assigned [p], the first
    copy-number feature met with a cluster count outside 2..5 makes the
    call fail: [if p < Tau] reads a variable that was never bound. *)
Theorem cnv_outside_range_unbound :
  forall (chi2_sf : NpFloat.t -> Z -> NpFloat.t)
         (kruskalwallis : list (list NpFloat.t) -> result NpFloat.t)
         (Raw : ndarray2) (Symbols : list string) (Labels : list Z)
         (Tau : NpFloat.t) (K : Z),
    np_max Labels = Ok K ->
    outside_range K ->
    Mutations Symbols = [] ->
    CNVs Symbols <> [] ->
    ClusterAssociations chi2_sf kruskalwallis Raw Symbols Labels Tau
    = Raise UnboundLocalError.
Proof.
  intros chi2_sf kruskalwallis Raw Symbols Labels Tau K Hmax Hout Hmut Hcnv.
  unfold ClusterAssociations, mutation_loop, cnv_loop. rewrite Hmut.
  cbn [for_each bind].
  destruct (CNVs Symbols) as [|c cs]; [contradiction|].
  cbn [for_each]. unfold cnv_body at 1. rewrite Hmax. cbn [bind].
  rewrite cnv_branches_outside by assumption. reflexivity.
Qed.

Lemma cnv_outside_range_unbound_witness :
  ClusterAssociations Demo.sf Demo.rank_test Demo.RawOne Demo.SymbolsOne
                      Demo.LabelsOne Demo.Tau
  = Raise UnboundLocalError.
Proof.
  apply (@cnv_outside_range_unbound Demo.sf Demo.rank_test Demo.RawOne
           Demo.SymbolsOne Demo.LabelsOne Demo.Tau 1%Z).
  - reflexivity.
  - repeat split; discriminate.
  - reflexivity.
  - discriminate.
Defined.

(** When a mutation test has run, the copy-number loop reuses its
    p-value: every copy-number feature is reported, or none is, by the
    last mutation feature's test. *)
Lemma cnv_outside_range_stale
  (kruskalwallis : list (list NpFloat.t) -> result NpFloat.t)
  (Raw : ndarray2) (Symbols : list string) (Labels : list Z)
  (Tau : NpFloat.t) (K : Z) (pv : NpFloat.t) (cs : list nat) :
  np_max Labels = Ok K ->
  outside_range K ->
  forall sig,
    for_each (cnv_body kruskalwallis Raw Symbols Labels Tau) cs
             {| Significant := sig; p := Some pv |}
    = Ok {| Significant :=
              sig ++ (if NpFloat.ltb pv Tau then map (symbol Symbols) cs else []);
            p := Some pv |}.
Proof.
  intros Hmax Hout. induction cs as [|c cs IH]; intros sig.
  - cbn [for_each map]. destruct (NpFloat.ltb pv Tau); now rewrite app_nil_r.
  - cbn [for_each]. unfold cnv_body at 1. rewrite Hmax. cbn [bind].
    rewrite cnv_branches_outside by assumption. cbn [bind p].
    unfold report. cbn [Significant]. rewrite IH.
    destruct (NpFloat.ltb pv Tau); cbn [map]; trivial.
    now rewrite <- app_assoc.
Qed.

End UnboundFacts.

(** ** Symbols that are a bare tag *)

Module BareTagFacts.

Import Assoc Table AssocFacts.

(** C5. A feature whose symbol is exactly [Mut], with no underscore and
    so no suffix after one, is classified as a mutation feature:
    [rfind] answers [-1] and the slice is the whole symbol. *)
Theorem bare_Mut_is_mutation :
  forall (Symbols : list string) (c : nat),
    c < length Symbols ->
    nth c Symbols EmptyString = "Mut"%string ->
    PyStr.rfind (nth c Symbols EmptyString) "_"%char = (-1)%Z /\
    In c (Mutations Symbols).
Proof.
  intros Symbols c Hc Hsym. split.
  - rewrite Hsym. reflexivity.
  - apply In_indices_with. split; [assumption|]. rewrite Hsym. reflexivity.
Qed.

Lemma bare_Mut_is_mutation_witness :
  PyStr.rfind "Mut" "_"%char = (-1)%Z /\ In 0 (Mutations Demo.SymbolsBare).
Proof.
  apply (@bare_Mut_is_mutation Demo.SymbolsBare 0 (le_n 1) eq_refl).
Defined.

(** C8. Once such a feature is found significant, its symbol is in the
    list that [ClusterAssociations] returns and in neither annotation
    subset: the rendering step looks for [_Mut] and [_CNV], underscore
    included. *)
Theorem bare_symbol_in_no_track :
  forall (chi2_sf : NpFloat.t -> Z -> NpFloat.t)
         (kruskalwallis : list (list NpFloat.t) -> result NpFloat.t)
         (Tau : NpFloat.t),
    NpFloat.ltb (chi2_sf (NpFloat.of_Z 8) 2%Z) Tau = true ->
    ClusterAssociations chi2_sf kruskalwallis Demo.RawBare Demo.SymbolsBare
                        Demo.Labels8 Tau
    = Ok ["Mut"%string] /\
    Cluster.SigMut ["Mut"%string] = [] /\
    Cluster.SigCNV ["Mut"%string] = [].
Proof.
  intros chi2_sf kruskalwallis Tau Hp.
  split; [|split; reflexivity].
  unfold ClusterAssociations, mutation_loop, cnv_loop.
  change (Mutations Demo.SymbolsBare) with [0].
  change (CNVs Demo.SymbolsBare) with (@nil nat).
  cbn [for_each]. unfold mutation_body, mutation_test.
  change (np_max Demo.Labels8) with (Ok 2%Z). cbn [bind].
  change (observed_table Demo.RawBare Demo.Labels8 0 2)
    with (Ok [[4; 0]; [0; 4]]).
  cbn [bind]. unfold chisquare.
  change (NpFloat.sum (chi_terms (to_float [[4; 0]; [0; 4]])
                                 (expected [[4; 0]; [0; 4]])))
    with (NpFloat.of_Z 8).
  change (Z.of_nat (length (chi_terms (to_float [[4; 0]; [0; 4]])
                                      (expected [[4; 0]; [0; 4]])))) with 4%Z.
  change (4 - 1 - 1)%Z with 2%Z.
  cbn [snd]. unfold report. rewrite Hp. reflexivity.
Qed.

Lemma bare_symbol_in_no_track_witness :
  ClusterAssociations Demo.sf Demo.rank_test Demo.RawBare Demo.SymbolsBare
                      Demo.Labels8 Demo.Tau
  = Ok ["Mut"%string] /\
  Cluster.SigMut ["Mut"%string] = [] /\
  Cluster.SigCNV ["Mut"%string] = [].
Proof.
  apply (@bare_symbol_in_no_track Demo.sf Demo.rank_test Demo.Tau eq_refl).
Defined.

End BareTagFacts.

(** ** The shuffled split *)

Module ShuffleFacts.

Import Shuffle Split.

Lemma fold_size_twice (n : nat) : 2 * fold_size n <= n.
Proof.
  unfold fold_size. pose proof (Nat.Div0.mul_div_le (20 * n) 100). lia.
Qed.

Lemma take_ok {A : Type} (a : list A) (d : A) (order : list nat) :
  Forall (fun i => i < length a) order ->
  take a order = Ok (map (fun i => nth i a d) order).
Proof.
  induction order as [|i order IH]; intros Hall; [reflexivity|].
  inversion Hall as [|? ? Hi Hrest]; subst. cbn [take map].
  rewrite (nth_error_nth' a d Hi), (IH Hrest). reflexivity.
Qed.

(** Indexing an array that is itself a re-indexing of [a]. *)
Lemma take_reindexed {A : Type} (a : list A) (d : A) (prev order : list nat) :
  Forall (fun i => i < length prev) order ->
  take (map (fun i => nth i a d) prev) order
  = Ok (map (fun i => nth i a d) (reindex prev order)).
Proof.
  intros Hall. rewrite (take_ok _ d) by now rewrite length_map.
  f_equal. unfold reindex. rewrite map_map.
  apply map_ext_in. intros j Hj. rewrite Forall_forall in Hall.
  apply (ListFacts.nth_map_in (fun i => nth i a d) prev 0 d (Hall j Hj)).
Qed.

Lemma slices_of_map {A B : Type} (f : A -> B) (idx : list A) (fs : nat) :
  slice (map f idx) 0 fs = map f (firstn fs idx) /\
  slice (map f idx) fs (2 * fs) = map f (firstn fs (skipn fs idx)) /\
  slice_from (map f idx) (2 * fs) = map f (skipn (2 * fs) idx).
Proof.
  unfold slice, slice_from. cbn [skipn].
  replace (fs - 0) with fs by lia. replace (2 * fs - fs) with fs by lia.
  now rewrite skipn_map, !firstn_map, skipn_map.
Qed.

Lemma ranges_partition (n : nat) (idx : list nat) :
  Permutation idx (seq 0 n) ->
  test_idx idx ++ val_idx idx ++ train_idx idx = idx /\
  NoDup (test_idx idx ++ val_idx idx ++ train_idx idx) /\
  length (test_idx idx) = fold_size n /\
  length (val_idx idx) = fold_size n /\
  length (train_idx idx) = n - 2 * fold_size n.
Proof.
  intros Hperm.
  assert (Hlen : length idx = n).
  { rewrite (Permutation_length Hperm). apply length_seq. }
  pose proof (fold_size_twice n) as Hfs.
  assert (Hcat : test_idx idx ++ val_idx idx ++ train_idx idx = idx).
  { unfold test_idx, val_idx, train_idx.
    replace (2 * fold_size (length idx))
      with (fold_size (length idx) + fold_size (length idx)) by lia.
    rewrite <- skipn_skipn, firstn_skipn. apply firstn_skipn. }
  split; [exact Hcat|]. split.
  - rewrite Hcat. apply (Permutation_NoDup (Permutation_sym Hperm)), seq_NoDup.
  - unfold test_idx, val_idx, train_idx. rewrite Hlen.
    rewrite !firstn_length_le, length_skipn by (rewrite ?length_skipn; lia).
    lia.
Qed.

Section Loop.

Variable permutation : nat -> list nat -> list nat.
Hypothesis permutation_spec :
  forall seed l, Permutation (permutation seed l) l.

Variable d : dataset.
Variable n : nat.

Local Abbreviation arrangements := (Split.arrangements permutation n).

Hypothesis X_length : length (X d) = n.
Hypothesis T_length : length (T d) = n.
Hypothesis O_length : length (O d) = n.

Lemma order_in_range (i : nat) (prev : list nat) :
  length prev = n ->
  Forall (fun j => j < length prev) (permutation i (seq 0 n)).
Proof.
  intros Hlen. apply Forall_forall. intros j Hj.
  apply (Permutation_in _ (permutation_spec i (seq 0 n))) in Hj.
  apply in_seq in Hj. lia.
Qed.

Lemma reindex_permutation (i : nat) (prev : list nat) :
  Permutation prev (seq 0 n) ->
  Permutation (reindex prev (permutation i (seq 0 n))) (seq 0 n).
Proof.
  intros Hprev. unfold reindex.
  transitivity (map (fun j => nth j prev 0) (seq 0 n)).
  - apply Permutation_map, permutation_spec.
  - assert (Hlen : length prev = n).
    { rewrite (Permutation_length Hprev). apply length_seq. }
    rewrite <- Hlen at 1. rewrite <- (ListFacts.map_as_seq (fun x => x) prev 0).
    now rewrite map_id.
Qed.

(** One pass: the same positions of [X], [T] and [O], cut at the same
    places. *)
Lemma shuffle_body_ok (i : nat) (prev : list nat) :
  length prev = n ->
  shuffle_body permutation i (rows_at d prev)
  = Ok (rows_at d (reindex prev (permutation i (seq 0 n))),
        split_at d (reindex prev (permutation i (seq 0 n)))).
Proof.
  intros Hlen. unfold shuffle_body, rows_at. cbn [X T O].
  rewrite length_map, Hlen.
  pose proof (order_in_range i prev Hlen) as Hrange.
  rewrite !take_reindexed by assumption. cbn [bind].
  set (idx := reindex prev (permutation i (seq 0 n))).
  assert (Hidx : length idx = n).
  { unfold idx, reindex. rewrite length_map.
    rewrite (Permutation_length (permutation_spec i (seq 0 n))).
    apply length_seq. }
  rewrite length_map, Hidx.
  unfold split_at, rows_at, test_idx, val_idx, train_idx. rewrite Hidx.
  destruct (slices_of_map (fun i => nth i (X d) []) idx (fold_size n))
    as (-> & -> & ->).
  destruct (slices_of_map (fun i => nth i (T d) NpFloat.NaN) idx (fold_size n))
    as (-> & -> & ->).
  destruct (slices_of_map (fun i => nth i (O d) 0%Z) idx (fold_size n))
    as (-> & -> & ->).
  reflexivity.
Qed.

Lemma shuffle_loop_ok (seeds : list nat) :
  forall prev,
    Permutation prev (seq 0 n) ->
    shuffle_loop permutation seeds (rows_at d prev)
    = Ok (map (fun idx => (rows_at d idx, split_at d idx))
              (arrangements seeds prev)) /\
    Forall (fun idx => Permutation idx (seq 0 n)) (arrangements seeds prev).
Proof.
  induction seeds as [|i seeds IH]; intros prev Hprev.
  - split; [reflexivity|constructor].
  - assert (Hlen : length prev = n).
    { rewrite (Permutation_length Hprev). apply length_seq. }
    cbn [shuffle_loop arrangements map].
    rewrite (shuffle_body_ok i prev Hlen). cbn [bind fst].
    destruct (IH _ (reindex_permutation i Hprev)) as [Hloop Hall].
    rewrite Hloop. split; [reflexivity|].
    constructor; [now apply reindex_permutation|assumption].
Qed.

Lemma rows_at_identity : rows_at d (seq 0 n) = d.
Proof.
  unfold rows_at. destruct d as [Xs Ts Os]. cbn [X T O] in *.
  rewrite <- X_length at 1. rewrite <- T_length at 1. rewrite <- O_length.
  rewrite <- !(ListFacts.map_as_seq (fun x => x)), !map_id. reflexivity.
Qed.

End Loop.

(** C9. In every pass of the shuffle loop the arrays are re-indexed by
    one permutation, drawn from the generator seeded with the pass
    index, the same for [X], [T] and [O]; test is the first
    [20 * n / 100] rows of the result, validation the next as many, train
    the rest.  So the three partitions hold disjoint samples of the data
    set, every sample is in one of them, and a row of a partition carries
    the features, the time and the flag of one and the same sample. *)
Theorem run_partitions :
  forall (permutation : nat -> list nat -> list nat) (d : dataset) (n : nat),
    (forall seed l, Permutation (permutation seed l) l) ->
    length (X d) = n -> length (T d) = n -> length (O d) = n ->
    Run permutation d
    = Ok (map (fun idx => (rows_at d idx, split_at d idx))
              (arrangements permutation n (seq 0 N_SHUFFLES) (seq 0 n))) /\
    length (arrangements permutation n (seq 0 N_SHUFFLES) (seq 0 n))
    = N_SHUFFLES /\
    Forall (fun idx =>
              Permutation idx (seq 0 n) /\
              test_idx idx ++ val_idx idx ++ train_idx idx = idx /\
              NoDup (test_idx idx ++ val_idx idx ++ train_idx idx) /\
              length (test_idx idx) = fold_size n /\
              length (val_idx idx) = fold_size n /\
              length (train_idx idx) = n - 2 * fold_size n)
           (arrangements permutation n (seq 0 N_SHUFFLES) (seq 0 n)).
Proof.
  intros permutation d n Hperm HX HT HO.
  destruct (@shuffle_loop_ok permutation Hperm d n HX HT HO
              (seq 0 N_SHUFFLES) (seq 0 n) (Permutation_refl _))
    as [Hloop Hall].
  split.
  - unfold Run. rewrite <- Hloop. now rewrite (rows_at_identity d HX HT HO).
  - split; [reflexivity|].
    eapply Forall_impl; [|exact Hall].
    intros idx Hidx. split; [exact Hidx|]. now apply ranges_partition.
Qed.

Lemma draw_spec (seed : nat) (l : list nat) :
  Permutation (Demo.draw seed l) l.
Proof.
  unfold Demo.draw. destruct (Nat.even seed); [|reflexivity].
  symmetry. apply Permutation_rev.
Qed.

Lemma run_partitions_witness :
  exists outs,
    Run Demo.draw Demo.Data5 = Ok outs /\
    length outs = N_SHUFFLES /\
    test_set (snd (nth 0 outs (Demo.Data5, split_at Demo.Data5 [])))
    = rows_at Demo.Data5 [4].
Proof.
  destruct (@run_partitions Demo.draw Demo.Data5 5 draw_spec
              eq_refl eq_refl eq_refl) as (Hrun & Hlen & _).
  eexists. split; [exact Hrun|]. split.
  - rewrite length_map. exact Hlen.
  - reflexivity.
Defined.

End ShuffleFacts.

(** ** The ranking of the features *)

Module RankFacts.

Import Cluster Ranking.

Section Keys.

Variable a : list NpFloat.t.

Local Abbreviation not_after := (Ranking.not_after a).

Lemma not_after_trans (i j k : nat) :
  not_after i j -> not_after j k -> not_after i k.
Proof. apply NpFloatFacts.sort_leb_trans. Qed.

Lemma goes_before_not_after (strict : bool) (i j : nat) :
  goes_before a strict i j = true -> not_after i j.
Proof.
  unfold goes_before, not_after. destruct strict; trivial.
  intros H. apply negb_true_iff in H.
  now apply NpFloatFacts.sort_leb_total.
Qed.

Lemma stays_behind_not_after (strict : bool) (i j : nat) :
  goes_before a strict i j = false -> not_after j i.
Proof.
  unfold goes_before, not_after. destruct strict.
  - intros H. now apply negb_false_iff in H.
  - apply NpFloatFacts.sort_leb_total.
Qed.

Lemma insert_index_perm (strict : bool) (i : nat) (l : list nat) :
  Permutation (insert_index a strict i l) (i :: l).
Proof.
  induction l as [|j l IH]; cbn [insert_index]; [reflexivity|].
  destruct (goes_before a strict i j); [reflexivity|].
  rewrite IH. apply perm_swap.
Qed.

Lemma insert_index_sorted (strict : bool) (i : nat) (l : list nat) :
  StronglySorted not_after l ->
  StronglySorted not_after (insert_index a strict i l).
Proof.
  induction l as [|j l IH]; cbn [insert_index]; intros Hs.
  - repeat constructor.
  - apply StronglySorted_inv in Hs as [Hl Hj].
    destruct (goes_before a strict i j) eqn:E.
    + apply goes_before_not_after in E.
      constructor; [now constructor|].
      constructor; [assumption|].
      eapply Forall_impl; [|exact Hj].
      intros k Hk. now apply (not_after_trans E).
    + apply stays_behind_not_after in E.
      constructor; [now apply IH|].
      apply (Permutation_Forall (Permutation_sym (insert_index_perm strict i l))).
      now constructor.
Qed.

Lemma insertion_fold (strict : bool) (todo : list nat) :
  forall done,
    StronglySorted not_after done ->
    Permutation (fold_left (fun s i => insert_index a strict i s) todo done)
                (done ++ todo) /\
    StronglySorted not_after
      (fold_left (fun s i => insert_index a strict i s) todo done).
Proof.
  induction todo as [|i todo IH]; intros done Hs; cbn [fold_left].
  - rewrite app_nil_r. split; [reflexivity|assumption].
  - destruct (IH _ (insert_index_sorted strict i Hs)) as [Hp Hs'].
    split; [|assumption].
    rewrite Hp, insert_index_perm. apply Permutation_middle.
Qed.

End Keys.

(** Both insertion sorts are sorts in numpy's sense. *)
Lemma insertion_argsort_contract (strict : bool) :
  argsort_contract (insertion_argsort strict).
Proof.
  intros a. unfold sorts, insertion_argsort.
  destruct (@insertion_fold a strict (seq 0 (length a)) [])
    as [Hp Hs]; [constructor|].
  split; assumption.
Qed.

Lemma strongly_sorted_app {A : Type} (R : A -> A -> Prop) (l1 l2 : list A) :
  StronglySorted R (l1 ++ l2) ->
  StronglySorted R l1 /\ forall x y, In x l1 -> In y l2 -> R x y.
Proof.
  induction l1 as [|x l1 IH]; cbn [app]; intros Hs.
  - split; [constructor|]. intros x y [].
  - apply StronglySorted_inv in Hs as [Hs Hx].
    destruct (IH Hs) as [Hs1 Hcross]. split.
    + constructor; [assumption|].
      apply Forall_forall. intros y Hy. rewrite Forall_forall in Hx.
      apply Hx, in_or_app. now left.
    + intros x' y [<-|Hx'] Hy.
      * rewrite Forall_forall in Hx. apply Hx, in_or_app. now right.
      * now apply Hcross.
Qed.

Lemma sort_keys_length (np_mean : list NpFloat.t -> NpFloat.t) (G : ndarray2) :
  length (sort_keys np_mean G) = n_cols G.
Proof. unfold sort_keys, mean_axis0. now rewrite !length_map, length_seq. Qed.

(** C7, as far as the sort's contract goes: whatever [np.mean] rounds
    to, the first [N] entries of the argsort of [-|mean gradient|] are the
    [N] features of largest |mean gradient|, in descending order of it. *)
Theorem top_features_ranked :
  forall (np_mean : list NpFloat.t -> NpFloat.t)
         (argsort : list NpFloat.t -> list nat)
         (Gradients : ndarray2) (N : nat),
    argsort_contract argsort ->
    ranked np_mean (top_features np_mean argsort Gradients N) Gradients N.
Proof.
  intros np_mean argsort G N Hcontract.
  destruct (Hcontract (sort_keys np_mean G)) as [Hperm Hsorted].
  rewrite sort_keys_length in Hperm.
  unfold ranked, top_features, Order.
  set (order := argsort (sort_keys np_mean G)) in *.
  assert (Hsplit : firstn N order ++ skipn N order = order)
    by apply firstn_skipn.
  assert (Hnodup : NoDup order).
  { apply (Permutation_NoDup (Permutation_sym Hperm)), seq_NoDup. }
  rewrite <- Hsplit in Hsorted, Hnodup.
  apply strongly_sorted_app in Hsorted as [Hfirst Hcross].
  split.
  { rewrite length_firstn, (Permutation_length Hperm), length_seq.
    reflexivity. }
  split; [now apply NoDup_app_remove_r in Hnodup|].
  split.
  { apply Forall_forall. intros i Hi.
    assert (Hin : In i order)
      by (rewrite <- Hsplit; apply in_or_app; now left).
    apply (Permutation_in _ Hperm), in_seq in Hin. lia. }
  split; [exact Hfirst|].
  intros i j Hi Hj Hout. apply Hcross; [assumption|].
  assert (Hin : In j order).
  { apply (Permutation_in _ (Permutation_sym Hperm)), in_seq. lia. }
  rewrite <- Hsplit in Hin. apply in_app_or in Hin as [Hin|Hin];
    [contradiction|assumption].
Qed.

Lemma top_features_ranked_witness :
  ranked Demo.mean
         (top_features Demo.mean (insertion_argsort true) Demo.Raw8 2)
         Demo.Raw8 2.
Proof.
  apply (@top_features_ranked Demo.mean (insertion_argsort true) Demo.Raw8 2
           (insertion_argsort_contract true)).
Defined.

(** Eighteen features with the same score: the range is one entry too
    long for the insertion sort, and the partition around the median
    exchanges the entries on its two sides, equal as they are. *)
Lemma ties_out_of_order (np_mean : list NpFloat.t -> NpFloat.t) :
  mean_of_one np_mean ->
  top_features np_mean Numpy.argsort Demo.Gradients18 18
  = [0; 15; 14; 13; 12; 11; 10; 9; 8; 7; 6; 5; 4; 3; 2; 1; 16; 17].
Proof.
  intros Hmean. unfold top_features, Order, sort_keys, mean_axis0.
  cbn [Demo.Gradients18 Demo.array rows n_cols map repeat seq nth].
  rewrite !Hmean. vm_compute. reflexivity.
Qed.

(** [np.argsort] itself puts feature 15 before feature 14 when all
    eighteen scores tie. *)
Lemma stable_ranking_fails : ~ stable_ranking.
Proof.
  intros Hstable.
  assert (Hmean : mean_of_one Demo.mean_kept) by (intros x; reflexivity).
  destruct (Hstable Demo.mean_kept Hmean Demo.Gradients18 18) as [_ Hties].
  rewrite (ties_out_of_order Hmean) in Hties.
  assert (Hlt : 15 < 14); [|lia].
  apply (Hties 1 2).
  - cbn [length]. lia.
  - reflexivity.
Qed.

End RankFacts.

(** ** The distances behind the sample labels *)

Module LinkageFacts.

Import Cluster.

(** C4. [linkage] is handed the square matrix, a two-dimensional array,
    which SciPy reads as observation vectors.  The tree that is cut is
    therefore the average-linkage tree of the correlation distances
    between the rows of the sample distance matrix, not of the sample
    distances themselves; the cut is at 0.7 times its largest merge
    distance. *)
Theorem sample_labels_from_row_distances :
  forall (pdist_correlation : list (list NpFloat.t) -> list NpFloat.t)
         (squareform : list NpFloat.t -> list (list NpFloat.t))
         (average_linkage : list NpFloat.t -> list (list NpFloat.t))
         (fcluster : list (list NpFloat.t) -> NpFloat.t -> list Z)
         (n : nat) (Normalized : list (list NpFloat.t)),
    SampleLabels pdist_correlation squareform average_linkage fcluster
                 n Normalized
    = let sample_distances := pdist_correlation (transpose n Normalized) in
      let row_distances :=
        pdist_correlation (squareform sample_distances) in
      let tree := average_linkage row_distances in
      top <- py_max (map (fun merge => nth 2 merge NpFloat.NaN) tree) ;;
      Ok (fcluster tree (NpFloat.mul (NpFloat.Fin (7 # 10)) top)).
Proof. reflexivity. Qed.

End LinkageFacts.

(** ** Suffixes and tags *)

Module StrFacts.

Import PyStr.

Local Open Scope string_scope.

Lemma length_append (s1 s2 : string) :
  String.length (s1 ++ s2) = String.length s1 + String.length s2.
Proof. induction s1 as [|a s1 IH]; simpl; congruence. Qed.

Lemma append_assoc (s1 s2 s3 : string) : (s1 ++ s2) ++ s3 = s1 ++ (s2 ++ s3).
Proof. induction s1 as [|a s1 IH]; simpl; congruence. Qed.

Lemma list_of_append (s1 s2 : string) :
  list_ascii_of_string (s1 ++ s2)
  = (list_ascii_of_string s1 ++ list_ascii_of_string s2)%list.
Proof. induction s1 as [|a s1 IH]; simpl; congruence. Qed.

Lemma string_of_app (l1 l2 : list ascii) :
  string_of_list_ascii (l1 ++ l2)
  = string_of_list_ascii l1 ++ string_of_list_ascii l2.
Proof. induction l1 as [|a l1 IH]; simpl; congruence. Qed.

Lemma drop_app (pre s : string) : drop (String.length pre) (pre ++ s) = s.
Proof. induction pre as [|a pre IH]; simpl; trivial. Qed.

Lemma rfind_from_absent (s : string) (c : ascii) :
  has_char c s = false -> forall i last, rfind_from s c i last = last.
Proof.
  induction s as [|a s IH]; cbn [has_char rfind_from]; intros H i last; trivial.
  apply orb_false_iff in H as [Ha Hs]. rewrite Ha. now apply IH.
Qed.

(** [rfind] finds the last occurrence. *)
Lemma rfind_from_last (pre : string) (c : ascii) (rest : string) :
  has_char c rest = false ->
  forall i last,
    rfind_from (pre ++ String c rest) c i last
    = (i + Z.of_nat (String.length pre))%Z.
Proof.
  intros Hrest. induction pre as [|a pre IH]; intros i last.
  - cbn [append rfind_from String.length]. rewrite Ascii.eqb_refl.
    rewrite rfind_from_absent by assumption. cbn. lia.
  - cbn [append rfind_from String.length]. rewrite IH. lia.
Qed.

(** A string that holds [c] splits at the last [c]. *)
Lemma split_at_last (c : ascii) (s : string) :
  has_char c s = true ->
  exists pre rest, s = pre ++ String c rest /\ has_char c rest = false.
Proof.
  induction s as [|a s IH]; cbn [has_char]; [discriminate|].
  destruct (has_char c s) eqn:Hs.
  - intros _. destruct (IH eq_refl) as (pre & rest & -> & Hrest).
    exists (String a pre), rest. split; [reflexivity|assumption].
  - rewrite orb_false_r. intros Ha. apply Ascii.eqb_eq in Ha. subst a.
    exists EmptyString, s. split; [reflexivity|assumption].
Qed.

Lemma lstrip_app (pre : string) (a : ascii) (rest : string) :
  is_space a = false ->
  lstrip (pre ++ String a rest) = lstrip pre ++ String a rest.
Proof.
  intros Ha. induction pre as [|b pre IH]; cbn [append lstrip].
  - now rewrite Ha.
  - destruct (is_space b); [exact IH|reflexivity].
Qed.

Lemma reverse_snoc (x : string) (a : ascii) :
  reverse (x ++ String a EmptyString) = String a (reverse x).
Proof.
  unfold reverse. rewrite list_of_append. cbn [list_ascii_of_string].
  rewrite rev_app_distr. reflexivity.
Qed.

Lemma reverse_cons (a : ascii) (x : string) :
  reverse (String a x) = reverse x ++ String a EmptyString.
Proof.
  unfold reverse. cbn [list_ascii_of_string rev]. now rewrite string_of_app.
Qed.

Lemma reverse_involutive (x : string) : reverse (reverse x) = x.
Proof.
  unfold reverse. rewrite list_ascii_of_string_of_list_ascii, rev_involutive.
  apply string_of_list_ascii_of_string.
Qed.

(** Nothing is stripped on the right of a string that ends in a
    character other than white space. *)
Lemma rstrip_snoc (x : string) (a : ascii) :
  is_space a = false ->
  rstrip (x ++ String a EmptyString) = x ++ String a EmptyString.
Proof.
  intros Ha. unfold rstrip. rewrite reverse_snoc. cbn [lstrip]. rewrite Ha.
  now rewrite reverse_cons, reverse_involutive.
Qed.

End StrFacts.

(** ** The suffix of a symbol *)

Module SuffixFacts.

Import PyStr Assoc StrFacts.

Local Open Scope string_scope.

Lemma drop_past (pre : string) (a : ascii) (rest : string) :
  drop (S (String.length pre)) (pre ++ String a rest) = rest.
Proof. induction pre as [|b pre IH]; simpl; trivial. Qed.

Lemma Suffix_of_after_last (pre tag : string) :
  has_char "_" tag = false -> Suffix_of (pre ++ String "_" tag) = tag.
Proof.
  intros Htag. unfold Suffix_of, rfind.
  rewrite rfind_from_last by assumption.
  unfold slice_from.
  destruct (0 + Z.of_nat (String.length pre) + 1 <? 0)%Z eqn:Hneg;
    [apply Z.ltb_lt in Hneg; lia|].
  replace (Z.to_nat (0 + Z.of_nat (String.length pre) + 1))
    with (S (String.length pre)) by lia.
  apply drop_past.
Qed.

Lemma Suffix_of_whole (s : string) :
  has_char "_" s = false -> Suffix_of s = s.
Proof.
  intros Hs. unfold Suffix_of, rfind.
  rewrite rfind_from_absent by assumption. reflexivity.
Qed.

(** The symbols with a given suffix: the suffix alone, or anything
    followed by an underscore and the suffix. *)
Lemma Suffix_of_inv (s tag : string) :
  has_char "_" tag = false ->
  Suffix_of s = tag <-> s = tag \/ exists pre, s = pre ++ String "_" tag.
Proof.
  intros Htag. split.
  - intros Hs. destruct (has_char "_" s) eqn:Hu.
    + destruct (split_at_last _ _ Hu) as (pre & rest & -> & Hrest).
      rewrite Suffix_of_after_last in Hs by assumption. subst rest.
      right. now exists pre.
    + rewrite Suffix_of_whole in Hs by assumption. now left.
  - intros [->|[pre ->]].
    + now apply Suffix_of_whole.
    + now apply Suffix_of_after_last.
Qed.

(** X2. The suffix of a symbol is what follows its last underscore. *)
Theorem Suffix_of_tagged :
  forall pre tag : string,
    has_char "_" tag = false -> Suffix_of (pre ++ String "_" tag) = tag.
Proof. exact Suffix_of_after_last. Qed.

Lemma Suffix_of_tagged_witness : Suffix_of "NF1_del_Mut" = "Mut".
Proof. exact (@Suffix_of_tagged "NF1_del" "Mut" eq_refl). Defined.

(** X3. The suffix of a symbol without an underscore is the symbol. *)
Theorem Suffix_of_plain :
  forall s : string, has_char "_" s = false -> Suffix_of s = s.
Proof. exact Suffix_of_whole. Qed.

Lemma Suffix_of_plain_witness : Suffix_of "CNV" = "CNV".
Proof. exact (@Suffix_of_plain "CNV" eq_refl). Defined.

(** X4. The mutation features are the columns whose symbol is [Mut] or
    ends in [_Mut]; the copy-number features those whose symbol is [CNV]
    or ends in [_CNV]. *)
Theorem feature_types :
  forall (Symbols : list string) (c : nat),
    (In c (Mutations Symbols) <->
     c < length Symbols /\
     (Table.symbol Symbols c = "Mut" \/
      exists pre, Table.symbol Symbols c = pre ++ "_Mut")) /\
    (In c (CNVs Symbols) <->
     c < length Symbols /\
     (Table.symbol Symbols c = "CNV" \/
      exists pre, Table.symbol Symbols c = pre ++ "_CNV")).
Proof.
  intros Symbols c. unfold Mutations, CNVs, Table.symbol.
  rewrite !AssocFacts.In_indices_with.
  rewrite (@Suffix_of_inv _ "Mut" eq_refl), (@Suffix_of_inv _ "CNV" eq_refl).
  split; reflexivity.
Qed.

End SuffixFacts.

(** ** The annotation subsets *)

Module TrackFacts.

Import PyStr Assoc Cluster StrFacts SuffixFacts.

Local Open Scope string_scope.

Lemma slice_tail (x t : string) :
  String.length t = 4 -> slice_from (x ++ t) (-4) = t.
Proof.
  intros Ht. unfold slice_from. rewrite length_append, Ht.
  change (-4 <? 0)%Z with true. cbv iota.
  replace (Z.to_nat (Z.max 0 (Z.of_nat (String.length x + 4) + -4)))
    with (String.length x) by lia.
  apply drop_app.
Qed.

Lemma strip_tagged (pre : string) (a b c : ascii) :
  is_space c = false ->
  strip (pre ++ String "_" (String a (String b (String c ""))))
  = lstrip pre ++ String "_" (String a (String b (String c ""))).
Proof.
  intros Hc. unfold strip. rewrite lstrip_app by reflexivity.
  change (String "_" (String a (String b (String c ""))))
    with (String "_" (String a (String b "")) ++ String c "").
  rewrite <- append_assoc. now apply rstrip_snoc.
Qed.

(** The last four characters of a feature's symbol, stripped: the
    underscore and the suffix, unless the symbol is the suffix alone. *)
Lemma tail_of_typed (s : string) (a b c : ascii) :
  is_space c = false ->
  Suffix_of s = String a (String b (String c "")) ->
  s <> String a (String b (String c "")) ->
  slice_from (strip s) (-4) = String "_" (String a (String b (String c ""))).
Proof.
  intros Hc Hs Hbare. destruct (has_char "_" s) eqn:Hu.
  - destruct (split_at_last _ _ Hu) as (pre & rest & -> & Hrest).
    rewrite Suffix_of_after_last in Hs by assumption. subst rest.
    rewrite strip_tagged by assumption. now apply slice_tail.
  - rewrite Suffix_of_whole in Hs by assumption. contradiction.
Qed.

Lemma filter_all {A : Type} (f : A -> bool) (l : list A) :
  Forall (fun x => f x = true) l -> filter f l = l.
Proof.
  induction 1 as [|x l Hx _ IH]; cbn [filter]; trivial.
  now rewrite Hx, IH.
Qed.

Lemma filter_none {A : Type} (f : A -> bool) (l : list A) :
  Forall (fun x => f x = false) l -> filter f l = [].
Proof.
  induction 1 as [|x l Hx _ IH]; cbn [filter]; trivial.
  now rewrite Hx, IH.
Qed.

Local Open Scope list_scope.

Section Loops.

Variable chi2_sf : NpFloat.t -> Z -> NpFloat.t.
Variable kruskalwallis : list (list NpFloat.t) -> result NpFloat.t.
Variable Raw : ndarray2.
Variable Symbols : list string.
Variable Labels : list Z.
Variable Tau : NpFloat.t.

Local Abbreviation symbol := (Table.symbol Symbols).

(** A loop whose body appends at most the symbol of the feature at hand
    appends symbols of the features it visits, in their order. *)
Lemma for_each_appends (body : nat -> locals -> result locals) :
  (forall c st st',
      body c st = Ok st' ->
      Significant st' = Significant st \/
      Significant st' = Significant st ++ [symbol c]) ->
  forall cs st st',
    for_each body cs st = Ok st' ->
    exists extra,
      Significant st' = Significant st ++ extra /\
      Forall (fun s => exists c, In c cs /\ s = symbol c) extra.
Proof.
  intros Hbody. induction cs as [|c cs IH]; intros st st' H.
  - inversion H. exists []. rewrite app_nil_r. auto.
  - cbn [for_each] in H. step_bind; [|discriminate].
    apply IH in H as (extra & Hsig & Hall).
    assert (Hweak : Forall (fun s => exists c', In c' (c :: cs) /\ s = symbol c')
                           extra).
    { eapply Forall_impl; [|exact Hall].
      intros s (c' & Hin & ->). exists c'. split; [now right|reflexivity]. }
    apply Hbody in E as [E|E]; rewrite Hsig, E.
    + exists extra. auto.
    + exists (symbol c :: extra). rewrite <- app_assoc. split; [reflexivity|].
      constructor; [|assumption]. exists c. split; [now left|reflexivity].
Qed.

Lemma mutation_body_appends (c : nat) (st st' : locals) :
  mutation_body chi2_sf Raw Symbols Labels Tau c st = Ok st' ->
  Significant st' = Significant st \/
  Significant st' = Significant st ++ [symbol c].
Proof.
  unfold mutation_body. intros H. step_bind; [|discriminate].
  inversion H. unfold report. cbn [Significant].
  destruct (NpFloat.ltb (snd a) Tau); [right|left]; reflexivity.
Qed.

Lemma cnv_body_appends (c : nat) (st st' : locals) :
  cnv_body kruskalwallis Raw Symbols Labels Tau c st = Ok st' ->
  Significant st' = Significant st \/
  Significant st' = Significant st ++ [symbol c].
Proof.
  unfold cnv_body. intros H. step_bind; [|discriminate].
  step_bind; [|discriminate].
  apply AssocFacts.cnv_branches_sig in E0.
  destruct (p a0); [|discriminate]. inversion H. unfold report.
  cbn [Significant]. rewrite E0.
  destruct (NpFloat.ltb t Tau); [right|left]; reflexivity.
Qed.

(** What the call returns: symbols of mutation features, then symbols of
    copy-number features. *)
Lemma significant_by_type (sig : list string) :
  ClusterAssociations chi2_sf kruskalwallis Raw Symbols Labels Tau = Ok sig ->
  exists mut cnv,
    sig = mut ++ cnv /\
    Forall (fun s => exists c, In c (Mutations Symbols) /\ s = symbol c) mut /\
    Forall (fun s => exists c, In c (CNVs Symbols) /\ s = symbol c) cnv.
Proof.
  unfold ClusterAssociations, mutation_loop, cnv_loop. intros H.
  step_bind; [|discriminate]. step_bind; [|discriminate].
  apply (@for_each_appends _ mutation_body_appends) in E as (mut & Hmut & Hm).
  apply (@for_each_appends _ cnv_body_appends) in E0 as (cnv & Hcnv & Hc).
  exists mut, cnv. inversion H. rewrite Hcnv, Hmut. auto.
Qed.

Hypothesis no_bare_Mut : ~ In "Mut" Symbols.
Hypothesis no_bare_CNV : ~ In "CNV" Symbols.

Lemma typed_symbol (tag : string) (c : nat) :
  In c (indices_with tag (map Suffix_of Symbols)) ->
  In (symbol c) Symbols /\ Suffix_of (symbol c) = tag.
Proof.
  intros Hc. apply AssocFacts.In_indices_with in Hc as [Hlt Hs].
  split; [now apply nth_In|exact Hs].
Qed.

Lemma mutation_symbol_tags (c : nat) :
  In c (Mutations Symbols) ->
  has_tag "_Mut" (symbol c) = true /\ has_tag "_CNV" (symbol c) = false.
Proof.
  intros Hc. apply typed_symbol in Hc as [Hin Hs].
  assert (Hbare : symbol c <> "Mut") by (intros E; now rewrite E in Hin).
  unfold has_tag.
  rewrite (@tail_of_typed (symbol c) "M" "u" "t" eq_refl Hs Hbare).
  split; reflexivity.
Qed.

Lemma cnv_symbol_tags (c : nat) :
  In c (CNVs Symbols) ->
  has_tag "_Mut" (symbol c) = false /\ has_tag "_CNV" (symbol c) = true.
Proof.
  intros Hc. apply typed_symbol in Hc as [Hin Hs].
  assert (Hbare : symbol c <> "CNV") by (intros E; now rewrite E in Hin).
  unfold has_tag.
  rewrite (@tail_of_typed (symbol c) "C" "N" "V" eq_refl Hs Hbare).
  split; reflexivity.
Qed.

Lemma tracks_of_significant (sig : list string) :
  ClusterAssociations chi2_sf kruskalwallis Raw Symbols Labels Tau = Ok sig ->
  SigMut sig ++ SigCNV sig = sig.
Proof.
  intros H. apply significant_by_type in H as (mut & cnv & -> & Hm & Hc).
  unfold SigMut, SigCNV. rewrite !filter_app.
  rewrite (@filter_all _ (has_tag "_Mut") mut), (@filter_none _ (has_tag "_CNV") mut),
          (@filter_none _ (has_tag "_Mut") cnv), (@filter_all _ (has_tag "_CNV") cnv).
  - now rewrite app_nil_r.
  - eapply Forall_impl; [|exact Hc]. intros s (c & Hin & ->).
    now apply cnv_symbol_tags.
  - eapply Forall_impl; [|exact Hc]. intros s (c & Hin & ->).
    now apply cnv_symbol_tags.
  - eapply Forall_impl; [|exact Hm]. intros s (c & Hin & ->).
    now apply mutation_symbol_tags.
  - eapply Forall_impl; [|exact Hm]. intros s (c & Hin & ->).
    now apply mutation_symbol_tags.
Qed.

End Loops.

(** X5. When no symbol is the bare [Mut] or [CNV], the list that
    [ClusterAssociations] returns is its [_Mut] entries followed by its
    [_CNV] entries: the two annotation subsets cover it, share nothing,
    and keep its order. *)
Theorem tracks_cover_significant :
  forall (chi2_sf : NpFloat.t -> Z -> NpFloat.t)
         (kruskalwallis : list (list NpFloat.t) -> result NpFloat.t)
         (Raw : ndarray2) (Symbols : list string) (Labels : list Z)
         (Tau : NpFloat.t) (sig : list string),
    ~ In "Mut" Symbols ->
    ~ In "CNV" Symbols ->
    ClusterAssociations chi2_sf kruskalwallis Raw Symbols Labels Tau = Ok sig ->
    SigMut sig ++ SigCNV sig = sig.
Proof.
  intros chi2_sf kruskalwallis Raw Symbols Labels Tau sig Hm Hc H.
  exact (@tracks_of_significant chi2_sf kruskalwallis Raw Symbols Labels Tau
           Hm Hc sig H).
Qed.

Lemma tracks_cover_significant_witness :
  SigMut ["TP53_Mut"] ++ SigCNV ["TP53_Mut"] = ["TP53_Mut"].
Proof.
  apply (@tracks_cover_significant Demo.sf Demo.rank_test Demo.Raw8
           Demo.Symbols8 Demo.Labels8 Demo.Tau ["TP53_Mut"]).
  - intros [E|[E|[E|[]]]]; discriminate.
  - intros [E|[E|[E|[]]]]; discriminate.
  - vm_compute. reflexivity.
Defined.

End TrackFacts.

(** ** A p-value carried over *)

Module StaleFacts.

Import Assoc Table AssocFacts UnboundFacts.

Lemma last_cons_default {A : Type} (l : list A) :
  forall x d, last (x :: l) d = last l x.
Proof.
  induction l as [|y l IH]; intros x d; [reflexivity|].
  change (last (x :: y :: l) d) with (last (y :: l) d).
  now rewrite !IH.
Qed.

Lemma last_of_map {A B : Type} (f : A -> B) (l : list A) (d : A) (d' : B) :
  l <> [] -> last (map f l) d' = f (last l d).
Proof.
  induction l as [|x l IH]; intros Hl; [contradiction|].
  destruct l as [|y l]; [reflexivity|].
  change (last (map f (x :: y :: l)) d') with (last (map f (y :: l)) d').
  change (last (x :: y :: l) d) with (last (y :: l) d).
  apply IH. discriminate.
Qed.

Section Loops.

Variable chi2_sf : NpFloat.t -> Z -> NpFloat.t.
Variable Raw : ndarray2.
Variable Symbols : list string.
Variable Labels : list Z.
Variable Tau : NpFloat.t.
Variable K : nat.

Local Abbreviation mutation_p := (Table.mutation_p chi2_sf Raw Labels K).
Local Abbreviation symbol := (Table.symbol Symbols).

Hypothesis labels_rows : length Labels = n_rows Raw.
Hypothesis max_label : np_max Labels = Ok (Z.of_nat K).

(** After the mutation loop [p] holds the p-value of the last mutation
    feature, if there was one. *)
Lemma mutation_for_each_p (cs : list nat) :
  (forall c, In c cs -> c < n_cols Raw) ->
  forall st,
    for_each (mutation_body chi2_sf Raw Symbols Labels Tau) cs st
    = Ok {| Significant :=
              Significant st
              ++ map symbol (filter (fun c => NpFloat.ltb (mutation_p c) Tau) cs);
            p := last (map (fun c => Some (mutation_p c)) cs) (p st) |}.
Proof.
  induction cs as [|c cs IH]; intros Hcs st.
  - simpl. rewrite app_nil_r. now destruct st.
  - cbn [for_each].
    rewrite (@mutation_body_ok chi2_sf Raw Symbols Labels Tau K labels_rows
               max_label c st) by (apply Hcs; now left).
    cbn [bind]. rewrite IH by (intros c' H; apply Hcs; now right).
    cbn [map]. rewrite last_cons_default. f_equal. f_equal.
    unfold report. cbn [Significant filter].
    destruct (NpFloat.ltb (mutation_p c) Tau); cbn [map]; trivial.
    now rewrite <- app_assoc.
Qed.

End Loops.

(** X1. With a largest label of 1, or of 6 or more, and at least one
    mutation feature, no copy-number feature is tested, and the call reports all
    the copy-number features or none of them: all of them exactly when
    the last mutation feature's p-value is below [Tau]. *)
Theorem cnv_reuses_mutation_p :
  forall (chi2_sf : NpFloat.t -> Z -> NpFloat.t)
         (kruskalwallis : list (list NpFloat.t) -> result NpFloat.t)
         (Raw : ndarray2) (Symbols : list string) (Labels : list Z)
         (Tau : NpFloat.t) (K : nat),
    length Labels = n_rows Raw ->
    length Symbols <= n_cols Raw ->
    np_max Labels = Ok (Z.of_nat K) ->
    1 <= K ->
    outside_range (Z.of_nat K) ->
    Mutations Symbols <> [] ->
    ClusterAssociations chi2_sf kruskalwallis Raw Symbols Labels Tau
    = Ok (map (symbol Symbols)
              (filter (fun c => NpFloat.ltb (mutation_p chi2_sf Raw Labels K c) Tau)
                      (Mutations Symbols))
          ++ (if NpFloat.ltb (mutation_p chi2_sf Raw Labels K
                                         (last (Mutations Symbols) 0)) Tau
              then map (symbol Symbols) (CNVs Symbols)
              else [])).
Proof.
  intros chi2_sf kruskalwallis Raw Symbols Labels Tau K Hrows Hcols Hmax Hone Hout Hmut.
  assert (Hvalid : forall c, In c (Mutations Symbols) -> c < n_cols Raw).
  { intros c Hc. apply In_indices_with in Hc. lia. }
  unfold ClusterAssociations, mutation_loop, cnv_loop.
  rewrite (@mutation_for_each_p chi2_sf Raw Symbols Labels Tau K Hrows Hmax
             (Mutations Symbols) Hvalid).
  cbn [bind Significant p app].
  rewrite (@last_of_map _ _ _ (Mutations Symbols) 0 None Hmut).
  rewrite (@cnv_outside_range_stale kruskalwallis Raw Symbols Labels Tau
             (Z.of_nat K) _ (CNVs Symbols) Hmax Hout).
  reflexivity.
Qed.

Lemma cnv_reuses_mutation_p_witness :
  ClusterAssociations Demo.sf Demo.rank_test Demo.Raw24 Demo.Symbols24
                      Demo.Labels24 Demo.Tau
  = Ok ["TP53_Mut"; "EGFR_CNV"]%string.
Proof.
  rewrite (@cnv_reuses_mutation_p Demo.sf Demo.rank_test Demo.Raw24
             Demo.Symbols24 Demo.Labels24 Demo.Tau 6).
  - vm_compute. reflexivity.
  - reflexivity.
  - apply le_n.
  - reflexivity.
  - lia.
  - repeat split; discriminate.
  - discriminate.
Defined.

End StaleFacts.

(** ** Reading the data set *)

Module CsvFacts.

Import PyStr Csv StrFacts.

Local Open Scope string_scope.

Lemma split_not_nil (sep : ascii) (s : string) : split sep s <> [].
Proof.
  destruct s as [|c s]; cbn [split]; [discriminate|].
  destruct (Ascii.eqb c sep); [discriminate|].
  destruct (split sep s); discriminate.
Qed.

Lemma concat_cons (sep x : string) (l : list string) :
  l <> [] -> String.concat sep (x :: l) = x ++ sep ++ String.concat sep l.
Proof. destruct l; [contradiction|reflexivity]. Qed.

Lemma concat_cons_char (sep : string) (c : ascii) (x : string)
  (l : list string) :
  String.concat sep (String c x :: l) = String c (String.concat sep (x :: l)).
Proof. destruct l; reflexivity. Qed.

Lemma split_concat (sep : ascii) (s : string) :
  String.concat (String sep "") (split sep s) = s.
Proof.
  induction s as [|c s IH]; [reflexivity|]. cbn [split].
  destruct (Ascii.eqb c sep) eqn:Hc.
  - apply Ascii.eqb_eq in Hc. subst c.
    rewrite concat_cons by apply split_not_nil. now rewrite IH.
  - destruct (split sep s) as [|f fs] eqn:Hs; [now apply split_not_nil in Hs|].
    rewrite concat_cons_char. now rewrite IH.
Qed.

Lemma split_plain (sep : ascii) (f : string) :
  has_char sep f = false -> split sep f = [f].
Proof.
  induction f as [|c f IH]; cbn [has_char split]; [reflexivity|].
  intros H. apply orb_false_iff in H as [Hc Hf]. rewrite Hc, IH; trivial.
Qed.

Lemma split_field (sep : ascii) (f rest : string) :
  has_char sep f = false ->
  split sep (f ++ String sep rest) = f :: split sep rest.
Proof.
  induction f as [|c f IH]; cbn [has_char append split].
  - intros _. now rewrite Ascii.eqb_refl.
  - intros H. apply orb_false_iff in H as [Hc Hf]. rewrite Hc, IH; trivial.
Qed.

Lemma concat_split (sep : ascii) (fields : list string) :
  fields <> [] ->
  Forall (fun f => has_char sep f = false) fields ->
  split sep (String.concat (String sep "") fields) = fields.
Proof.
  induction fields as [|f fields IH]; intros Hne Hall; [contradiction|].
  inversion Hall as [|? ? Hf Hrest]; subst.
  destruct fields as [|g fields].
  - now apply split_plain.
  - rewrite concat_cons by discriminate. cbn [append].
    rewrite split_field by assumption. f_equal. apply IH; [discriminate|assumption].
Qed.

Lemma split_fields_plain (sep : ascii) (s : string) :
  Forall (fun f => has_char sep f = false) (split sep s).
Proof.
  induction s as [|c s IH]; cbn [split]; [repeat constructor|].
  destruct (Ascii.eqb c sep) eqn:Hc; [constructor; [reflexivity|assumption]|].
  destruct (split sep s) as [|f fs]; [repeat constructor; cbn; now rewrite Hc|].
  inversion IH; subst. constructor; [|assumption].
  cbn [has_char]. rewrite Hc. assumption.
Qed.

(** A line has as many fields as it has commas, and one more. *)
Lemma split_single (sep : ascii) (s : string) :
  has_char sep s = false <-> length (split sep s) < 2.
Proof.
  induction s as [|c s IH]; cbn [has_char split].
  - split; [intros _; cbn; lia|reflexivity].
  - destruct (Ascii.eqb c sep) eqn:Hc; cbn [orb].
    + split; [discriminate|].
      pose proof (split_not_nil sep s) as Hne.
      destruct (split sep s); [contradiction|]. cbn [length]. lia.
    + destruct (split sep s) as [|f fs]; cbn [length] in *; [|exact IH].
      split; [lia|]. intros _. apply IH. lia.
Qed.

(** X6. Splitting at a separator and joining with it undo each other:
    the fields of a string, joined, are the string; a list of fields
    without the separator, not empty, joined and split, is the list.  No
    field holds the separator. *)
Theorem split_round_trip :
  forall (sep : ascii) (s : string) (fields : list string),
    String.concat (String sep "") (split sep s) = s /\
    Forall (fun f => has_char sep f = false) (split sep s) /\
    (fields <> [] ->
     Forall (fun f => has_char sep f = false) fields ->
     split sep (String.concat (String sep "") fields) = fields).
Proof.
  intros sep s fields. split; [apply split_concat|].
  split; [apply split_fields_plain|apply concat_split].
Qed.

Lemma split_round_trip_witness :
  split "," (String.concat "," ["63"; ""; "5"; "1"]) = ["63"; ""; "5"; "1"].
Proof.
  apply (proj2 (proj2 (@split_round_trip "," "" ["63"; ""; "5"; "1"]))).
  - discriminate.
  - repeat constructor.
Defined.

Lemma readlines_concat (text : string) :
  String.concat "" (readlines text) = text.
Proof.
  induction text as [|c text IH]; [reflexivity|]. cbn [readlines].
  destruct (Ascii.eqb c newline).
  - destruct (readlines text) as [|l ls] eqn:Hl.
    + cbn in IH. now rewrite <- IH.
    + rewrite concat_cons by discriminate. cbn [append]. now rewrite IH.
  - destruct (readlines text) as [|l ls] eqn:Hl.
    + cbn in IH. now rewrite <- IH.
    + rewrite concat_cons_char. now rewrite IH.
Qed.

Lemma readlines_nil (text : string) : readlines text = [] <-> text = "".
Proof.
  split; [|now intros ->].
  destruct text as [|c text]; [reflexivity|]. cbn [readlines].
  destruct (Ascii.eqb c newline); [discriminate|].
  destruct (readlines text); discriminate.
Qed.

(** The first line ends at the first line feed. *)
Lemma readlines_first (head rest : string) :
  has_char newline head = false ->
  readlines (head ++ String newline rest)
  = (head ++ String newline "") :: readlines rest.
Proof.
  induction head as [|c head IH]; cbn [has_char append readlines].
  - intros _. now rewrite Ascii.eqb_refl.
  - intros H. apply orb_false_iff in H as [Hc Hh]. rewrite Hc, IH; trivial.
Qed.

Lemma readlines_last (body : string) :
  has_char newline body = false -> body <> "" -> readlines body = [body].
Proof.
  induction body as [|c body IH]; cbn [has_char readlines]; [contradiction|].
  intros H _. apply orb_false_iff in H as [Hc Hb]. rewrite Hc.
  destruct body as [|d body]; [reflexivity|].
  rewrite IH; [reflexivity|assumption|discriminate].
Qed.

Lemma line_shape_cons (final : bool) (c : ascii) (line : string) :
  Ascii.eqb c newline = false ->
  line_shape final line -> line_shape final (String c line).
Proof.
  intros Hc (body & Hbody & Hline). exists (String c body). split.
  - cbn [has_char]. now rewrite Hc.
  - destruct Hline as [->|(Hf & -> & Hne)]; [now left|right].
    repeat split; [assumption|discriminate].
Qed.

(** Every line but the last ends in a line feed, its only one; the last
    may end with the file. *)
Lemma readlines_shapes (text : string) :
  forall lines last_line,
    readlines text = (lines ++ [last_line])%list ->
    Forall (line_shape false) lines /\ line_shape true last_line.
Proof.
  induction text as [|c text IH]; intros lines last_line H.
  - destruct lines; discriminate.
  - cbn [readlines] in H. destruct (Ascii.eqb c newline) eqn:Hc.
    + apply Ascii.eqb_eq in Hc. subst c.
      assert (Hempty : forall final, line_shape final (String newline "")).
      { intros final. exists "". split; [reflexivity|now left]. }
      destruct lines as [|l lines]; cbn [app] in H.
      * injection H as <- _. split; [constructor|apply Hempty].
      * injection H as <- Hrest. apply IH in Hrest as [Hall Hlast].
        split; [constructor; [apply Hempty|]|]; assumption.
    + destruct (readlines text) as [|l ls] eqn:Hl.
      * destruct lines as [|l' lines]; cbn [app] in H;
          [|injection H as _ Hrest; destruct lines; discriminate].
        injection H as <-. split; [constructor|].
        exists (String c ""). split; [cbn; now rewrite Hc|].
        right. repeat split. discriminate.
      * destruct lines as [|l' lines]; cbn [app] in H.
        -- injection H as <- ->. destruct (IH [] l eq_refl) as [_ Hlast].
           split; [constructor|]. now apply line_shape_cons.
        -- injection H as <- ->.
           destruct (IH (l :: lines) last_line eq_refl) as [Hall Hlast].
           inversion Hall; subst. split; [|assumption].
           constructor; [|assumption]. now apply line_shape_cons.
Qed.

(** X7. [readlines] cuts the text after each line feed and loses
    nothing: the lines put end to end are the text, no line is empty,
    every line but the last ends in its only line feed, and the last one
    either does too or runs to the end of the file. *)
Theorem readlines_round_trip :
  forall text : string,
    String.concat "" (readlines text) = text /\
    (readlines text = [] <-> text = "") /\
    forall lines last_line,
      readlines text = (lines ++ [last_line])%list ->
      Forall (line_shape false) lines /\ line_shape true last_line.
Proof.
  intros text. split; [apply readlines_concat|].
  split; [apply readlines_nil|apply readlines_shapes].
Qed.

Lemma readlines_round_trip_witness :
  Forall (line_shape false) (firstn 2 (readlines Demo.Whas)) /\
  line_shape true ("71,30.2,12,0" ++ Demo.nl).
Proof.
  apply (proj2 (proj2 (readlines_round_trip Demo.Whas))).
  reflexivity.
Defined.

(** *** The rows *)

Local Open Scope list_scope.

Lemma two_last {A : Type} (l : list A) :
  2 <= length l -> exists pre t o, l = pre ++ [t; o].
Proof.
  intros Hl. destruct (rev l) as [|o [|t rpre]] eqn:Hr.
  - apply (f_equal (@length A)) in Hr. rewrite length_rev in Hr. cbn in Hr. lia.
  - apply (f_equal (@length A)) in Hr. rewrite length_rev in Hr. cbn in Hr. lia.
  - exists (rev rpre), t, o. rewrite <- (rev_involutive l), Hr.
    cbn [rev]. now rewrite <- app_assoc.
Qed.

Lemma row_body_ok (pre : list string) (t o : string) (st : columns) :
  row_body (pre ++ [t; o]) st
  = Ok {| X_list := X_list st ++ [pre];
          T_list := T_list st ++ [t];
          O_list := O_list st ++ [o] |}.
Proof.
  unfold row_body, from_end, but_last_two.
  rewrite length_app. cbn [length].
  destruct (Nat.ltb_spec (length pre + 2) 1) as [H|_]; [lia|].
  destruct (Nat.ltb_spec (length pre + 2) 2) as [H|_]; [lia|].
  replace (length pre + 2 - 1) with (length pre + 1) by lia.
  replace (length pre + 2 - 2) with (length pre + 0) by lia.
  rewrite !nth_error_app2 by lia.
  replace (length pre + 1 - length pre) with 1 by lia.
  replace (length pre + 0 - length pre) with 0 by lia.
  cbn [nth_error bind].
  rewrite Nat.add_0_r, firstn_app, firstn_all, Nat.sub_diag. cbn [firstn].
  now rewrite app_nil_r.
Qed.

Lemma row_body_short (l : list string) (st : columns) :
  length l < 2 -> row_body l st = Raise IndexError.
Proof.
  intros Hl. unfold row_body, from_end.
  destruct l as [|a [|b l]]; [reflexivity|reflexivity|cbn in Hl; lia].
Qed.

(** The time and the status of a row. *)
Local Abbreviation t_of := (fun r : list string => nth (length r - 2) r ""%string).
Local Abbreviation o_of := (fun r : list string => nth (length r - 1) r ""%string).

Lemma row_parts (r : list string) :
  2 <= length r -> r = but_last_two r ++ [t_of r; o_of r].
Proof.
  intros Hr. destruct (two_last r Hr) as (pre & t & o & ->).
  unfold but_last_two. rewrite length_app. cbn [length].
  replace (length pre + 2 - 2) with (length pre + 0) by lia.
  replace (length pre + 2 - 1) with (length pre + 1) by lia.
  rewrite !app_nth2 by lia.
  replace (length pre + 0 - length pre) with 0 by lia.
  replace (length pre + 1 - length pre) with 1 by lia.
  rewrite Nat.add_0_r, firstn_app, firstn_all, Nat.sub_diag. cbn [firstn nth].
  now rewrite app_nil_r.
Qed.

Lemma rows_ok (rows : list (list string)) :
  Forall (fun r => 2 <= length r) rows ->
  forall st,
    for_each row_body rows st
    = Ok {| X_list := X_list st ++ map (@but_last_two string) rows;
            T_list := T_list st ++ map t_of rows;
            O_list := O_list st ++ map o_of rows |}.
Proof.
  induction 1 as [|r rows Hr _ IH]; intros st.
  - cbn. rewrite !app_nil_r. now destruct st.
  - cbn [for_each]. rewrite (row_parts r Hr) at 1. rewrite row_body_ok.
    cbn [bind]. rewrite IH. cbn [X_list T_list O_list map].
    now rewrite <- !app_assoc.
Qed.

Lemma rows_short (rows : list (list string)) :
  Exists (fun r => length r < 2) rows ->
  forall st, for_each row_body rows st = Raise IndexError.
Proof.
  induction rows as [|r rows IH]; intros Hex st; [inversion Hex|].
  cbn [for_each].
  destruct (Nat.lt_ge_cases (length r) 2) as [Hshort|Hlong].
  - now rewrite row_body_short.
  - rewrite (row_parts r Hlong) at 1. rewrite row_body_ok. cbn [bind].
    apply IH. inversion Hex; subst; [lia|assumption].
Qed.

Lemma rows_of_maps (rows : list (list string)) :
  Forall (fun r => 2 <= length r) rows ->
  rows_of {| X_list := map (@but_last_two string) rows;
             T_list := map t_of rows;
             O_list := map o_of rows |}
  = rows.
Proof.
  unfold rows_of. cbn [X_list T_list O_list].
  induction 1 as [|r rows Hr _ IH]; [reflexivity|].
  cbn [map combine fst snd]. rewrite IH. f_equal.
  symmetry. now apply row_parts.
Qed.

Lemma comma_fields (line : string) :
  has_char "," line = true <-> 2 <= length (split "," line).
Proof.
  pose proof (split_single "," line) as H.
  destruct (has_char "," line); split; intros H'; trivial; try discriminate.
  - destruct (Nat.lt_ge_cases (length (split "," line)) 2) as [Hlt|]; trivial.
    apply H in Hlt. discriminate.
  - assert (Hlt : length (split "," line) < 2) by now apply H. lia.
Qed.

Lemma no_comma_fields (line : string) :
  has_char "," line = false <-> length (split "," line) < 2.
Proof. apply split_single. Qed.

Lemma pop0_lines (text : string) :
  pop0 (map (split ",") (readlines text))
  = match readlines text with
    | [] => Raise IndexError
    | _ :: lines => Ok (map (split ",") lines)
    end.
Proof. now destruct (readlines text). Qed.

(** X8. When the file is not empty and every line after the first holds
    a comma, the rows are read: each line after the first gives one entry
    of each of the three lists, and the features, the time and the status
    of a row, in this order, are the fields of its line. *)
Theorem read_rows_ok :
  forall text : string,
    text <> ""%string ->
    Forall (fun line => has_char "," line = true) (tl (readlines text)) ->
    exists cols,
      read_rows text = Ok cols /\
      rows_of cols = map (split ",") (tl (readlines text)) /\
      length (X_list cols) = length (readlines text) - 1 /\
      length (T_list cols) = length (readlines text) - 1 /\
      length (O_list cols) = length (readlines text) - 1.
Proof.
  intros text Htext Hall. unfold read_rows. rewrite pop0_lines.
  destruct (readlines text) as [|header lines] eqn:Hlines;
    [now apply readlines_nil in Hlines|].
  cbn [tl] in *. cbn [bind].
  assert (Hrows : Forall (fun r => 2 <= length r) (map (split ",") lines)).
  { rewrite Forall_map. eapply Forall_impl; [|exact Hall].
    intros line. apply comma_fields. }
  rewrite (rows_ok Hrows). cbn [X_list T_list O_list app].
  eexists. split; [reflexivity|]. split; [now apply rows_of_maps|].
  cbn [X_list T_list O_list length]. rewrite !length_map. lia.
Qed.

Lemma read_rows_ok_witness :
  exists cols,
    read_rows Demo.Whas = Ok cols /\
    rows_of cols = [["63"; "28.1"; "5"; "1" ++ Demo.nl];
                    ["71"; "30.2"; "12"; "0" ++ Demo.nl]]%string /\
    length (X_list cols) = 2 /\
    length (T_list cols) = 2 /\
    length (O_list cols) = 2.
Proof.
  apply (@read_rows_ok Demo.Whas).
  - discriminate.
  - repeat constructor.
Defined.

(** X9. Where the rows of a file that is not empty are read, the loop
    fails with IndexError exactly when a line after the first holds no
    comma, an empty line for one: its single field has no entry before
    the last. *)
Theorem read_rows_error :
  forall text : string,
    text <> ""%string ->
    (read_rows text = Raise IndexError <->
     Exists (fun line => has_char "," line = false) (tl (readlines text))).
Proof.
  intros text Htext. unfold read_rows. rewrite pop0_lines.
  destruct (readlines text) as [|header lines] eqn:Hlines;
    [now apply readlines_nil in Hlines|].
  cbn [tl bind].
  destruct (Exists_dec (fun r : list string => length r < 2)
                       (map (split ",") lines)) as [Hex|Hall].
  { intros r. destruct (lt_dec (length r) 2); [now left|now right]. }
  - rewrite (rows_short Hex). split; [|reflexivity]. intros _.
    rewrite Exists_map in Hex. eapply Exists_impl; [|exact Hex].
    intros line. apply no_comma_fields.
  - assert (Hrows : Forall (fun r => 2 <= length r) (map (split ",") lines)).
    { apply Forall_Exists_neg in Hall. eapply Forall_impl; [|exact Hall].
      cbn. intros r Hr. lia. }
    rewrite (rows_ok Hrows). split; [discriminate|]. intros Hex.
    exfalso. apply Hall. rewrite Exists_map.
    eapply Exists_impl; [|exact Hex]. intros line. apply no_comma_fields.
Qed.

Lemma read_rows_error_witness :
  read_rows Demo.WhasBlank = Raise IndexError.
Proof.
  apply (proj2 (@read_rows_error Demo.WhasBlank ltac:(discriminate))).
  vm_compute. do 2 apply Exists_cons_tl. apply Exists_cons_hd.
  reflexivity.
Defined.

(** X10. The loop over the rows does not read the first line: for two
    files that differ in their first line only it builds the same three
    lists, or fails alike, and the time and the status it keeps are the
    last two fields of each line, by their place. *)
Theorem header_is_not_read :
  forall header header' rest : string,
    has_char newline header = false ->
    has_char newline header' = false ->
    read_rows (header ++ String newline rest)
    = read_rows (header' ++ String newline rest).
Proof.
  intros header header' rest H H'. unfold read_rows.
  now rewrite !readlines_first by assumption.
Qed.

Lemma header_is_not_read_witness :
  read_rows ("age,bmi,time,censor" ++ String newline "63,28.1,5,1")
  = read_rows ("censor,time,bmi,age" ++ String newline "63,28.1,5,1").
Proof.
  apply (@header_is_not_read "age,bmi,time,censor" "censor,time,bmi,age"
           "63,28.1,5,1"); reflexivity.
Defined.

End CsvFacts.

(** ** What the two loops report *)

Module ReportFacts.

Import Assoc Table Reporting AssocFacts TableFacts.

Lemma subseq_nil_l {A : Type} (l : list A) : subseq [] l.
Proof. induction l; constructor; assumption. Qed.

Lemma subseq_refl {A : Type} (l : list A) : subseq l l.
Proof. induction l; constructor; assumption. Qed.

Lemma subseq_filter {A : Type} (f : A -> bool) (l : list A) :
  subseq (filter f l) l.
Proof.
  induction l as [|x l IH]; cbn [filter]; [constructor|].
  destruct (f x); constructor; assumption.
Qed.

Lemma subseq_In {A : Type} (l1 l2 : list A) :
  subseq l1 l2 -> forall x, In x l1 -> In x l2.
Proof.
  induction 1 as [|y l1 l2 _ IH|y l1 l2 _ IH]; intros x Hx.
  - assumption.
  - right. now apply IH.
  - destruct Hx as [->|Hx]; [now left|right; now apply IH].
Qed.

Lemma subseq_length {A : Type} (l1 l2 : list A) :
  subseq l1 l2 -> length l1 <= length l2.
Proof. induction 1; cbn [length]; lia. Qed.

Lemma subseq_sorted {A : Type} (R : A -> A -> Prop) (l1 l2 : list A) :
  subseq l1 l2 -> StronglySorted R l2 -> StronglySorted R l1.
Proof.
  induction 1 as [|y l1 l2 Hs IH|y l1 l2 Hs IH]; intros Hsorted.
  - constructor.
  - inversion Hsorted; subst. now apply IH.
  - inversion Hsorted as [|? ? Hrest Hall]; subst.
    constructor; [now apply IH|].
    rewrite Forall_forall in *. intros x Hx. apply Hall.
    eapply subseq_In; eassumption.
Qed.

Lemma seq_sorted (s n : nat) : StronglySorted lt (seq s n).
Proof.
  revert s. induction n as [|n IH]; intros s; cbn [seq]; constructor.
  - apply IH.
  - rewrite Forall_forall. intros x Hx. apply in_seq in Hx. lia.
Qed.

(** The features of one type stand in ascending order. *)
Lemma indices_with_sorted (tag : string) (l : list string) :
  StronglySorted lt (indices_with tag l).
Proof.
  rewrite indices_with_filter.
  eapply subseq_sorted; [apply subseq_filter|apply seq_sorted].
Qed.

Section Loops.

Variable chi2_sf : NpFloat.t -> Z -> NpFloat.t.
Variable kruskalwallis : list (list NpFloat.t) -> result NpFloat.t.
Variable Raw : ndarray2.
Variable Symbols : list string.
Variable Labels : list Z.
Variable Tau : NpFloat.t.

Local Abbreviation symbol := (Table.symbol Symbols).

(** A loop whose body appends at most the symbol of the feature at hand
    appends the symbols of a selection of the features, in their order. *)
Lemma for_each_selects (body : nat -> locals -> result locals) :
  (forall c st st',
      body c st = Ok st' ->
      Significant st' = Significant st \/
      Significant st' = Significant st ++ [symbol c]) ->
  forall cs st st',
    for_each body cs st = Ok st' ->
    exists sel,
      subseq sel cs /\ Significant st' = Significant st ++ map symbol sel.
Proof.
  intros Hbody. induction cs as [|c cs IH]; intros st st' H.
  - inversion H. exists []. split; [constructor|]. cbn. now rewrite app_nil_r.
  - cbn [for_each] in H. step_bind; [|discriminate].
    apply IH in H as (sel & Hsub & Hsig).
    apply Hbody in E as [E|E]; rewrite Hsig, E.
    + exists sel. split; [now constructor|reflexivity].
    + exists (c :: sel). split; [now constructor|].
      cbn [map]. now rewrite <- app_assoc.
Qed.

Lemma significant_selection (sig : list string) :
  ClusterAssociations chi2_sf kruskalwallis Raw Symbols Labels Tau = Ok sig ->
  exists ms cs,
    subseq ms (Mutations Symbols) /\
    subseq cs (CNVs Symbols) /\
    sig = map symbol ms ++ map symbol cs.
Proof.
  unfold ClusterAssociations, mutation_loop, cnv_loop. intros H.
  step_bind; [|discriminate]. step_bind; [|discriminate].
  apply (@for_each_selects _ (@TrackFacts.mutation_body_appends
           chi2_sf Raw Symbols Labels Tau)) in E as (ms & Hms & Hm).
  apply (@for_each_selects _ (@TrackFacts.cnv_body_appends
           kruskalwallis Raw Symbols Labels Tau)) in E0 as (cs & Hcs & Hc).
  exists ms, cs. inversion H. rewrite Hc, Hm. auto.
Qed.

End Loops.

(** X11. Whatever the data, a list that [ClusterAssociations] returns
    holds symbols of mutation features in ascending order of their
    column, then symbols of copy-number features in ascending order of
    theirs, each column at most once; every entry is one of [Symbols]. *)
Theorem significant_in_column_order :
  forall (chi2_sf : NpFloat.t -> Z -> NpFloat.t)
         (kruskalwallis : list (list NpFloat.t) -> result NpFloat.t)
         (Raw : ndarray2) (Symbols : list string) (Labels : list Z)
         (Tau : NpFloat.t) (sig : list string),
    ClusterAssociations chi2_sf kruskalwallis Raw Symbols Labels Tau = Ok sig ->
    exists ms cs,
      sig = map (symbol Symbols) ms ++ map (symbol Symbols) cs /\
      subseq ms (Mutations Symbols) /\ StronglySorted lt ms /\
      subseq cs (CNVs Symbols) /\ StronglySorted lt cs /\
      Forall (fun s => In s Symbols) sig /\
      length sig <= length (Mutations Symbols) + length (CNVs Symbols).
Proof.
  intros chi2_sf kruskalwallis Raw Symbols Labels Tau sig H.
  apply significant_selection in H as (ms & cs & Hms & Hcs & ->).
  exists ms, cs. split; [reflexivity|].
  split; [assumption|].
  split; [eapply subseq_sorted; [eassumption|apply indices_with_sorted]|].
  split; [assumption|].
  split; [eapply subseq_sorted; [eassumption|apply indices_with_sorted]|].
  split.
  - apply Forall_app. split; apply Forall_map, Forall_forall; intros c Hc.
    + apply (subseq_In Hms), In_indices_with in Hc as [Hlt _].
      now apply nth_In.
    + apply (subseq_In Hcs), In_indices_with in Hc as [Hlt _].
      now apply nth_In.
  - rewrite length_app, !length_map.
    apply subseq_length in Hms, Hcs. lia.
Qed.

Lemma significant_in_column_order_witness :
  exists ms cs,
    ["TP53_Mut"; "EGFR_CNV"]%string
    = map (symbol Demo.Symbols8) ms ++ map (symbol Demo.Symbols8) cs /\
    subseq ms (Mutations Demo.Symbols8) /\ StronglySorted lt ms /\
    subseq cs (CNVs Demo.Symbols8) /\ StronglySorted lt cs /\
    Forall (fun s => In s Demo.Symbols8) ["TP53_Mut"; "EGFR_CNV"]%string /\
    2 <= length (Mutations Demo.Symbols8) + length (CNVs Demo.Symbols8).
Proof.
  apply (@significant_in_column_order Demo.sf Demo.rank_test Demo.Raw8
           Demo.Symbols8 Demo.Labels8 Demo.TauWide).
  vm_compute. reflexivity.
Defined.

(** *** The copy-number loop for two to five clusters *)

Section RankTests.

Variable kruskalwallis : list (list NpFloat.t) -> result NpFloat.t.
Variable Raw : ndarray2.
Variable Symbols : list string.
Variable Labels : list Z.
Variable Tau : NpFloat.t.
Variable K : nat.

Local Abbreviation symbol := (Table.symbol Symbols).
Local Abbreviation cnv_p := (Reporting.cnv_p kruskalwallis Raw Labels K).

Hypothesis labels_rows : length Labels = n_rows Raw.
Hypothesis max_label : np_max Labels = Ok (Z.of_nat K).
Hypothesis supported : in_range K.

(** The branch taken hands the rank test the values of the feature, one
    group for each cluster. *)
Lemma cnv_branches_tested (c : nat) (st : locals) :
  c < n_cols Raw ->
  cnv_branches kruskalwallis Raw Labels (Z.of_nat K) c st
  = (pv <- cnv_p c ;; Ok {| Significant := Significant st; p := Some pv |}).
Proof.
  intros Hc. unfold cnv_branches, Reporting.cnv_p, groups.
  destruct supported as [E|[E|[E|E]]]; rewrite E;
    cbn [Z.of_nat Pos.of_succ_nat Pos.succ Z.eqb Pos.eqb];
    rewrite !(@mask_column_ok Raw Labels c labels_rows Hc); cbn [bind];
    reflexivity.
Qed.

Lemma cnv_body_tested (c : nat) (st : locals) :
  c < n_cols Raw ->
  cnv_body kruskalwallis Raw Symbols Labels Tau c st
  = (pv <- cnv_p c ;;
     Ok (report Symbols Tau c pv st)).
Proof.
  intros Hc. unfold cnv_body. rewrite max_label. cbn [bind].
  rewrite cnv_branches_tested by assumption.
  destruct (cnv_p c) as [pv|e]; reflexivity.
Qed.

Lemma cnv_for_each_tested (cs : list nat) :
  (forall c, In c cs -> c < n_cols Raw) ->
  Forall (fun c => exists pv, cnv_p c = Ok pv) cs ->
  forall st, exists pv,
    for_each (cnv_body kruskalwallis Raw Symbols Labels Tau) cs st
    = Ok {| Significant :=
              Significant st
              ++ map symbol (filter (fun c => below Tau (cnv_p c)) cs);
            p := pv |}.
Proof.
  induction cs as [|c cs IH]; intros Hcs Hok st.
  - exists (p st). cbn. rewrite app_nil_r. now destruct st.
  - inversion Hok as [|? ? [pv Hpv] Hrest]; subst.
    cbn [for_each]. rewrite cnv_body_tested by (apply Hcs; now left).
    rewrite Hpv. cbn [bind].
    destruct (IH (fun c' H => Hcs c' (or_intror H)) Hrest
                 (report Symbols Tau c pv st)) as [pv' Hloop].
    exists pv'. rewrite Hloop. f_equal. f_equal.
    unfold report. cbn [Significant filter]. rewrite Hpv. cbn [below].
    destruct (NpFloat.ltb pv Tau); cbn [map]; trivial.
    now rewrite <- app_assoc.
Qed.

Lemma cnv_for_each_fails (pre post : list nat) (c : nat) (e : exn) :
  (forall c', In c' (pre ++ c :: post) -> c' < n_cols Raw) ->
  Forall (fun c' => exists pv, cnv_p c' = Ok pv) pre ->
  cnv_p c = Raise e ->
  forall st,
    for_each (cnv_body kruskalwallis Raw Symbols Labels Tau)
             (pre ++ c :: post) st
    = Raise e.
Proof.
  induction pre as [|c0 pre IH]; intros Hcs Hok Hc st.
  - cbn [app for_each]. rewrite cnv_body_tested by (apply Hcs; now left).
    now rewrite Hc.
  - inversion Hok as [|? ? [pv Hpv] Hrest]; subst.
    cbn [app for_each]. rewrite cnv_body_tested by (apply Hcs; now left).
    rewrite Hpv. cbn [bind].
    apply IH; trivial. intros c' H. apply Hcs. now right.
Qed.

End RankTests.

(** X12. With two to five clusters, a row of [Raw] for each label and a
    column for each symbol, and a rank test that answers for every
    copy-number feature, the call returns the symbols of the mutation
    features whose chi-square p-value is below [Tau], then the symbols of
    the copy-number features whose rank test over the values of the
    feature, grouped by cluster, gave a p-value below [Tau]. *)
Theorem association_report :
  forall (chi2_sf : NpFloat.t -> Z -> NpFloat.t)
         (kruskalwallis : list (list NpFloat.t) -> result NpFloat.t)
         (Raw : ndarray2) (Symbols : list string) (Labels : list Z)
         (Tau : NpFloat.t) (K : nat),
    length Labels = n_rows Raw ->
    length Symbols <= n_cols Raw ->
    np_max Labels = Ok (Z.of_nat K) ->
    in_range K ->
    Forall (fun c => exists pv, cnv_p kruskalwallis Raw Labels K c = Ok pv)
           (CNVs Symbols) ->
    ClusterAssociations chi2_sf kruskalwallis Raw Symbols Labels Tau
    = Ok (map (symbol Symbols)
              (filter (fun c => NpFloat.ltb (mutation_p chi2_sf Raw Labels K c) Tau)
                      (Mutations Symbols))
          ++ map (symbol Symbols)
                 (filter (fun c => below Tau (cnv_p kruskalwallis Raw Labels K c))
                         (CNVs Symbols))).
Proof.
  intros chi2_sf kruskalwallis Raw Symbols Labels Tau K
         Hrows Hcols Hmax Hrange Hok.
  assert (Hmut : forall c, In c (Mutations Symbols) -> c < n_cols Raw).
  { intros c Hc. apply In_indices_with in Hc. lia. }
  assert (Hcnv : forall c, In c (CNVs Symbols) -> c < n_cols Raw).
  { intros c Hc. apply In_indices_with in Hc. lia. }
  unfold ClusterAssociations, mutation_loop, cnv_loop.
  destruct (@mutation_for_each chi2_sf Raw Symbols Labels Tau K Hrows Hmax
              (Mutations Symbols) Hmut {| Significant := []; p := None |})
    as [pv Hloop].
  rewrite Hloop. cbn [bind Significant app].
  destruct (@cnv_for_each_tested kruskalwallis Raw Symbols Labels Tau K
              Hrows Hmax Hrange (CNVs Symbols) Hcnv Hok
              {| Significant :=
                   map (symbol Symbols)
                       (filter (fun c => NpFloat.ltb
                                  (mutation_p chi2_sf Raw Labels K c) Tau)
                               (Mutations Symbols));
                 p := pv |})
    as [pv' Hloop'].
  rewrite Hloop'. reflexivity.
Qed.

Lemma association_report_witness :
  ClusterAssociations Demo.sf Demo.rank_test Demo.Raw8 Demo.Symbols8
                      Demo.Labels8 Demo.TauWide
  = Ok ["TP53_Mut"; "EGFR_CNV"]%string.
Proof.
  rewrite (@association_report Demo.sf Demo.rank_test Demo.Raw8 Demo.Symbols8
             Demo.Labels8 Demo.TauWide 2).
  - vm_compute. reflexivity.
  - reflexivity.
  - apply le_n.
  - reflexivity.
  - now left.
  - repeat constructor. now exists (NpFloat.Fin (1 # 2)).
Defined.

(** X13. Under the same conditions, a rank test that raises ends the
    call: the exception of the first copy-number feature whose test
    fails is the outcome, and nothing found before it is returned. *)
Theorem rank_test_failure :
  forall (chi2_sf : NpFloat.t -> Z -> NpFloat.t)
         (kruskalwallis : list (list NpFloat.t) -> result NpFloat.t)
         (Raw : ndarray2) (Symbols : list string) (Labels : list Z)
         (Tau : NpFloat.t) (K : nat)
         (pre post : list nat) (c : nat) (e : exn),
    length Labels = n_rows Raw ->
    length Symbols <= n_cols Raw ->
    np_max Labels = Ok (Z.of_nat K) ->
    in_range K ->
    CNVs Symbols = pre ++ c :: post ->
    Forall (fun c' => exists pv, cnv_p kruskalwallis Raw Labels K c' = Ok pv)
           pre ->
    cnv_p kruskalwallis Raw Labels K c = Raise e ->
    ClusterAssociations chi2_sf kruskalwallis Raw Symbols Labels Tau = Raise e.
Proof.
  intros chi2_sf kruskalwallis Raw Symbols Labels Tau K pre post c e
         Hrows Hcols Hmax Hrange Hsplit Hok Hc.
  assert (Hmut : forall c, In c (Mutations Symbols) -> c < n_cols Raw).
  { intros c' H. apply In_indices_with in H. lia. }
  assert (Hcnv : forall c', In c' (pre ++ c :: post) -> c' < n_cols Raw).
  { intros c' H. rewrite <- Hsplit in H. apply In_indices_with in H. lia. }
  unfold ClusterAssociations, mutation_loop, cnv_loop.
  destruct (@mutation_for_each chi2_sf Raw Symbols Labels Tau K Hrows Hmax
              (Mutations Symbols) Hmut {| Significant := []; p := None |})
    as [pv Hloop].
  rewrite Hloop, Hsplit. cbn [bind].
  rewrite (@cnv_for_each_fails kruskalwallis Raw Symbols Labels Tau K
             Hrows Hmax Hrange pre post c e Hcnv Hok Hc).
  reflexivity.
Qed.

Lemma rank_test_failure_witness :
  ClusterAssociations Demo.sf Demo.rank_test_strict Demo.RawFlat
                      Demo.Symbols24 Demo.Labels8 Demo.Tau
  = Raise ValueError.
Proof.
  apply (@rank_test_failure Demo.sf Demo.rank_test_strict Demo.RawFlat
           Demo.Symbols24 Demo.Labels8 Demo.Tau 2 [] [] 0 ValueError).
  - reflexivity.
  - apply le_n.
  - reflexivity.
  - now left.
  - reflexivity.
  - constructor.
  - reflexivity.
Defined.

End ReportFacts.

(** ** Arguments that do not fit *)

Module ShapeFacts.

Import Assoc Table Reporting AssocFacts.

Lemma for_each_first_fails {I S : Type} (body : I -> S -> result S)
  (c : I) (cs : list I) (st : S) (e : exn) :
  body c st = Raise e -> for_each body (c :: cs) st = Raise e.
Proof. intros H. cbn [for_each]. now rewrite H. Qed.

Lemma untyped (tag : string) (Symbols : list string) :
  Forall (fun s => Suffix_of s <> tag) Symbols ->
  indices_with tag (map Suffix_of Symbols) = [].
Proof.
  intros Hall. destruct (indices_with tag (map Suffix_of Symbols)) as [|c cs] eqn:E;
    [reflexivity|].
  assert (Hc : In c (indices_with tag (map Suffix_of Symbols)))
    by (rewrite E; now left).
  apply In_indices_with in Hc as [Hlt Hs].
  rewrite Forall_forall in Hall. exfalso. apply (Hall (nth c Symbols EmptyString)).
  - now apply nth_In.
  - assumption.
Qed.

(** X14. With an empty vector of labels and at least one mutation or
    copy-number feature, the call fails with ValueError, raised by
    [np.max]. *)
Theorem empty_labels_fail :
  forall (chi2_sf : NpFloat.t -> Z -> NpFloat.t)
         (kruskalwallis : list (list NpFloat.t) -> result NpFloat.t)
         (Raw : ndarray2) (Symbols : list string) (Tau : NpFloat.t),
    Mutations Symbols <> [] \/ CNVs Symbols <> [] ->
    ClusterAssociations chi2_sf kruskalwallis Raw Symbols [] Tau
    = Raise ValueError.
Proof.
  intros chi2_sf kruskalwallis Raw Symbols Tau Htyped.
  unfold ClusterAssociations, mutation_loop, cnv_loop.
  destruct (Mutations Symbols) as [|c cs].
  - destruct Htyped as [H|H]; [contradiction|].
    destruct (CNVs Symbols) as [|c cs]; [contradiction|]. reflexivity.
  - reflexivity.
Qed.

Lemma empty_labels_fail_witness :
  ClusterAssociations Demo.sf Demo.rank_test Demo.Raw8 Demo.Symbols8 []
                      Demo.Tau
  = Raise ValueError.
Proof.
  apply (@empty_labels_fail Demo.sf Demo.rank_test Demo.Raw8 Demo.Symbols8
           Demo.Tau).
  left. discriminate.
Defined.

(** X15. With at least one mutation feature and a largest label of 1 or
    more, the call fails with IndexError when the labels and the rows of
    [Raw] differ in number, and when the first mutation feature is not a
    column of [Raw]. *)
Theorem misfit_raises_IndexError :
  forall (chi2_sf : NpFloat.t -> Z -> NpFloat.t)
         (kruskalwallis : list (list NpFloat.t) -> result NpFloat.t)
         (Raw : ndarray2) (Symbols : list string) (Labels : list Z)
         (Tau : NpFloat.t) (K : Z),
    Mutations Symbols <> [] ->
    np_max Labels = Ok K ->
    (1 <= K)%Z ->
    length Labels <> n_rows Raw \/ n_cols Raw <= hd 0 (Mutations Symbols) ->
    ClusterAssociations chi2_sf kruskalwallis Raw Symbols Labels Tau
    = Raise IndexError.
Proof.
  intros chi2_sf kruskalwallis Raw Symbols Labels Tau K Hmut Hmax HK Hfit.
  unfold ClusterAssociations, mutation_loop.
  destruct (Mutations Symbols) as [|c cs]; [contradiction|]. cbn [hd] in Hfit.
  rewrite (@for_each_first_fails _ _ _ c cs _ IndexError); [reflexivity|].
  unfold mutation_body, mutation_test. rewrite Hmax. cbn [bind].
  unfold observed_table, np_zeros2.
  destruct (Z.ltb_spec K 0) as [Hneg|_]; [lia|]. cbn [bind].
  unfold arange. replace (K + 1 - 1)%Z with K by lia.
  destruct (Z.to_nat K) as [|k] eqn:Hk; [lia|].
  cbn [seq map fill_observed].
  assert (Hmask : mask_column Raw Labels (1 + Z.of_nat 0) c = Raise IndexError).
  { unfold mask_column. destruct Hfit as [Hlen|Hcol].
    - apply Nat.eqb_neq in Hlen. now rewrite Hlen.
    - destruct (Nat.eqb (length Labels) (n_rows Raw)); cbn [negb]; trivial.
      apply Nat.ltb_ge in Hcol. now rewrite Hcol. }
  rewrite Hmask. reflexivity.
Qed.

Lemma misfit_raises_IndexError_witness :
  ClusterAssociations Demo.sf Demo.rank_test Demo.Raw8 Demo.Symbols8
                      Demo.LabelsOdd Demo.Tau
  = Raise IndexError.
Proof.
  apply (@misfit_raises_IndexError Demo.sf Demo.rank_test Demo.Raw8
           Demo.Symbols8 Demo.LabelsOdd Demo.Tau 2).
  - discriminate.
  - reflexivity.
  - lia.
  - left. discriminate.
Defined.

(** X16. When no symbol has the suffix [Mut] or [CNV], the call returns
    the empty list whatever [Raw], [Labels] and [Tau] are: nothing is
    tested and nothing can fail. *)
Theorem untyped_symbols_give_nothing :
  forall (chi2_sf : NpFloat.t -> Z -> NpFloat.t)
         (kruskalwallis : list (list NpFloat.t) -> result NpFloat.t)
         (Raw : ndarray2) (Symbols : list string) (Labels : list Z)
         (Tau : NpFloat.t),
    Forall (fun s => Suffix_of s <> "Mut"%string) Symbols ->
    Forall (fun s => Suffix_of s <> "CNV"%string) Symbols ->
    ClusterAssociations chi2_sf kruskalwallis Raw Symbols Labels Tau = Ok [].
Proof.
  intros chi2_sf kruskalwallis Raw Symbols Labels Tau Hm Hc.
  unfold ClusterAssociations, mutation_loop, cnv_loop, Mutations, CNVs.
  rewrite (untyped Hm), (untyped Hc). reflexivity.
Qed.

Lemma untyped_symbols_give_nothing_witness :
  ClusterAssociations Demo.sf Demo.rank_test Demo.Raw8
                      ["TP53_mut"; "EGFR-CNV"; "age"]%string [] Demo.Tau
  = Ok [].
Proof.
  apply (@untyped_symbols_give_nothing Demo.sf Demo.rank_test Demo.Raw8
           ["TP53_mut"; "EGFR-CNV"; "age"]%string [] Demo.Tau);
    repeat constructor; discriminate.
Defined.

End ShapeFacts.

(** ** The rows of the annotation tracks *)

Module TrackRowFacts.

Import Assoc Cluster Tracks Reporting AssocFacts ReportFacts.

Lemma enumerate_filter_from {A : Type} (f : A -> bool) (d : A) (l : list A) :
  forall s,
    map fst (filter (fun ix => f (snd ix)) (combine (seq s (length l)) l))
    = filter (fun i => f (nth (i - s) l d)) (seq s (length l)).
Proof.
  induction l as [|a l IH]; intros s; [reflexivity|].
  cbn [length seq combine filter snd].
  rewrite Nat.sub_diag. cbn [nth].
  assert (Htail :
    filter (fun i => f (nth (i - S s) l d)) (seq (S s) (length l))
    = filter (fun i => f (nth (i - s) (a :: l) d)) (seq (S s) (length l))).
  { apply filter_ext_in. intros i Hi. apply in_seq in Hi.
    replace (i - s) with (S (i - S s)) by lia. reflexivity. }
  destruct (f a); cbn [map fst]; rewrite IH, Htail; reflexivity.
Qed.

(** The columns drawn: those whose symbol is in the list, in ascending
    order. *)
Lemma Indices_filter (Symbols Sig : list string) :
  Indices Symbols Sig
  = filter (fun i => existsb (String.eqb (Table.symbol Symbols i)) Sig)
           (seq 0 (length Symbols)).
Proof.
  unfold Indices, enumerate.
  rewrite (enumerate_filter_from (fun s => existsb (String.eqb s) Sig)
                                 EmptyString).
  apply filter_ext. intros i. now rewrite Nat.sub_0_r.
Qed.

Lemma sorted_same_elements (l1 : list nat) :
  forall l2,
    StronglySorted lt l1 -> StronglySorted lt l2 ->
    (forall x, In x l1 <-> In x l2) -> l1 = l2.
Proof.
  induction l1 as [|a l1 IH]; intros l2 H1 H2 Hsame.
  - destruct l2 as [|b l2]; [reflexivity|].
    exfalso. apply (proj2 (Hsame b)). now left.
  - destruct l2 as [|b l2]; [exfalso; apply (proj1 (Hsame a)); now left|].
    inversion H1 as [|? ? H1' Ha]; subst.
    inversion H2 as [|? ? H2' Hb]; subst.
    rewrite Forall_forall in Ha, Hb.
    assert (Hab : a = b).
    { destruct (proj1 (Hsame a) (or_introl eq_refl)) as [E|Hin]; [now symmetry|].
      destruct (proj2 (Hsame b) (or_introl eq_refl)) as [E|Hin']; [assumption|].
      specialize (Ha _ Hin'). specialize (Hb _ Hin). lia. }
    subst b. f_equal. apply IH; trivial.
    intros x. split; intros Hx.
    + destruct (proj1 (Hsame x) (or_intror Hx)) as [E|Hin]; [|assumption].
      subst x. specialize (Ha _ Hx). lia.
    + destruct (proj2 (Hsame x) (or_intror Hx)) as [E|Hin]; [|assumption].
      subst x. specialize (Hb _ Hx). lia.
Qed.

(** With symbols that are all different, the columns found for the
    symbols of a selection of columns are the selection. *)
Lemma Indices_of_selection (Symbols : list string) (sel : list nat) :
  NoDup Symbols ->
  StronglySorted lt sel ->
  Forall (fun c => c < length Symbols) sel ->
  Indices Symbols (map (Table.symbol Symbols) sel) = sel.
Proof.
  intros Hnodup Hsorted Hrange. rewrite Indices_filter.
  apply sorted_same_elements; trivial.
  - eapply subseq_sorted; [apply subseq_filter|apply seq_sorted].
  - intros i. rewrite filter_In, in_seq, existsb_exists.
    rewrite Forall_forall in Hrange. split.
    + intros [Hi (s & Hs & He)]. apply String.eqb_eq in He.
      apply in_map_iff in Hs as (j & Hj & Hin). subst s.
      assert (i = j); [|now subst].
      apply (proj1 (NoDup_nth Symbols EmptyString) Hnodup);
        [lia|now apply Hrange|exact He].
    + intros Hin. split; [specialize (Hrange _ Hin); lia|].
      exists (Table.symbol Symbols i). split; [now apply in_map|].
      apply String.eqb_refl.
Qed.

Lemma filter_map_comm {A B : Type} (f : A -> B) (g : B -> bool) (l : list A) :
  filter g (map f l) = map f (filter (fun x => g (f x)) l).
Proof.
  induction l as [|x l IH]; cbn [map filter]; [reflexivity|].
  destruct (g (f x)); cbn [map]; now rewrite IH.
Qed.

(** A symbol of a feature of one type does not carry the tag of the
    other. *)
Lemma other_tag (s : string) (a b c : ascii) (tag : string) :
  PyStr.is_space c = false ->
  Suffix_of s = String a (String b (String c "")) ->
  has_tag tag (String a (String b (String c ""))) = false ->
  String.eqb (String "_" (String a (String b (String c "")))) tag = false ->
  has_tag tag s = false.
Proof.
  intros Hc Hs Hbare Htagged.
  destruct (string_dec s (String a (String b (String c "")))) as [->|Hne].
  - exact Hbare.
  - unfold has_tag.
    now rewrite (@TrackFacts.tail_of_typed s a b c Hc Hs Hne).
Qed.

Section Rows.

Variable chi2_sf : NpFloat.t -> Z -> NpFloat.t.
Variable kruskalwallis : list (list NpFloat.t) -> result NpFloat.t.
Variable Raw : ndarray2.
Variable Symbols : list string.
Variable Labels : list Z.
Variable Tau : NpFloat.t.

Local Abbreviation symbol := (Table.symbol Symbols).

Lemma typed_columns (tag : string) (sel : list nat) :
  subseq sel (indices_with tag (map Suffix_of Symbols)) ->
  StronglySorted lt sel /\
  Forall (fun c => c < length Symbols) sel /\
  Forall (fun c => Suffix_of (symbol c) = tag) sel.
Proof.
  intros Hsub. split; [|split].
  - eapply subseq_sorted; [eassumption|apply indices_with_sorted].
  - apply Forall_forall. intros c Hc.
    now apply (subseq_In Hsub), In_indices_with in Hc.
  - apply Forall_forall. intros c Hc.
    now apply (subseq_In Hsub), In_indices_with in Hc.
Qed.

Lemma no_tag_among (tag : string) (sel : list nat) :
  Forall (fun c => has_tag tag (symbol c) = false) sel ->
  filter (has_tag tag) (map symbol sel) = [].
Proof.
  intros H. apply TrackFacts.filter_none. now apply Forall_map.
Qed.

Hypothesis distinct_symbols : NoDup Symbols.

Lemma track_rows (sig : list string) :
  ClusterAssociations chi2_sf kruskalwallis Raw Symbols Labels Tau = Ok sig ->
  map symbol (Indices Symbols (SigMut sig)) = SigMut sig /\
  map symbol (Indices Symbols (SigCNV sig)) = SigCNV sig.
Proof.
  intros H. apply significant_selection in H as (ms & cs & Hms & Hcs & ->).
  apply typed_columns in Hms as (Hms_sorted & Hms_range & Hms_type).
  apply typed_columns in Hcs as (Hcs_sorted & Hcs_range & Hcs_type).
  unfold SigMut, SigCNV. rewrite !filter_app.
  rewrite (@no_tag_among "_Mut" cs), (@no_tag_among "_CNV" ms).
  - rewrite app_nil_r. cbn [app]. rewrite !filter_map_comm.
    split; rewrite Indices_of_selection; trivial.
    + eapply subseq_sorted; [apply subseq_filter|assumption].
    + apply Forall_forall. intros c Hc. apply filter_In in Hc as [Hc _].
      rewrite Forall_forall in Hms_range. now apply Hms_range.
    + eapply subseq_sorted; [apply subseq_filter|assumption].
    + apply Forall_forall. intros c Hc. apply filter_In in Hc as [Hc _].
      rewrite Forall_forall in Hcs_range. now apply Hcs_range.
  - eapply Forall_impl; [|exact Hms_type]. intros c Hc.
    now apply (@other_tag (symbol c) "M" "u" "t" "_CNV").
  - eapply Forall_impl; [|exact Hcs_type]. intros c Hc.
    now apply (@other_tag (symbol c) "C" "N" "V" "_Mut").
Qed.

End Rows.

(** X17. When the symbols are all different, the rows of each track
    match its labels: the columns drawn in the mutation track, read as
    symbols, are [SigMut] entry by entry, and those of the copy-number
    track are [SigCNV]. *)
Theorem track_rows_match_labels :
  forall (chi2_sf : NpFloat.t -> Z -> NpFloat.t)
         (kruskalwallis : list (list NpFloat.t) -> result NpFloat.t)
         (Raw : ndarray2) (Symbols : list string) (Labels : list Z)
         (Tau : NpFloat.t) (sig : list string),
    NoDup Symbols ->
    ClusterAssociations chi2_sf kruskalwallis Raw Symbols Labels Tau = Ok sig ->
    map (Table.symbol Symbols) (Indices Symbols (SigMut sig)) = SigMut sig /\
    map (Table.symbol Symbols) (Indices Symbols (SigCNV sig)) = SigCNV sig.
Proof.
  intros chi2_sf kruskalwallis Raw Symbols Labels Tau sig Hnodup H.
  exact (@track_rows chi2_sf kruskalwallis Raw Symbols Labels Tau Hnodup sig H).
Qed.

Lemma track_rows_match_labels_witness :
  map (Table.symbol Demo.Symbols8)
      (Indices Demo.Symbols8 (SigMut ["TP53_Mut"; "EGFR_CNV"]%string))
  = SigMut ["TP53_Mut"; "EGFR_CNV"]%string /\
  map (Table.symbol Demo.Symbols8)
      (Indices Demo.Symbols8 (SigCNV ["TP53_Mut"; "EGFR_CNV"]%string))
  = SigCNV ["TP53_Mut"; "EGFR_CNV"]%string.
Proof.
  apply (@track_rows_match_labels Demo.sf Demo.rank_test Demo.Raw8
           Demo.Symbols8 Demo.Labels8 Demo.TauWide).
  - repeat constructor; cbn; intuition discriminate.
  - vm_compute. reflexivity.
Defined.

(** *** The values drawn *)

Lemma take_fails {A : Type} (a : list A) (order : list nat) :
  Exists (fun i => length a <= i) order -> Shuffle.take a order = Raise IndexError.
Proof.
  induction order as [|i order IH]; intros Hex; [inversion Hex|].
  cbn [Shuffle.take]. destruct (nth_error a i) as [x|] eqn:Hi; [|reflexivity].
  inversion Hex as [? ? Hbad|? ? Hrest]; subst.
  - apply nth_error_None in Hbad. congruence.
  - now rewrite (IH Hrest).
Qed.

Lemma Indices_in_range (Symbols Sig : list string) :
  Forall (fun c => c < length Symbols) (Indices Symbols Sig).
Proof.
  rewrite Indices_filter. apply Forall_forall. intros c Hc.
  apply filter_In in Hc as [Hc _]. apply in_seq in Hc. lia.
Qed.

Lemma columns_ok (Raw : ndarray2) (Idx : list nat) :
  Forall (fun c => c < n_cols Raw) Idx ->
  columns Raw Idx
  = Ok {| n_rows := n_rows Raw;
          n_cols := length Idx;
          rows := map (fun r => map (fun c => nth c r NpFloat.NaN) Idx)
                      (rows Raw) |}.
Proof.
  intros Hall. unfold columns.
  replace (forallb (fun c => c <? n_cols Raw) Idx) with true; [reflexivity|].
  symmetry. apply forallb_forall. rewrite Forall_forall in Hall.
  intros c Hc. now apply Nat.ltb_lt, Hall.
Qed.

(** X18. With a column of [Raw] for each symbol, the values drawn in a
    track are those of the selected columns, one row of the track for
    each column in ascending order, and in each row the samples in the
    order of the dendrogram leaves; a leaf that is not a row of [Raw]
    makes the selection fail with IndexError. *)
Theorem track_values :
  forall (Raw : ndarray2) (Symbols Sig : list string) (SampleOrder : list nat),
    wf_ndarray2 Raw ->
    length Symbols <= n_cols Raw ->
    (Forall (fun s => s < n_rows Raw) SampleOrder ->
     track Raw Symbols Sig SampleOrder
     = Ok (map (fun c =>
                  map (fun s => nth c (nth s (rows Raw) []) NpFloat.NaN)
                      SampleOrder)
               (Indices Symbols Sig))) /\
    (Exists (fun s => n_rows Raw <= s) SampleOrder ->
     track Raw Symbols Sig SampleOrder = Raise IndexError).
Proof.
  intros Raw Symbols Sig SampleOrder [Hrows _] Hcols.
  assert (Hidx : Forall (fun c => c < n_cols Raw) (Indices Symbols Sig)).
  { eapply Forall_impl; [|apply Indices_in_range]. cbn. intros c Hc. lia. }
  unfold track. rewrite (columns_ok _ Hidx). cbn [bind].
  unfold reordered. cbn [rows n_cols]. split.
  - intros Horder.
    rewrite (ShuffleFacts.take_ok _ [])
      by (now rewrite length_map, Hrows).
    cbn [bind]. f_equal. unfold transpose.
    rewrite (ListFacts.map_as_seq
               (fun c => map (fun s => nth c (nth s (rows Raw) []) NpFloat.NaN)
                             SampleOrder)
               (Indices Symbols Sig) 0).
    apply map_ext_in. intros k Hk. apply in_seq in Hk.
    rewrite map_map. apply map_ext_in. intros s Hs.
    rewrite Forall_forall in Horder. specialize (Horder s Hs).
    rewrite (ListFacts.nth_map_in
               (fun r => map (fun c => nth c r NpFloat.NaN) (Indices Symbols Sig))
               (rows Raw) [] []) by lia.
    apply (ListFacts.nth_map_in
             (fun c => nth c (nth s (rows Raw) []) NpFloat.NaN)
             (Indices Symbols Sig) 0 NpFloat.NaN). lia.
  - intros Hbad. rewrite take_fails; [reflexivity|].
    now rewrite length_map, Hrows.
Qed.

Lemma track_values_witness :
  track Demo.Raw8 Demo.Symbols8 ["TP53_Mut"]%string [7; 0; 5; 2]
  = Ok [[NpFloat.one; NpFloat.zero; NpFloat.one; NpFloat.zero]] /\
  track Demo.Raw8 Demo.Symbols8 ["TP53_Mut"]%string [7; 8]
  = Raise IndexError.
Proof.
  assert (Hwf : wf_ndarray2 Demo.Raw8)
    by (split; [reflexivity|repeat constructor]).
  split.
  - apply (proj1 (@track_values Demo.Raw8 Demo.Symbols8 ["TP53_Mut"]%string
                    [7; 0; 5; 2] Hwf (le_n 3))).
    repeat constructor.
  - apply (proj2 (@track_values Demo.Raw8 Demo.Symbols8 ["TP53_Mut"]%string
                    [7; 8] Hwf (le_n 3))).
    apply Exists_cons_tl, Exists_cons_hd. apply le_n.
Defined.

End TrackRowFacts.

(** ** The sizes of the three sets *)

Module FoldFacts.

Import Shuffle.

Lemma fold_size_fifth (n : nat) : fold_size n = n / 5.
Proof.
  unfold fold_size. replace 100 with (20 * 5) by reflexivity.
  now rewrite Nat.Div0.div_mul_cancel_l by discriminate.
Qed.

Lemma slice_length {A : Type} (a : list A) (lo hi : nat) :
  hi <= length a -> length (slice a lo hi) = hi - lo.
Proof.
  intros H. unfold slice. rewrite length_firstn, length_skipn. lia.
Qed.

(** X19. In every pass the test set and the validation set hold a fifth
    of the samples each, rounded down, and the training set the rest,
    which is at least three fifths and never empty for data that is not.
    With fewer than five samples the test set and the validation set are
    empty and the training set is the whole data set. *)
Theorem fold_sizes :
  forall (permutation : nat -> list nat -> list nat) (i : nat)
         (d d' : dataset) (parts : partitions),
    shuffle_body permutation i d = Ok (d', parts) ->
    let n := length (X d') in
    length (X (test_set parts)) = n / 5 /\
    length (X (val_set parts)) = n / 5 /\
    length (X (train_set parts)) = n - 2 * (n / 5) /\
    3 * n <= 5 * length (X (train_set parts)) /\
    (n < 5 ->
     test_set parts = {| X := []; T := []; O := [] |} /\
     val_set parts = {| X := []; T := []; O := [] |} /\
     train_set parts = d').
Proof.
  intros permutation i d d' parts H n. unfold shuffle_body in H.
  repeat (step_bind; [|discriminate]).
  injection H as <- <-. cbn [X T O test_set val_set train_set] in *.
  subst n. rewrite fold_size_fifth.
  pose proof (Nat.Div0.mul_div_le (length a) 5) as Hfifth.
  rewrite !slice_length by lia. unfold slice_from. rewrite length_skipn.
  repeat split; try lia.
  - rewrite (proj2 (Nat.div_small_iff (length a) 5 ltac:(discriminate)) H).
    reflexivity.
  - rewrite (proj2 (Nat.div_small_iff (length a) 5 ltac:(discriminate)) H).
    reflexivity.
  - rewrite (proj2 (Nat.div_small_iff (length a) 5 ltac:(discriminate)) H).
    reflexivity.
Qed.

Lemma fold_sizes_witness :
  exists d' parts,
    shuffle_body Demo.draw 1 Demo.Data5 = Ok (d', parts) /\
    length (X (test_set parts)) = 1 /\
    length (X (val_set parts)) = 1 /\
    length (X (train_set parts)) = 3.
Proof.
  eexists. eexists. split; [reflexivity|].
  destruct (@fold_sizes Demo.draw 1 Demo.Data5 _ _ eq_refl)
    as (Htest & Hval & Htrain & _).
  repeat split; assumption.
Defined.

End FoldFacts.

(** ** The layout of the figure *)

Module LayoutFacts.

Import Cluster Layout.
Import Floats.

Lemma all_below (f : nat -> bool) (bound : nat) :
  forallb f (seq 0 (S bound)) = true -> forall n, n <= bound -> f n = true.
Proof.
  intros H n Hn. rewrite forallb_forall in H. apply H, in_seq. lia.
Qed.

Lemma tags_exclude (s : string) :
  has_tag "_Mut" s = true -> has_tag "_CNV" s = false.
Proof.
  unfold has_tag. intros H. apply String.eqb_eq in H. now rewrite H.
Qed.

(** The two annotation subsets never hold more than the list they are
    taken from. *)
Lemma tracks_within (sig : list string) :
  length (SigMut sig) + length (SigCNV sig) <= length sig.
Proof.
  unfold SigMut, SigCNV. induction sig as [|s sig IH]; cbn [filter length]; [lia|].
  destruct (has_tag "_Mut" s) eqn:Hm.
  - rewrite (tags_exclude _ Hm). cbn [length]. lia.
  - destruct (has_tag "_CNV" s); cbn [length]; lia.
Qed.

Lemma stacked_upto : forallb stacked (seq 0 87) = true.
Proof. vm_compute. reflexivity. Qed.

Lemma height_sign_upto : forallb height_sign (seq 0 1001) = true.
Proof. vm_compute. reflexivity. Qed.

Lemma tracks_fit_upto :
  forallb (fun n =>
             forallb (fun m =>
                        forallb (fun c => tracks_fit n m c)
                                (seq 0 (S (n - m))))
                     (seq 0 (S n)))
          (seq 0 87)
  = true.
Proof. vm_compute. reflexivity. Qed.

Lemma label_fits_upto :
  forallb (fun m => forallb (label_fits m) (seq 0 m)) (seq 0 201) = true.
Proof. vm_compute. reflexivity. Qed.

Ltac split_tests H :=
  repeat match type of H with
         | (_ && _)%bool = true =>
             let H' := fresh "H" in
             apply andb_true_iff in H as [H H']
         end.

(** X20. With up to 86 significant features, in the floating-point
    numbers that the code computes, the rectangles of the figure stand
    apart inside it: from the left, the feature dendrogram and the
    heatmap; from the bottom, the heatmap (level with the feature
    dendrogram, and of positive height), the strip of the tracks and the
    sample dendrogram. *)
Theorem figure_is_stacked :
  forall Significant : list string,
    length Significant <= 86 ->
    let n := length Significant in
    PrimFloat.ltb 0%float (ax_x (FeatureHandle n)) = true /\
    PrimFloat.ltb (right_edge (FeatureHandle n)) (ax_x (Heatmap n)) = true /\
    PrimFloat.ltb (right_edge (Heatmap n)) 1%float = true /\
    PrimFloat.ltb 0%float (ax_y (Heatmap n)) = true /\
    ax_y (FeatureHandle n) = ax_y (Heatmap n) /\
    ax_h (FeatureHandle n) = ax_h (Heatmap n) /\
    PrimFloat.ltb 0%float (ax_h (Heatmap n)) = true /\
    PrimFloat.ltb (top_edge (Heatmap n)) (TRACK_Y n) = true /\
    PrimFloat.leb (TRACK_Y n) (PrimFloat.add (TRACK_Y n) (TRACK_H n)) = true /\
    PrimFloat.ltb (PrimFloat.add (TRACK_Y n) (TRACK_H n)) (ax_y (SampleHandle n)) = true /\
    PrimFloat.ltb (top_edge (SampleHandle n)) 1%float = true.
Proof.
  intros Significant Hlen n.
  pose proof (@all_below stacked 86 stacked_upto n Hlen) as H.
  unfold stacked in H. split_tests H.
  repeat split; assumption.
Qed.

Lemma figure_is_stacked_witness :
  PrimFloat.ltb (top_edge (Heatmap 2)) (TRACK_Y 2) = true /\
  PrimFloat.ltb (top_edge (SampleHandle 2)) 1%float = true.
Proof.
  destruct (@figure_is_stacked ["TP53_Mut"; "EGFR_CNV"]%string)
    as (_ & _ & _ & _ & _ & _ & _ & Hheat & _ & _ & Htop).
  - cbn. lia.
  - split; assumption.
Defined.

(** X21. For up to 1000 significant features, the height that the code
    computes for the heatmap is positive exactly up to 86 of them and
    negative exactly from 87 on. *)
Theorem heatmap_height :
  forall Significant : list string,
    length Significant <= 1000 ->
    let n := length Significant in
    (PrimFloat.ltb 0%float (ax_h (Heatmap n)) = true <-> n <= 86) /\
    (PrimFloat.ltb (ax_h (Heatmap n)) 0%float = true <-> 87 <= n).
Proof.
  intros Significant Hlen n.
  pose proof (@all_below height_sign 1000 height_sign_upto n Hlen) as H.
  unfold height_sign in H. apply andb_true_iff in H as [Hpos Hneg].
  apply Bool.eqb_prop in Hpos, Hneg. rewrite Hpos, Hneg.
  split; [apply Nat.leb_le|apply Nat.leb_le].
Qed.

Lemma heatmap_height_witness :
  PrimFloat.ltb 0%float (ax_h (Heatmap 2)) = true.
Proof.
  destruct (@heatmap_height ["TP53_Mut"; "EGFR_CNV"]%string) as [Hpos _].
  - cbn. lia.
  - apply Hpos. cbn. lia.
Defined.

(** X22. For a list of up to 86 entries that [ClusterAssociations]
    returns, in the numbers that the code computes and up to [1e-12]:
    the copy-number tracks start at the bottom of the strip of the
    tracks and the mutation tracks end at its top; the two rectangles
    overlap by one [TRACK] for each significant symbol that is in
    neither annotation subset; and when no symbol is the bare [Mut] or
    [CNV] they meet, each with one [TRACK] of height for each of its
    labels. *)
Theorem track_axes :
  forall (chi2_sf : NpFloat.t -> Z -> NpFloat.t)
         (kruskalwallis : list (list NpFloat.t) -> result NpFloat.t)
         (Raw : ndarray2) (Symbols : list string) (Labels : list Z)
         (Tau : NpFloat.t) (sig : list string),
    Assoc.ClusterAssociations chi2_sf kruskalwallis Raw Symbols Labels Tau
    = Ok sig ->
    length sig <= 86 ->
    let n := length sig in
    let m := length (SigMut sig) in
    let c := length (SigCNV sig) in
    ax_y (cnv n m) = TRACK_Y n /\
    near (top_edge (gm n c)) (PrimFloat.add (TRACK_Y n) (TRACK_H n)) = true /\
    near (PrimFloat.sub (top_edge (cnv n m)) (ax_y (gm n c)))
         (PrimFloat.mul TRACK (count (n - m - c))) = true /\
    (m + c < n ->
     PrimFloat.ltb (ax_y (gm n c)) (top_edge (cnv n m)) = true) /\
    (~ In "Mut"%string Symbols -> ~ In "CNV"%string Symbols ->
     near (top_edge (cnv n m)) (ax_y (gm n c)) = true /\
     near (ax_h (gm n c)) (PrimFloat.mul TRACK (count m)) = true /\
     near (ax_h (cnv n m)) (PrimFloat.mul TRACK (count c)) = true).
Proof.
  intros chi2_sf kruskalwallis Raw Symbols Labels Tau sig Hsig Hlen n m c.
  pose proof (tracks_within sig) as Hwithin. fold m c n in Hwithin.
  assert (Hfit : tracks_fit n m c = true).
  { pose proof (@all_below _ 86 tracks_fit_upto n Hlen) as Hn. cbn beta in Hn.
    pose proof (@all_below _ n Hn m ltac:(lia)) as Hm. cbn beta in Hm.
    apply (@all_below _ (n - m) Hm c). lia. }
  unfold tracks_fit in Hfit. split_tests Hfit.
  split; [reflexivity|]. split; [assumption|]. split; [assumption|].
  split.
  - intros Hless. destruct (Nat.eqb_spec (n - m - c) 0) as [E|_]; [lia|].
    assumption.
  - intros Hmut Hcnv.
    pose proof (@TrackFacts.tracks_of_significant chi2_sf kruskalwallis Raw
                  Symbols Labels Tau Hmut Hcnv sig Hsig) as Hcover.
    assert (Hsum : m + c = n).
    { unfold m, c, n. rewrite <- Hcover at 3. now rewrite length_app. }
    destruct (Nat.eqb_spec (n - m - c) 0) as [_|E]; [|lia].
    replace (n - c) with m in H1 by lia. replace (n - m) with c in H0 by lia.
    repeat split; assumption.
Qed.

Lemma track_axes_witness :
  near (top_edge (cnv 2 1)) (ax_y (gm 2 1)) = true /\
  near (ax_h (gm 2 1)) (PrimFloat.mul TRACK (count 1)) = true /\
  near (ax_h (cnv 2 1)) (PrimFloat.mul TRACK (count 1)) = true.
Proof.
  destruct (@track_axes Demo.sf Demo.rank_test Demo.Raw8 Demo.Symbols8
              Demo.Labels8 Demo.TauWide ["TP53_Mut"; "EGFR_CNV"]%string
              eq_refl ltac:(cbn; lia))
    as (_ & _ & _ & _ & Hmeet).
  apply Hmeet; intros [E|[E|[E|[]]]]; discriminate.
Defined.

(** X23. For a track of up to 200 rows, in the numbers that the code
    computes: label [i] of [m] is written strictly inside the axes and
    below the label after it; up to [1e-12] it is at [(2 i + 1) / (2 m)],
    the middle of band [i] of [m], and as far from the bottom as label
    [m - 1 - i] is from the top. *)
Theorem labels_are_centred :
  forall m i : nat,
    m <= 200 ->
    i < m ->
    PrimFloat.ltb 0%float (label_y m i) = true /\
    PrimFloat.ltb (label_y m i) 1%float = true /\
    (S i < m -> PrimFloat.ltb (label_y m i) (label_y m (S i)) = true) /\
    near (PrimFloat.add (label_y m i) (label_y m (m - 1 - i))) 1%float = true /\
    near (label_y m i)
         (PrimFloat.div (PrimFloat.add (PrimFloat.mul 2%float (count i)) 1%float)
                        (PrimFloat.mul 2%float (count m)))
    = true.
Proof.
  intros m i Hm Hi.
  pose proof (@all_below _ 200 label_fits_upto m Hm) as Hall. cbn beta in Hall.
  rewrite forallb_forall in Hall.
  assert (H : label_fits m i = true) by (apply Hall, in_seq; lia).
  unfold label_fits in H. split_tests H.
  split; [assumption|]. split; [assumption|]. split; [|split; assumption].
  intros Hnext. apply Nat.ltb_lt in Hnext. now rewrite Hnext in *.
Qed.

Lemma labels_are_centred_witness :
  PrimFloat.ltb 0%float (label_y 3 0) = true /\
  PrimFloat.ltb (label_y 3 0) (label_y 3 1) = true /\
  near (PrimFloat.add (label_y 3 0) (label_y 3 2)) 1%float = true.
Proof.
  destruct (@labels_are_centred 3 0 ltac:(lia) ltac:(lia))
    as (Hpos & _ & Hnext & Hmirror & _).
  split; [assumption|]. split; [apply Hnext; lia|assumption].
Defined.

End LayoutFacts.

(** ** The chi-square test and the labels it reads *)

Module TestFacts.

Import Assoc Table Reporting AssocFacts TableFacts OmittedFacts.

Lemma chi_terms_length (Raw : ndarray2) (Labels : list Z) (c K : nat) :
  length (chi_terms (to_float (contingency Raw Labels c K))
                    (expected_table (contingency Raw Labels c K) K))
  = 2 * K.
Proof.
  unfold chi_terms, to_float, expected_table, contingency.
  rewrite length_map, length_combine. cbn [map concat seq].
  rewrite !length_app, !length_map, !length_seq. cbn [length]. lia.
Qed.

(** X24. The p-value of a mutation feature is the chi-square survival
    function at the sum of the terms [(observed - expected)^2 / expected]
    over the [2 K] cells of the table, with [2 K - 2] degrees of
    freedom. *)
Theorem mutation_degrees_of_freedom :
  forall (chi2_sf : NpFloat.t -> Z -> NpFloat.t)
         (Raw : ndarray2) (Labels : list Z) (K c : nat),
    length Labels = n_rows Raw ->
    c < n_cols Raw ->
    np_max Labels = Ok (Z.of_nat K) ->
    let stat :=
      NpFloat.sum (chi_terms (to_float (contingency Raw Labels c K))
                             (expected_table (contingency Raw Labels c K) K)) in
    length (chi_terms (to_float (contingency Raw Labels c K))
                      (expected_table (contingency Raw Labels c K) K))
    = 2 * K /\
    mutation_test chi2_sf Raw Labels c
    = Ok (stat, chi2_sf stat (2 * Z.of_nat K - 2)%Z).
Proof.
  intros chi2_sf Raw Labels K c Hrows Hc Hmax stat.
  split; [apply chi_terms_length|].
  rewrite (@mutation_test_ok chi2_sf Raw Labels K Hrows Hmax c Hc).
  unfold chisquare. fold stat. rewrite chi_terms_length.
  do 3 f_equal. lia.
Qed.

Lemma mutation_degrees_of_freedom_witness :
  mutation_test Demo.sf Demo.Raw8 Demo.Labels8 0
  = Ok (NpFloat.of_Z 8, Demo.sf (NpFloat.of_Z 8) 2%Z).
Proof.
  rewrite (proj2 (@mutation_degrees_of_freedom Demo.sf Demo.Raw8 Demo.Labels8
                    2 0 eq_refl ltac:(cbn; lia) eq_refl)).
  vm_compute. reflexivity.
Defined.

(** *** Samples without a cluster *)

Lemma fold_max_In (xs : list Z) :
  forall a, In (fold_left Z.max xs a) (a :: xs).
Proof.
  induction xs as [|x xs IH]; intros a; cbn [fold_left]; [now left|].
  destruct (IH (Z.max a x)) as [H|H].
  - rewrite <- H.
    destruct (Z.max_spec a x) as [[_ E]|[_ E]]; rewrite E;
      [right; left|left]; reflexivity.
  - right. right. assumption.
Qed.

Lemma np_max_In (v : list Z) (m : Z) : np_max v = Ok m -> In m v.
Proof.
  destruct v as [|x xs]; [discriminate|]. intros [= <-]. apply fold_max_In.
Qed.

Lemma np_max_unique (v : list Z) (m : Z) :
  In m v -> Forall (fun l => (l <= m)%Z) v -> np_max v = Ok m.
Proof.
  intros Hin Hall. destruct (np_max v) as [m'|e] eqn:E.
  - pose proof (np_max_In _ E) as Hin'. pose proof (np_max_bound _ E) as Hall'.
    rewrite Forall_forall in Hall, Hall'.
    specialize (Hall _ Hin'). specialize (Hall' _ Hin). f_equal. lia.
  - destruct v; [contradiction|discriminate].
Qed.

Lemma for_each_ext {I S : Type} (f g : I -> S -> result S) (l : list I) :
  (forall i st, f i st = g i st) ->
  forall st, for_each f l st = for_each g l st.
Proof.
  intros Hfg. induction l as [|i l IH]; intros st; [reflexivity|].
  cbn [for_each]. rewrite Hfg. destruct (g i st); cbn [bind]; trivial.
Qed.

Section Labelled.

Variable chi2_sf : NpFloat.t -> Z -> NpFloat.t.
Variable kruskalwallis : list (list NpFloat.t) -> result NpFloat.t.
Variable Raw : ndarray2.
Variable Symbols : list string.
Variable Labels : list Z.
Variable Tau : NpFloat.t.
Variable K : Z.

Local Abbreviation Raw' := (fst (labelled Raw Labels)).
Local Abbreviation Labels' := (snd (labelled Raw Labels)).

Hypothesis rows_length : length (rows Raw) = n_rows Raw.
Hypothesis labels_rows : length Labels = n_rows Raw.
Hypothesis max_label : np_max Labels = Ok K.
Hypothesis some_cluster : (1 <= K)%Z.

Lemma labelled_max : np_max Labels' = Ok K.
Proof.
  cbn [labelled snd]. apply np_max_unique.
  - apply np_max_In in max_label.
    assert (Hlen : length Labels = length (rows Raw)) by congruence.
    clear - max_label some_cluster Hlen.
    revert Hlen max_label. generalize (rows Raw).
    induction Labels as [|l ls IH]; intros [|r rs] Hlen Hin;
      try discriminate; [contradiction|].
    cbn [combine filter fst]. destruct Hin as [->|Hin].
    + destruct (Z.leb_spec 1 K); [now left|lia].
    + destruct (1 <=? l)%Z; [right|]; apply IH; trivial;
        cbn in Hlen; lia.
  - apply np_max_bound in max_label. apply Forall_map.
    apply Forall_forall. intros [l r] Hin. apply filter_In in Hin as [Hin _].
    apply in_combine_l in Hin. rewrite Forall_forall in max_label.
    now apply max_label.
Qed.

Lemma labelled_mask (j : Z) (c : nat) :
  (1 <= j)%Z ->
  mask_column Raw' Labels' j c = mask_column Raw Labels j c.
Proof.
  intros Hj. unfold mask_column. cbn [labelled fst snd n_rows n_cols rows].
  rewrite length_map, Nat.eqb_refl, labels_rows, Nat.eqb_refl. cbn [negb].
  destruct (c <? n_cols Raw); cbn [negb]; trivial.
  rewrite combine_fst_snd. do 2 f_equal.
  apply filter_filter_impl. intros [l r] H. cbn [fst] in *.
  apply Z.eqb_eq in H. subst l. now apply Z.leb_le.
Qed.

Lemma labelled_fill (c : nat) (js : list Z) :
  Forall (fun j => (1 <= j)%Z) js ->
  forall Observed,
    fill_observed Raw' Labels' c js Observed
    = fill_observed Raw Labels c js Observed.
Proof.
  induction 1 as [|j js Hj _ IH]; intros Observed; [reflexivity|].
  cbn [fill_observed]. rewrite (labelled_mask c Hj).
  destruct (mask_column Raw Labels j c); cbn [bind]; trivial.
Qed.

Lemma arange_from_one (k : Z) : Forall (fun j => (1 <= j)%Z) (arange 1 k).
Proof.
  unfold arange. apply Forall_map, Forall_forall. intros i _. lia.
Qed.

Lemma labelled_mutation_body (c : nat) (st : locals) :
  mutation_body chi2_sf Raw' Symbols Labels' Tau c st
  = mutation_body chi2_sf Raw Symbols Labels Tau c st.
Proof.
  unfold mutation_body, mutation_test. rewrite labelled_max, max_label.
  cbn [bind]. unfold observed_table.
  destruct (np_zeros2 K); cbn [bind]; trivial.
  now rewrite labelled_fill by apply arange_from_one.
Qed.

Lemma labelled_cnv_body (c : nat) (st : locals) :
  cnv_body kruskalwallis Raw' Symbols Labels' Tau c st
  = cnv_body kruskalwallis Raw Symbols Labels Tau c st.
Proof.
  unfold cnv_body. rewrite labelled_max, max_label. cbn [bind].
  unfold cnv_branches.
  rewrite !(fun j H => labelled_mask (j:=j) c H) by lia.
  reflexivity.
Qed.

Lemma labelled_associations :
  ClusterAssociations chi2_sf kruskalwallis Raw' Symbols Labels' Tau
  = ClusterAssociations chi2_sf kruskalwallis Raw Symbols Labels Tau.
Proof.
  unfold ClusterAssociations, mutation_loop, cnv_loop.
  rewrite (for_each_ext _ _ _ labelled_mutation_body).
  destruct (for_each _ (Mutations Symbols) _); cbn [bind]; trivial.
  now rewrite (for_each_ext _ _ _ labelled_cnv_body).
Qed.

End Labelled.

(** X25. Samples whose label is zero or negative are in no test: with a
    label for each row of [Raw] and a largest label of 1 or more, the
    call gives the same outcome, list or exception, as on the data
    without those samples. *)
Theorem unlabelled_samples_are_left_out :
  forall (chi2_sf : NpFloat.t -> Z -> NpFloat.t)
         (kruskalwallis : list (list NpFloat.t) -> result NpFloat.t)
         (Raw : ndarray2) (Symbols : list string) (Labels : list Z)
         (Tau : NpFloat.t) (K : Z),
    length (rows Raw) = n_rows Raw ->
    length Labels = n_rows Raw ->
    np_max Labels = Ok K ->
    (1 <= K)%Z ->
    ClusterAssociations chi2_sf kruskalwallis
                        (fst (labelled Raw Labels)) Symbols
                        (snd (labelled Raw Labels)) Tau
    = ClusterAssociations chi2_sf kruskalwallis Raw Symbols Labels Tau.
Proof.
  intros chi2_sf kruskalwallis Raw Symbols Labels Tau K H1 H2 H3 H4.
  exact (@labelled_associations chi2_sf kruskalwallis Raw Symbols Labels Tau K
           H1 H2 H3 H4).
Qed.

Lemma unlabelled_samples_are_left_out_witness :
  ClusterAssociations Demo.sf Demo.rank_test
                      (fst (labelled Demo.Raw8 [1; 0; 1; -3; 2; 2; 0; 2]%Z))
                      Demo.Symbols8
                      (snd (labelled Demo.Raw8 [1; 0; 1; -3; 2; 2; 0; 2]%Z))
                      Demo.Tau
  = ClusterAssociations Demo.sf Demo.rank_test Demo.Raw8 Demo.Symbols8
                        [1; 0; 1; -3; 2; 2; 0; 2]%Z Demo.Tau.
Proof.
  apply (@unlabelled_samples_are_left_out Demo.sf Demo.rank_test Demo.Raw8
           Demo.Symbols8 [1; 0; 1; -3; 2; 2; 0; 2]%Z Demo.Tau 2);
    try reflexivity.
  lia.
Defined.

End TestFacts.
